(** * ymmp: the patch engine of src/patcher.ts

    The development follows the class [Patcher] of [src/patcher.ts].

    Definitions:
    - [Buf]: the Node.js [Buffer] operations of the integrity patch
      ([Buffer.from(s, "ascii")], [indexOf], [copy]) and the loop of
      [bypassIntegrityWin];
    - [Js]: the string and number primitives of the process enumeration
      ([trim], [split], [replace], [parseInt]);
    - [Run]: the file system, the event log, the monad of a run and the
      methods of [Patcher] written in it;
    - [Demo]: concrete machines.

    Theorems: [Examples] runs the model; [ListFacts], [BufFacts],
    [StringFacts] and [MonadFacts] are the lemmas; [IntegrityFacts],
    [ProcessFacts], [CacheFacts] and [PatchFacts] hold the properties of the
    patcher, component by component. *)

From stdpp Require Import gmap strings list fin_maps.
From Stdlib Require Import Strings.Byte Strings.Ascii NArith ZArith.

#[global] Instance byte_eq_decision : EqDecision byte := Byte.byte_eq_dec.

(** A JavaScript string is a sequence of UTF-16 code units. Digests and the
    output of child processes are handled at this level; paths and asset
    names are only compared, concatenated and tested for a suffix, and are
    kept as [string]. *)
Definition jsstring := list N.

(* ===================================================================== *)
(** ** Buffers *)
(* ===================================================================== *)

Module Buf.

(** [Buffer.from(s, "ascii")]: when encoding, "ascii" keeps the low byte of
    every code unit, so the buffer is as long as the string. *)
Definition low_byte (c : N) : byte :=
  default x00 (Byte.of_N (c mod 256)%N).

Definition from_ascii (s : jsstring) : list byte := map low_byte s.

(** [starts_with value hay]: the bytes of [value] are at the head of [hay]. *)
Fixpoint starts_with (value hay : list byte) : bool :=
  match value, hay with
  | [], _ => true
  | _ :: _, [] => false
  | x :: value', y :: hay' => Byte.eqb x y && starts_with value' hay'
  end.

(** The search behind [indexOf]: [hay] is the part of the buffer that
    starts at absolute index [pos]. *)
Fixpoint find_from (value hay : list byte) (pos : nat) : option nat :=
  if starts_with value hay then Some pos
  else match hay with
       | [] => None
       | _ :: rest => find_from value rest (S pos)
       end.

(** [buf.indexOf(value, byteOffset)] for a Buffer [value] and
    [byteOffset >= 0]; [None] is JavaScript's [-1]. An empty [value] is
    found at [byteOffset], or at [buf.length] when [byteOffset] is past the
    end. *)
Definition indexOf (buf value : list byte) (byteOffset : nat) : option nat :=
  if decide (length buf < byteOffset) then
    match value with
    | [] => Some (length buf)
    | _ :: _ => None
    end
  else find_from value (drop byteOffset buf) byteOffset.

(** [source.copy(target, targetStart)]: overwrites [target] in place from
    [targetStart] with as much of [source] as fits; [target] keeps its
    length, and nothing is copied when [targetStart] is at or past its end. *)
Definition copy (source target : list byte) (targetStart : nat) : list byte :=
  take targetStart target
    ++ take (length target - targetStart) source
    ++ drop (targetStart + length source) target.

(** One turn of the loop of [bypassIntegrityWin] (lines 260-265) on the pair
    [(fileBuffer, offset)]: [None] is [break]. *)
Definition scan_step (oldBuf newBuf : list byte) (st : list byte * nat)
  : option (list byte * nat) :=
  match indexOf st.1 oldBuf st.2 with
  | None => None
  | Some idx => Some (copy newBuf st.1 idx, idx + length oldBuf)
  end.

(** The loop [while (true) { ... }] with a bound on the number of turns:
    [None] when [fuel] turns did not reach [break]. Besides the final buffer
    the model returns the indices at which [newBuf.copy] ran, in order (the
    list is not in the source; it counts the replacements). *)
Fixpoint scan (fuel : nat) (oldBuf newBuf fileBuffer : list byte) (offset : nat)
  : option (list byte * list nat) :=
  match fuel with
  | 0 => None
  | S fuel' =>
    match scan_step oldBuf newBuf (fileBuffer, offset) with
    | None => Some (fileBuffer, [])
    | Some (fileBuffer', offset') =>
      match scan fuel' oldBuf newBuf fileBuffer' offset' with
      | None => None
      | Some (out, hits) => Some (out, (offset' - length oldBuf) :: hits)
      end
    end
  end.

(** [value] occurs in [buf] at index [p]. *)
Definition occurs_at (value buf : list byte) (p : nat) : Prop :=
  take (length value) (drop p buf) = value.

(** All the indices at which [value] occurs in [buf], ascending. *)
Definition occurrences (value buf : list byte) : list nat :=
  filter (λ p, starts_with value (drop p buf) = true) (seq 0 (S (length buf))).

(** Byte [i] of [buf] lies inside the occurrence of [value] at [p]. *)
Definition covered (value buf : list byte) (i p : nat) : Prop :=
  occurs_at value buf p ∧ p ≤ i < p + length value.

(** No two occurrences of [value] in [buf] share a byte. *)
Definition disjoint_occurrences (value buf : list byte) : Prop :=
  ∀ p q, occurs_at value buf p → occurs_at value buf q → p < q →
         p + length value ≤ q.

(** The same, decided on the list of occurrences. *)
Definition disjointb (value buf : list byte) : bool :=
  let hits := occurrences value buf in
  forallb
    (λ p, forallb (λ q, (q <=? p) || (p + length value <=? q)) hits)
    hits.

End Buf.

(* ===================================================================== *)
(** ** JavaScript strings and numbers *)
(* ===================================================================== *)

Module Js.

(** The Numbers [parseInt] can return: [NaN], an integer that a binary64
    Number holds exactly, or an infinity. The sign of a zero is not kept:
    neither zero is greater than zero. *)
Inductive number :=
| NaN
| Num (z : Z)
| PosInfinity
| NegInfinity.

(** The integer nearest to [m], for [m] not negative, among those a
    Number holds: [m] itself below 2^53, and beyond that the nearest
    multiple of the spacing of the Numbers around [m], the even one of the
    two when [m] is half way. *)
Definition round_binary64 (m : Z) : Z :=
  if (m <? Z.shiftl 1 53)%Z then m
  else
    let shift := (Z.log2 m - 52)%Z in
    let q := Z.shiftr m shift in
    let r := (m - Z.shiftl q shift)%Z in
    let half := Z.shiftl 1 (shift - 1) in
    let q' := if (half <? r)%Z || ((r =? half)%Z && Z.odd q)
              then (q + 1)%Z else q in
    Z.shiftl q' shift.

(** The Number for the integer [z]: its rounding, which is an infinity
    from 2^1024 on. *)
Definition of_integer (z : Z) : number :=
  let m := round_binary64 (Z.abs z) in
  if (Z.shiftl 1 1024 <=? m)%Z then
    if (z <? 0)%Z then NegInfinity else PosInfinity
  else Num (Z.sgn z * m)%Z.

(** WhiteSpace and LineTerminator code units, as stripped by [trim] and by
    [parseInt]. *)
Definition is_white_space (c : N) : bool :=
  bool_decide (c ∈ [9; 10; 11; 12; 13; 32; 160; 5760; 8232; 8233; 8239;
                    8287; 12288; 65279]%N)
  || ((8192 <=? c)%N && (c <=? 8202)%N).

Fixpoint trim_start (s : jsstring) : jsstring :=
  match s with
  | [] => []
  | c :: rest => if is_white_space c then trim_start rest else s
  end.

Definition trim (s : jsstring) : jsstring :=
  reverse (trim_start (reverse (trim_start s))).

(** A string in a boolean position: every string but the empty one. *)
Definition truthy (s : jsstring) : bool :=
  match s with [] => false | _ :: _ => true end.

Fixpoint starts_with (value s : jsstring) : bool :=
  match value, s with
  | [], _ => true
  | _ :: _, [] => false
  | x :: value', y :: s' => (x =? y)%N && starts_with value' s'
  end.

(** [s.split(sep)] for a non-empty separator: [skip] counts the code units
    of a separator still to pass over, [cur] is the piece being collected,
    latest code unit first. *)
Fixpoint split_go (sep s : jsstring) (skip : nat) (cur : jsstring)
  : list jsstring :=
  match s with
  | [] => [reverse cur]
  | c :: rest =>
    match skip with
    | S k => split_go sep rest k cur
    | 0 =>
      if starts_with sep s
      then reverse cur :: split_go sep rest (length sep - 1) []
      else split_go sep rest 0 (c :: cur)
    end
  end.

Definition split (s sep : jsstring) : list jsstring := split_go sep s 0 [].

(** [s.replace] of every double quote (code unit 34) by nothing. *)
Definition remove_quotes (s : jsstring) : jsstring :=
  filter (λ c, c ≠ 34%N) s.

(** The value of a code unit as a digit: ['0'-'9'], then letters of either
    case from 10 on. *)
Definition digit_value (c : N) : option Z :=
  if ((48 <=? c) && (c <=? 57))%N then Some (Z.of_N c - 48)%Z
  else if ((97 <=? c) && (c <=? 122))%N then Some (Z.of_N c - 87)%Z
  else if ((65 <=? c) && (c <=? 90))%N then Some (Z.of_N c - 55)%Z
  else None.

(** The longest run of radix-[R] digits at the head of [s], read left to
    right into [acc]; [seen] tells whether a digit has been read. *)
Fixpoint read_digits (R : Z) (s : jsstring) (seen : bool) (acc : Z)
  : option Z :=
  match s with
  | [] => if seen then Some acc else None
  | c :: rest =>
    match digit_value c with
    | Some d =>
      if (d <? R)%Z then read_digits R rest true (acc * R + d)%Z
      else if seen then Some acc else None
    | None => if seen then Some acc else None
    end
  end.

(** [parseInt(s)] with no radix argument: leading white space, a sign, a
    [0x]/[0X] prefix that switches to radix 16, then the longest digit
    prefix; [NaN] when that prefix is empty, and else the Number nearest
    to the integer the digits denote (the language lets an implementation
    approximate the digits after the twentieth; V8 rounds the exact
    value). *)
Definition parseInt (s : jsstring) : number :=
  let s1 := trim_start s in
  let '(sign, s2) :=
    match s1 with
    | 45%N :: rest => ((-1)%Z, rest)
    | 43%N :: rest => (1%Z, rest)
    | _ => (1%Z, s1)
    end in
  let '(R, s3) :=
    match s2 with
    | 48%N :: 120%N :: rest => (16%Z, rest)
    | 48%N :: 88%N :: rest => (16%Z, rest)
    | _ => (10%Z, s2)
    end in
  match read_digits R s3 false 0 with
  | None => NaN
  | Some mathInt => of_integer (sign * mathInt)%Z
  end.

(** [n > 0 && !isNaN(n)]. *)
Definition positive (n : number) : bool :=
  match n with
  | NaN => false
  | Num z => (0 <? z)%Z
  | PosInfinity => true
  | NegInfinity => false
  end.

(** Code units of a string literal of the source whose characters are all
    ASCII. *)
Definition lit (s : string) : jsstring :=
  map Byte.to_N (String.list_byte_of_string s).

End Js.

(* ===================================================================== *)
(** ** The patcher *)
(* ===================================================================== *)

Module Run.

(** *** Paths and names *)

(** [path.join(a, b)]: an empty segment is skipped. The separator is
    written [/] on every platform, and separators and dot segments inside
    [a] and [b] are left as they are. *)
Definition join (a b : string) : string :=
  if decide (a = "") then b
  else if decide (b = "") then a
  else a +:+ "/" +:+ b.

(** [s] between two double quotes, as the commands of the source have it. *)
Definition quoted (s : string) : string :=
  String (ascii_of_nat 34) s +:+ String (ascii_of_nat 34) EmptyString.

(** [a || b] on strings: the empty string is falsy. *)
Definition or_else (a b : string) : string :=
  if decide (a = "") then b else a.

Fixpoint strip_prefix (pre s : string) : option string :=
  match pre, s with
  | EmptyString, _ => Some s
  | String _ _, EmptyString => None
  | String x pre', String y s' =>
    if Ascii.eqb x y then strip_prefix pre' s' else None
  end.

(** [s.endsWith(suffix)]. *)
Definition endsWith (s suffix : string) : bool :=
  let n := String.length s in
  let k := String.length suffix in
  (k <=? n) && String.eqb (String.substring (n - k) k s) suffix.

(** The part of a relative path before its first separator. *)
Fixpoint first_segment (s : string) : string :=
  match s with
  | EmptyString => EmptyString
  | String c rest =>
    if Ascii.eqb c "/"%char then EmptyString else String c (first_segment rest)
  end.

(** *** Data *)

(** [os.platform()]; the constructor throws on any other value, so a
    [Patcher] only exists on these three. *)
Inductive Platform := win32 | darwin | linux.

#[global] Instance Platform_eq_dec : EqDecision Platform.
Proof. solve_decision. Defined.

Inductive PatchType := default_type | devtoolsOnly.

#[global] Instance PatchType_eq_dec : EqDecision PatchType.
Proof. solve_decision. Defined.

(** [PatcherOptions] as passed to the constructor: every field optional. *)
Record PatcherOptions := {
  opt_patchType : option PatchType;
  opt_customPath : option string;
  opt_useCache : option bool;
  opt_keepCache : option bool;
  opt_githubToken : option string;
  opt_force : option bool;
}.

(** [Required<PatcherOptions>], the field [this.options]. *)
Record Options := {
  patchType : PatchType;
  customPath : string;
  useCache : bool;
  keepCache : bool;
  githubToken : string;
  force : bool;
}.

Record ReleaseAsset := {
  asset_name : string;
  browser_download_url : string;
  asset_size : Z;
}.

Record ReleaseMetadata := {
  release_name : string;
  published_at : string;
  assets : list ReleaseAsset;
}.

(** What a method can throw: [new Error(message)] of the patcher and of the
    release service, and the failures of the runtime. *)
Inductive error :=
| Error (message : string)
| FsError (code path : string)
| ZlibError
| AsarHeaderError
| ExecError (command : string).

(** The names the specification gives to the errors of the patcher. *)
Definition ProcessRunningError : error :=
  Error "Yandex Music is running. Please close it or use --force to kill it.".
Definition AssetNotFoundError : error :=
  Error "No suitable asset found in release".
Definition InstallNotFoundError (asarPath : string) : error :=
  Error ("Yandex Music not found at: " +:+ asarPath).
Definition PermissionError : error :=
  Error "No write permissions".

(** What the run does to the outside, besides the files. *)
Inductive event :=
| EWarn (message : string)
| EExec (command : string)
| EKill (pid : Js.number)
| ESleep (ms : nat)
| EFetchRelease (token : string)
| EDownload (url token : string)
| ECopyFile (src dest : string)
| EWriteFile (path : string)
| EUnlink (path : string)
| ESpawn (exe : string).

#[global] Instance event_eq_dec : EqDecision event.
Proof.
  assert (EqDecision Js.number) by solve_decision.
  solve_decision.
Defined.

(** The machine the patcher runs on. The file system holds regular files
    only: [cacheDir] and [tmpDir] are made by the constructor ([ensureDirs])
    and directories are not tracked. *)
Record World := {
  fs : gmap string (list byte);
  log : list event;
}.

(** The collaborators, which the patcher only calls: the operating system,
    the child processes, the asar header reader with SHA-256, zlib and the
    release service. The request for the latest release is answered whole
    or refused. A download is refused, or it is answered by a stream:
    [downloadStream] gives the bytes that arrive through it, and
    [stream_error] the error that ends it before its end, when there is
    one. [codesign] gives the files as a run of the signing tool on the
    bundle at the path it is given leaves them. *)
Record Env := {
  platform : Platform;
  homedir : string;
  LOCALAPPDATA : string;
  config_customPath : string;
  exec : string → option jsstring;
  access_rw : string → bool;
  header_sha256 : list byte → option jsstring;
  unzip : list byte → option (list byte);
  getLatestRelease : string → error + ReleaseMetadata;
  downloadStream : string → string → error + list byte;
  stream_error : string → string → option error;
  codesign : string → gmap string (list byte) → gmap string (list byte);
}.

(** The warning of line 255. *)
Definition not_found_warning : event :=
  EWarn "Original hash not found in EXE. Already patched?".

(** *** The monad of a run: state, exceptions and divergence *)

Inductive outcome (A : Type) :=
| Ret (a : A)
| Throw (e : error)
| Hang.
Arguments Ret {A} a.
Arguments Throw {A} e.
Arguments Hang {A}.

Definition M (A : Type) : Type := World → outcome A * World.

#[global] Instance M_ret : MRet M := λ A a w, (Ret a, w).

#[global] Instance M_bind : MBind M := λ A B f m w,
  match m w with
  | (Ret a, w') => f a w'
  | (Throw e, w') => (Throw e, w')
  | (Hang, w') => (Hang, w')
  end.

Definition throw {A} (e : error) : M A := λ w, (Throw e, w).
Definition hang {A} : M A := λ w, (Hang, w).
Definition emit (e : event) : M unit :=
  λ w, (Ret tt, {| fs := fs w; log := log w ++ [e] |}).
Definition when (c : bool) (m : M unit) : M unit :=
  if c then m else mret tt.

(** *** The file system calls *)

Definition existsSync (path : string) : M bool :=
  λ w, (Ret (bool_decide (is_Some (fs w !! path))), w).

Definition readFile (path : string) : M (list byte) :=
  λ w, match fs w !! path with
       | Some data => (Ret data, w)
       | None => (Throw (FsError "ENOENT" path), w)
       end.

Definition writeFile (path : string) (data : list byte) : M unit :=
  λ w, (Ret tt, {| fs := <[path := data]> (fs w);
                   log := log w ++ [EWriteFile path] |}).

Definition copyFile (src dest : string) : M unit :=
  λ w, match fs w !! src with
       | Some data =>
         (Ret tt, {| fs := <[dest := data]> (fs w);
                     log := log w ++ [ECopyFile src dest] |})
       | None => (Throw (FsError "ENOENT" src), w)
       end.

(** [(await fsp.stat(path)).size]. *)
Definition stat_size (path : string) : M Z :=
  λ w, match fs w !! path with
       | Some data => (Ret (Z.of_nat (length data)), w)
       | None => (Throw (FsError "ENOENT" path), w)
       end.

Definition unlink (path : string) : M unit :=
  λ w, match fs w !! path with
       | Some _ =>
         (Ret tt, {| fs := delete path (fs w);
                     log := log w ++ [EUnlink path] |})
       | None => (Throw (FsError "EPERM" path), w)
       end.

(** [fsp.readdir(dir)]: the entries directly under [dir]; a deeper file
    shows as the name of its directory. *)
Definition readdir (dir : string) : M (list string) :=
  λ w, (Ret (remove_dups
               (omap (λ p, first_segment <$> strip_prefix (dir +:+ "/") p)
                     (map fst (map_to_list (fs w))))), w).

(** *** The class [Patcher] *)

(** The fields of an instance ([this]). *)
Record Patcher := {
  options : Options;
  cacheDir : string;
  tmpDir : string;
  ymPath : string;
  ymAsarPath : string;
  ymExePath : option string;
}.

Section Methods.
Variable env : Env.

Definition getDefaultYMPath : string :=
  match platform env with
  | darwin => join "/Applications" "Яндекс Музыка.app"
  | linux => join "/opt" "Яндекс Музыка"
  | win32 => join (join (LOCALAPPDATA env) "Programs") "YandexMusic"
  end.

Definition resolveAsarPath (appPath : string) : string :=
  match platform env with
  | darwin => join (join (join appPath "Contents") "Resources") "app.asar"
  | win32 | linux => join (join appPath "resources") "app.asar"
  end.

Definition resolveExePath (appPath : string) : option string :=
  match platform env with
  | win32 => Some (join appPath "Яндекс Музыка.exe")
  | _ => None
  end.

(** The constructor (lines 42-69). *)
Definition new_Patcher (o : PatcherOptions) : Patcher :=
  let resolvedPath :=
    or_else (default "" (opt_customPath o)) (config_customPath env) in
  let opts := {|
    patchType := default default_type (opt_patchType o);
    customPath := resolvedPath;
    useCache := default true (opt_useCache o);
    keepCache := default true (opt_keepCache o);
    githubToken := default "" (opt_githubToken o);
    force := default false (opt_force o) |} in
  let cache := join (homedir env) ".ymmp-cache" in
  let ym := or_else (customPath opts) getDefaultYMPath in
  {| options := opts;
     cacheDir := cache;
     tmpDir := join cache "temp";
     ymPath := ym;
     ymAsarPath := resolveAsarPath ym;
     ymExePath := resolveExePath ym |}.

Variable this : Patcher.

(** The result of [checkInstallPossible]. *)
Record CheckResult := {
  status : bool;
  message : option string;
  request : option string;
}.

Definition checkInstallPossible : M CheckResult :=
  found ← existsSync (ymAsarPath this);
  if negb found then
    mret {| status := false;
            message := Some ("Yandex Music not found at: " +:+ ymAsarPath this);
            request := Some "REQUEST_YM_PATH" |}
  else if access_rw env (ymAsarPath this) then
    mret {| status := true; message := None; request := None |}
  else
    mret {| status := false;
            message := Some "No write permissions";
            request := Some "REQUEST_PERMISSIONS" |}.

(** The command of the enumeration (lines 328-332). *)
Definition enumeration_command : string :=
  match platform env with
  | win32 =>
    "tasklist /FI " +:+ quoted "IMAGENAME eq Яндекс Музыка.exe"
      +:+ " /FO CSV /NH"
  | darwin => "pgrep -f " +:+ quoted "Яндекс Музыка"
  | linux => "pgrep -f yandexmusic"
  end.

(** The callback of [map] in [getYandexMusicProcesses] (lines 340-348). *)
Definition parse_row (l : jsstring) : Js.number :=
  match platform env with
  | win32 =>
    match Js.split l [34; 44; 34]%N with
    | _ :: part1 :: _ =>
      if Js.truthy part1 then Js.parseInt (Js.remove_quotes part1)
      else Js.Num 0
    | _ => Js.Num 0
    end
  | _ => Js.parseInt l
  end.

(** Lines 337-349, on the output of the command. *)
Definition parse_processes (stdout : jsstring) : list Js.number :=
  filter (λ n, Js.positive n = true)
    (map parse_row
      (filter (λ l, Js.truthy (Js.trim l) = true) (Js.split stdout [10%N]))).

(** Lines 326-353: whatever goes wrong inside [try] ends in [catch]. *)
Definition getYandexMusicProcesses : M (list Js.number) :=
  emit (EExec enumeration_command);;
  match exec env enumeration_command with
  | None => mret []
  | Some stdout =>
    if negb (Js.truthy (Js.trim stdout)) then mret []
    else mret (parse_processes stdout)
  end.

Definition killProcesses (pids : list Js.number) : M unit :=
  foldr (λ pid rest, emit (EKill pid);; rest) (mret tt) pids;;
  emit (ESleep 2000).

Definition launchYandexMusic : M unit :=
  match platform env with
  | darwin =>
    let command := "open " +:+ quoted (ymPath this) in
    emit (EExec command);;
    match exec env command with
    | Some _ => mret tt
    | None => throw (ExecError command)
    end
  | win32 =>
    let exe := join (ymPath this) "Яндекс Музыка.exe" in
    found ← existsSync exe;
    when found (emit (ESpawn exe))
  | linux => mret tt
  end.

(** [getRawHeader] reads the archive at [asarPath]; the digest is the
    SHA-256 of its header string, in hexadecimal. *)
Definition calculateAsarHeaderHash (asarPath : string) : M jsstring :=
  data ← readFile asarPath;
  match header_sha256 env data with
  | Some digest => mret digest
  | None => throw AsarHeaderError
  end.

Definition backupPath : string := join (tmpDir this) "app.asar.backup".
Definition workingPath : string := join (tmpDir this) "app.asar".

Definition createBackup : M unit :=
  copyFile (ymAsarPath this) backupPath.

Definition replaceAsar : M unit :=
  copyFile workingPath (ymAsarPath this).

(** The files the signing of the bundle of this instance can rewrite are
    inside the bundle: its seal [Contents/_CodeSignature/CodeResources]
    and the executables it holds, whose signature is replaced. The archive
    is a resource, which is sealed and not rewritten, and the temp
    directory of the patcher is taken to lie outside the bundle. *)
Definition resigned (path : string) : bool :=
  bool_decide (is_Some (strip_prefix (ymPath this +:+ "/") path))
  && negb (bool_decide (path = ymAsarPath this))
  && negb (bool_decide (is_Some (strip_prefix (tmpDir this +:+ "/") path))).

(** What a run of [codesign] on the bundle does to the files, whether it
    ends well or not. It is the tool that writes, not the patcher: nothing
    is logged. *)
Definition resign : M unit :=
  λ w, (Ret tt,
        {| fs := filter (λ entry, resigned entry.1 = true)
                   (codesign env (ymPath this) (fs w))
                 ∪ filter (λ entry, resigned entry.1 = false) (fs w);
           log := log w |}).

Definition bypassIntegrityMac : M unit :=
  let command := "codesign --force --deep --sign - " +:+ quoted (ymPath this) in
  emit (EExec command);;
  resign;;
  match exec env command with
  | Some _ => mret tt
  | None => emit (EWarn "Codesign failed. App might be damaged.")
  end.

(** Lines 234-267. The loop runs with more turns than it can take when
    [oldBuf] is not empty ([scan_fuel_enough]); with an empty [oldBuf] it
    never reaches [break] ([scan_empty_diverges]), which is [hang]. *)
Definition bypassIntegrityWin (oldHash newHash : jsstring) : M unit :=
  match ymExePath this with
  | None => mret tt
  | Some exe =>
    found ← existsSync exe;
    if negb found || bool_decide (oldHash = newHash) then mret tt
    else
      hasBackup ← existsSync (exe +:+ ".backup");
      when (negb hasBackup) (copyFile exe (exe +:+ ".backup"));;
      fileBuffer ← readFile exe;
      let oldBuf := Buf.from_ascii oldHash in
      let newBuf := Buf.from_ascii newHash in
      match Buf.indexOf fileBuffer oldBuf 0 with
      | None => emit not_found_warning
      | Some _ =>
        match Buf.scan (S (length fileBuffer)) oldBuf newBuf fileBuffer 0 with
        | None => hang
        | Some (fileBuffer', _) => writeFile exe fileBuffer'
        end
      end
  end.

Definition decompressFile (source dest : string) : M unit :=
  compressed ← readFile source;
  match unzip env compressed with
  | Some decompressed => writeFile dest decompressed
  | None => throw ZlibError
  end.

Definition assetPrefix : string :=
  match patchType (options this) with
  | default_type => "app.asar"
  | devtoolsOnly => "appDevTools.asar"
  end.

(** Lines 275-277: [find] gives the first asset of that name, and [||]
    falls to the second search when the first finds nothing. *)
Definition resolveAsset (metadata : ReleaseMetadata) : option ReleaseAsset :=
  match
    List.find (λ a, bool_decide (asset_name a = assetPrefix +:+ ".gz"))
      (assets metadata)
  with
  | Some a => Some a
  | None =>
    List.find (λ a, bool_decide (asset_name a = assetPrefix)) (assets metadata)
  end.

(** Lines 269-318; the progress shown on the spinner is omitted.
    [createWriteStream] empties the local copy when it opens it, and
    [pipeline] puts in it what arrives through the stream; when the stream
    ends on an error, [pipeline] rejects and the local copy holds what had
    arrived. *)
Definition downloadModFiles (metadata : ReleaseMetadata) : M unit :=
  match resolveAsset metadata with
  | None => throw AssetNotFoundError
  | Some asset =>
    let destPath := join (tmpDir this) (asset_name asset) in
    let isGz := endsWith (asset_name asset) ".gz" in
    let download : M unit :=
      emit (EDownload (browser_download_url asset)
              (githubToken (options this)));;
      match
        downloadStream env (browser_download_url asset)
          (githubToken (options this))
      with
      | inl e => throw e
      | inr body =>
        writeFile destPath body;;
        match
          stream_error env (browser_download_url asset)
            (githubToken (options this))
        with
        | Some e => throw e
        | None => when isGz (decompressFile destPath workingPath)
        end
      end in
    cached ← existsSync destPath;
    if useCache (options this) && cached then
      size ← stat_size destPath;
      if bool_decide (size = asset_size asset) then
        when isGz (decompressFile destPath workingPath)
      else download
    else download
  end.

(** Lines 374-382; [tmpDir] exists since the constructor made it. *)
Definition clearCaches (forced : bool) : M unit :=
  files ← readdir (tmpDir this);
  foldr (λ file rest,
           when (forced || negb (endsWith file ".backup"))
             (unlink (join (tmpDir this) file));;
           rest)
        (mret tt) files.

(** [patch], lines 154-184: everything up to and including the backup.
    It hands on what the rest of the run needs: the processes found and the
    digest of the archive before the replacement. *)
Definition patch_prepare : M (list Js.number * jsstring) :=
  check ← checkInstallPossible;
  if negb (status check) then throw (Error (default "" (message check)))
  else
    processes ← getYandexMusicProcesses;
    match processes with
    | [] => mret tt
    | _ :: _ =>
      if negb (force (options this)) then throw ProcessRunningError
      else killProcesses processes
    end;;
    originalHash ←
      match platform env with
      | win32 => calculateAsarHeaderHash (ymAsarPath this)
      | _ => mret []
      end;
    emit (EFetchRelease (githubToken (options this)));;
    metadata ←
      match getLatestRelease env (githubToken (options this)) with
      | inl e => throw e
      | inr metadata => mret metadata
      end;
    downloadModFiles metadata;;
    createBackup;;
    mret (processes, originalHash).

(** [patch], lines 189-204: what follows the replacement. *)
Definition patch_finish (processes : list Js.number) (originalHash : jsstring)
  : M unit :=
  match platform env with
  | win32 =>
    newHash ← calculateAsarHeaderHash (ymAsarPath this);
    bypassIntegrityWin originalHash newHash
  | darwin => bypassIntegrityMac
  | linux => mret tt
  end;;
  when (negb (keepCache (options this))) (clearCaches false);;
  match processes with
  | [] => mret tt
  | _ :: _ => launchYandexMusic
  end.

(** [patch] (lines 148-205; the status texts are omitted). *)
Definition patch : M unit :=
  '(processes, originalHash) ← patch_prepare;
  replaceAsar;;
  patch_finish processes originalHash.

End Methods.

(** *** Notions used in the statements *)

(** The events a run added to the log of [w] to reach [w']. *)
Definition events_since (w w' : World) : list event :=
  drop (length (log w)) (log w').

(** The event creates, overwrites or deletes the file at [path]. *)
Definition writes_to (path : string) (e : event) : bool :=
  match e with
  | ECopyFile _ dest => bool_decide (dest = path)
  | EWriteFile p => bool_decide (p = path)
  | EUnlink p => bool_decide (p = path)
  | _ => false
  end.

(** How many of the events create, overwrite or delete [path]. *)
Definition count_writes (path : string) (evs : list event) : nat :=
  length (filter (λ e, writes_to path e = true) evs).

Definition is_download (e : event) : bool :=
  match e with
  | EDownload _ _ => true
  | _ => false
  end.

(** The computation, whatever its outcome, leaves the file at [path] as it
    is and logs no event that writes on it. *)
Definition spares {A} (path : string) (m : M A) : Prop :=
  ∀ w, fs (m w).2 !! path = fs w !! path
       ∧ ∃ evs, log (m w).2 = log w ++ evs ∧ count_writes path evs = 0.

(** When the computation returns, its last event is the copy of the file at
    [src] to [dest], nothing before it wrote on [src], and [dest] holds what
    [src] held at the start and still holds. *)
Definition copies_last {A} (src dest : string) (m : M A) : Prop :=
  ∀ w a w', m w = (Ret a, w') →
    ∃ data evs,
      fs w !! src = Some data
      ∧ fs w' !! src = Some data
      ∧ fs w' !! dest = Some data
      ∧ log w' = log w ++ evs ++ [ECopyFile src dest]
      ∧ count_writes src evs = 0.

(** The world after lines 245-248 of [bypassIntegrityWin], for an executable
    [exe] of content [buf]. *)
Definition after_exe_backup (exe : string) (buf : list byte) (w : World)
  : World :=
  if bool_decide (is_Some (fs w !! (exe +:+ ".backup"))) then w
  else {| fs := <[exe +:+ ".backup" := buf]> (fs w);
          log := log w ++ [ECopyFile exe (exe +:+ ".backup")] |}.

(** Calls of [bypassIntegrityWin] one after the other, each on its
    instance and with its pair of digests. *)
Fixpoint bypassIntegrityWin_calls
    (calls : list (Patcher * jsstring * jsstring)) : M unit :=
  match calls with
  | [] => mret tt
  | (this, oldHash, newHash) :: rest =>
    bypassIntegrityWin this oldHash newHash;;
    bypassIntegrityWin_calls rest
  end.

End Run.

(* ===================================================================== *)
(** ** Concrete machines, for the examples *)
(* ===================================================================== *)

Module Demo.
Import Run.

Definition bytes (s : string) : list byte := String.list_byte_of_string s.

(** A machine of platform [plat] on which the enumeration command prints
    [stdout] (or fails, for [None]) and the latest release has the assets
    [release_assets]. The digest and zlib are stand-ins: the digest of an
    archive is its first two bytes, and a compressed file is its content
    after the byte 0x1f. *)
Definition machine (plat : Platform) (stdout : option jsstring)
    (release_assets : list ReleaseAsset) : Env := {|
  platform := plat;
  homedir := match plat with
             | win32 => "C:/Users/u"
             | darwin => "/Users/u"
             | linux => "/home/u"
             end;
  LOCALAPPDATA := "C:/Users/u/AppData/Local";
  config_customPath := "";
  exec := λ _, stdout;
  access_rw := λ _, true;
  header_sha256 := λ data, Some (map Byte.to_N (take 2 data));
  unzip := λ data, match data with
                   | x1f :: rest => Some rest
                   | _ => None
                   end;
  getLatestRelease := λ _,
    inr {| release_name := "latest"; published_at := "";
           assets := release_assets |};
  downloadStream := λ url _,
    if String.eqb url "https://example.org/gz" then inr (x1f :: bytes "NEW")
    else inr (bytes "DEV");
  stream_error := λ _ _, None;
  codesign := λ bundle files,
    <[bundle +:+ "/Contents/_CodeSignature/CodeResources" := bytes "SEAL"]>
      files;
|}.

Definition with_type (t : PatchType) : PatcherOptions := {|
  opt_patchType := Some t;
  opt_customPath := None;
  opt_useCache := None;
  opt_keepCache := None;
  opt_githubToken := None;
  opt_force := None;
|}.

Definition gz_asset : ReleaseAsset := {|
  asset_name := "app.asar.gz";
  browser_download_url := "https://example.org/gz";
  asset_size := 4;
|}.

Definition devtools_asset : ReleaseAsset := {|
  asset_name := "appDevTools.asar";
  browser_download_url := "https://example.org/dev";
  asset_size := 3;
|}.

(** Windows, nothing running. *)
Definition windows : Env := machine win32 None [gz_asset].
Definition this : Patcher := new_Patcher windows (with_type default_type).
Definition exe : string := default "" (ymExePath this).

(** A world in which the executable holds [content] and nothing else
    exists. *)
Definition world_with_exe (content : list byte) : World :=
  {| fs := {[ exe := content ]}; log := [] |}.

Definition release : ReleaseMetadata :=
  {| release_name := "latest"; published_at := ""; assets := [gz_asset] |}.

(** The temp directory holds a copy of the compressed asset, of the
    declared size. *)
Definition cached_world : World :=
  {| fs := {[ join (tmpDir this) "app.asar.gz" := x1f :: bytes "OLD" ]};
     log := [] |}.

(** Linux, nothing running, a release whose only asset is the uncompressed
    devtools archive, and a patcher asked for that variant. *)
Definition linux_devtools : Env := machine linux None [devtools_asset].
Definition this_devtools : Patcher :=
  new_Patcher linux_devtools (with_type devtoolsOnly).
Definition release_devtools : ReleaseMetadata :=
  {| release_name := "latest"; published_at := "";
     assets := [devtools_asset] |}.

(** The application is installed with an archive [OLD]; the temp directory
    is empty, or holds the working file [STALE] of an earlier run. *)
Definition installed : World :=
  {| fs := {[ ymAsarPath this_devtools := bytes "OLD" ]}; log := [] |}.
Definition installed_stale : World :=
  {| fs := {[ ymAsarPath this_devtools := bytes "OLD";
              workingPath this_devtools := bytes "STALE" ]};
     log := [] |}.

(** Linux with one instance running, of pid 1234, and no [--force]. *)
Definition linux_running : Env :=
  machine linux (Some (Js.lit "1234" ++ [10%N])) [gz_asset].
Definition this_running : Patcher :=
  new_Patcher linux_running (with_type default_type).
Definition installed_running : World :=
  {| fs := {[ ymAsarPath this_running := bytes "OLD" ]}; log := [] |}.


(** Windows with the application installed ([OLD]), an executable that
    embeds the digest of the archive twice, and a release with the
    compressed asset. *)
Definition installed_windows : World :=
  {| fs := {[ ymAsarPath this := bytes "OLD";
              exe := bytes "MZ..OL....OL.." ]};
     log := [] |}.

(** One row of [tasklist /FO CSV /NH], ending in a carriage return, and the
    line it prints when nothing matches. *)
Definition tasklist_row : jsstring :=
  [34%N] ++ Js.lit "YM.exe" ++ [34; 44; 34]%N ++ Js.lit "1234"
    ++ [34; 44; 34]%N ++ Js.lit "Console" ++ [34; 44; 34]%N ++ Js.lit "1"
    ++ [34; 44; 34]%N ++ Js.lit "50,000 K" ++ [34; 13]%N.
Definition tasklist_nothing : jsstring :=
  Js.lit "INFO: No tasks are running which match the specified criteria."
    ++ [13; 10]%N.

End Demo.

(* ===================================================================== *)
(** ** More concrete cases *)
(* ===================================================================== *)

Module Cases.
Import Run.


(** Nothing on disk yet. *)
Definition empty_world : World := {| fs := ∅; log := [] |}.

(** macOS, nothing running. *)
Definition mac : Env := Demo.machine darwin None [Demo.gz_asset].
Definition this_mac : Patcher :=
  new_Patcher mac (Demo.with_type default_type).
Definition installed_mac : World :=
  {| fs := {[ ymAsarPath this_mac := Demo.bytes "OLD" ]}; log := [] |}.

(** Windows, where the download breaks after two bytes. *)
Definition windows_broken : Env := {|
  platform := win32;
  homedir := homedir Demo.windows;
  LOCALAPPDATA := LOCALAPPDATA Demo.windows;
  config_customPath := config_customPath Demo.windows;
  exec := exec Demo.windows;
  access_rw := access_rw Demo.windows;
  header_sha256 := header_sha256 Demo.windows;
  unzip := unzip Demo.windows;
  getLatestRelease := getLatestRelease Demo.windows;
  downloadStream := λ _ _, inr [x1f; x4e];
  stream_error := λ _ _, Some (Error "aborted");
  codesign := codesign Demo.windows;
|}.

(** Windows, the cache not kept after the run. *)
Definition discard_cache : PatcherOptions := {|
  opt_patchType := Some default_type;
  opt_customPath := None;
  opt_useCache := None;
  opt_keepCache := Some false;
  opt_githubToken := None;
  opt_force := None;
|}.
Definition this_discard : Patcher := new_Patcher Demo.windows discard_cache.

(** Linux with one instance running, [--force], and a release service
    that refuses the request. *)
Definition rate_limit : error :=
  Error "GitHub Rate Limit Exceeded. Run 'ymmp config set token <your_token>' or use --token.".
Definition linux_refused : Env := {|
  platform := linux;
  homedir := homedir Demo.linux_running;
  LOCALAPPDATA := LOCALAPPDATA Demo.linux_running;
  config_customPath := config_customPath Demo.linux_running;
  exec := exec Demo.linux_running;
  access_rw := access_rw Demo.linux_running;
  header_sha256 := header_sha256 Demo.linux_running;
  unzip := unzip Demo.linux_running;
  getLatestRelease := λ _, inl rate_limit;
  downloadStream := downloadStream Demo.linux_running;
  stream_error := stream_error Demo.linux_running;
  codesign := codesign Demo.linux_running;
|}.
Definition forced : PatcherOptions := {|
  opt_patchType := None;
  opt_customPath := None;
  opt_useCache := None;
  opt_keepCache := None;
  opt_githubToken := None;
  opt_force := Some true;
|}.
Definition this_forced : Patcher := new_Patcher linux_refused forced.

(** The temp directory holds the asset, the working file and the backup
    of the archive; the application is installed. *)
Definition full_cache : World :=
  {| fs := {[ join (tmpDir Demo.this) "app.asar.gz" := x1f :: Demo.bytes "NEW";
              join (tmpDir Demo.this) "app.asar" := Demo.bytes "NEW";
              join (tmpDir Demo.this) "app.asar.backup" := Demo.bytes "OLD";
              ymAsarPath Demo.this := Demo.bytes "NEW" ]};
     log := [] |}.

(** Windows with an installed archive that already has the header digest
    of the archive of the release, and an executable that embeds it. *)
Definition installed_same_digest : World :=
  {| fs := {[ ymAsarPath Demo.this := Demo.bytes "NE-old";
              Demo.exe := Demo.bytes "MZ..NE.." ]};
     log := [] |}.

(** The temp directory holds a file of the declared size of the compressed
    asset that is not a compressed file. *)
Definition corrupt_world : World :=
  {| fs := {[ join (tmpDir Demo.this) "app.asar.gz" := Demo.bytes "JUNK" ]};
     log := [] |}.

End Cases.

(* ===================================================================== *)
(** ** Notions used in the further statements *)
(* ===================================================================== *)

Module Notions.
Import Run.

(** The temp directory is as a successful download step of [asset] leaves
    it: the local copy of the asset is there, the working file is its
    decompression when the asset is compressed, and the copy is what the
    server sends, whole, whenever the next run will not take it from the
    cache. *)
Definition settled (env : Env) (this : Patcher) (asset : ReleaseAsset)
    (w : World) : Prop :=
  ∃ content,
    fs w !! join (tmpDir this) (asset_name asset) = Some content
    ∧ (endsWith (asset_name asset) ".gz" = true →
       ∃ decompressed,
         unzip env content = Some decompressed
         ∧ fs w !! workingPath this = Some decompressed)
    ∧ (Z.of_nat (length content) ≠ asset_size asset
       ∨ useCache (options this) = false →
       downloadStream env (browser_download_url asset)
         (githubToken (options this)) = inr content
       ∧ stream_error env (browser_download_url asset)
           (githubToken (options this)) = None).

(** Every event the computation logs, whatever its outcome, is one that
    [P] allows. *)
Definition emits_only {A} (P : event → Prop) (m : M A) : Prop :=
  ∀ w, ∃ evs, log (m w).2 = log w ++ evs ∧ Forall P evs.

(** The event starts no program. *)
Definition starts_nothing (e : event) : Prop :=
  match e with
  | EExec _ | ESpawn _ => False
  | _ => True
  end.

(** A non-empty string of decimal digits, and the number it denotes. *)
Definition is_digit (c : N) : bool := ((48 <=? c) && (c <=? 57))%N.
Definition is_decimal (s : jsstring) : bool :=
  Js.truthy s && forallb is_digit s.
Definition decimal (s : jsstring) : Z :=
  foldl (λ acc c, acc * 10 + (Z.of_N c - 48))%Z 0%Z s.

(** The output of a command that prints [rows], each ended by a line
    feed. *)
Definition lines (rows : list jsstring) : jsstring :=
  concat (map (λ row, row ++ [10%N]) rows).

(** A string with no double quote and no comma. *)
Definition is_plain (s : jsstring) : bool :=
  forallb (λ c, negb (c =? 34)%N && negb (c =? 44)%N) s.

(** The same machine with a server that answers the downloads as
    [download] and [broken] say. *)
Definition with_download (env : Env)
    (download : string → string → error + list byte)
    (broken : string → string → option error) : Env := {|
  platform := platform env;
  homedir := homedir env;
  LOCALAPPDATA := LOCALAPPDATA env;
  config_customPath := config_customPath env;
  exec := exec env;
  access_rw := access_rw env;
  header_sha256 := header_sha256 env;
  unzip := unzip env;
  getLatestRelease := getLatestRelease env;
  downloadStream := download;
  stream_error := broken;
  codesign := codesign env;
|}.

(** The same machine at a later time: the commands answer as [answers]
    says, everything else is as it was. *)
Definition with_exec (env : Env) (answers : string → option jsstring)
  : Env := {|
  platform := platform env;
  homedir := homedir env;
  LOCALAPPDATA := LOCALAPPDATA env;
  config_customPath := config_customPath env;
  exec := answers;
  access_rw := access_rw env;
  header_sha256 := header_sha256 env;
  unzip := unzip env;
  getLatestRelease := getLatestRelease env;
  downloadStream := downloadStream env;
  stream_error := stream_error env;
  codesign := codesign env;
|}.

End Notions.

(* ===================================================================== *)
(** ** The release service *)
(* ===================================================================== *)

Module Github.
Import Run.

(** What [axios.get] raises: the status of the response when there is
    one, and the message of the error. *)
Record AxiosError := {
  response_status : option Z;
  axios_message : string;
}.

Definition latest_release_url : string :=
  "https://api.github.com/repos/TheKing-OfTime/YandexMusicModClient/releases/latest".
Definition rate_limit_message : string :=
  "GitHub Rate Limit Exceeded. Run 'ymmp config set token <your_token>' or use --token.".
Definition release_not_found_message : string :=
  "Release not found. The repository might be private or changed.".

Section Service.
(** The token of the configuration file and the one of the environment,
    empty when there is none, and the two kinds of request. *)
Variable config_githubToken : string.
Variable GITHUB_TOKEN : string.
Variable axios_get :
  string → list (string * string) → AxiosError + ReleaseMetadata.
Variable axios_get_stream :
  string → list (string * string) → error + list byte.
Variable axios_stream_error :
  string → list (string * string) → option error.

Definition getHeaders (tokenOverride : string) : list (string * string) :=
  let token :=
    or_else tokenOverride (or_else config_githubToken GITHUB_TOKEN) in
  [("User-Agent", "YMMP-CLI/1.0.0");
   ("Accept", "application/vnd.github.v3+json")]
  ++ if decide (token = "") then []
     else [("Authorization", "token " +:+ token)].

(** An error that is thrown again is kept as an error with its message. *)
Definition getLatestRelease (tokenOverride : string)
  : error + ReleaseMetadata :=
  match axios_get latest_release_url (getHeaders tokenOverride) with
  | inr data => inr data
  | inl error =>
    if decide (response_status error = Some 403%Z)
    then inl (Error rate_limit_message)
    else if decide (response_status error = Some 404%Z)
    then inl (Error release_not_found_message)
    else inl (Error (axios_message error))
  end.

Definition downloadStream (url tokenOverride : string) : error + list byte :=
  axios_get_stream url (getHeaders tokenOverride).

Definition stream_error (url tokenOverride : string) : option error :=
  axios_stream_error url (getHeaders tokenOverride).

(** The machine [env] with this service for its releases. *)
Definition served (env : Env) : Env := {|
  platform := platform env;
  homedir := homedir env;
  LOCALAPPDATA := LOCALAPPDATA env;
  config_customPath := config_customPath env;
  exec := exec env;
  access_rw := access_rw env;
  header_sha256 := header_sha256 env;
  unzip := unzip env;
  Run.getLatestRelease := getLatestRelease;
  Run.downloadStream := downloadStream;
  Run.stream_error := stream_error;
  codesign := codesign env;
|}.

End Service.
End Github.

(* ===================================================================== *)
(** ** The command line *)
(* ===================================================================== *)

Module Cli.
Import Run.

(** What the command shows and does besides running the patcher; the
    colours and the texts the patcher puts on the spinner while it runs
    are left out. *)
Inductive output :=
| SpinnerStart
| SpinnerSucceed (text : string)
| SpinnerFail (text : string)
| ConsoleLog (text : string)
| LoggerError (text : string)
| Exit (code : Z).

Fixpoint startsWith (s searchString : string) : bool :=
  match searchString, s with
  | EmptyString, _ => true
  | String _ _, EmptyString => false
  | String x searchString', String y s' =>
    Ascii.eqb x y && startsWith s' searchString'
  end.

(** [s.includes(searchString)]. *)
Fixpoint includes (s searchString : string) : bool :=
  startsWith s searchString
  || match s with
     | EmptyString => false
     | String _ rest => includes rest searchString
     end.

Definition line_feed : string := String (ascii_of_nat 10) EmptyString.

(** [error.message || String(error)]: the errors the patcher makes carry
    their message; [describe] gives the text of the others. *)
Definition failure_text (describe : error → string) (e : error) : string :=
  match e with
  | Error message => or_else message "Error"
  | _ => describe e
  end.

(** The handler of the command [patch], lines 67-83 of [index.ts]. *)
Definition patch_failed (msg : string) : list output :=
  SpinnerFail "Patch failed"
  :: (if includes msg "Rate Limit" || includes msg "403" then
        [ConsoleLog (line_feed +:+ "GitHub Rate Limit Reached.");
         ConsoleLog "Fix it permanently:";
         ConsoleLog "  ymmp config set token YOUR_TOKEN_HERE"]
      else if includes msg "Yandex Music is running" then
        [ConsoleLog
           (line_feed
            +:+ "App is running. Use --force to close it automatically.")]
      else [LoggerError msg])
  ++ [Exit 1].

(** The command [patch], lines 51-85 of [index.ts], on the options the
    command line gave; [None] when the run never ends. *)
Definition patch_command (env : Env) (describe : error → string)
    (o : PatcherOptions) (w : World) : option (list output) * World :=
  let patcher := new_Patcher env o in
  match patch env patcher w with
  | (Ret _, w') =>
    (Some [SpinnerStart; SpinnerSucceed "Patch completed successfully!"], w')
  | (Throw e, w') =>
    (Some (SpinnerStart :: patch_failed (failure_text describe e)), w')
  | (Hang, w') => (None, w')
  end.

End Cli.

(** Concrete cases for the command. *)
Module Scenes.
Import Run.

(** Windows, with the application looked for under a custom path. *)
Definition custom_path : PatcherOptions := {|
  opt_patchType := None;
  opt_customPath := Some "C:/Apps403/YandexMusic";
  opt_useCache := None;
  opt_keepCache := None;
  opt_githubToken := None;
  opt_force := None;
|}.

(** Linux with one instance running, and a release service whose every
    request is answered by the status 403. *)
Definition forbidden : Github.AxiosError :=
  {| Github.response_status := Some 403%Z;
     Github.axios_message := "Request failed with status code 403" |}.
Definition linux_forbidden : Env :=
  Github.served "" "" (λ _ _, inl forbidden) (λ _ _, inl (Error "unreachable"))
    (λ _ _, None) Demo.linux_running.

(** The texts of the errors of Node are of no matter here. *)
Definition describe (e : error) : string := "".

End Scenes.

(* ===================================================================== *)
(** * Facts about lists *)
(* ===================================================================== *)

Module ListFacts.

Lemma filter_none {A} (P : A → Prop) `{∀ x, Decision (P x)} (l : list A) :
  (∀ x, x ∈ l → ¬ P x) → filter P l = [].
Proof.
  induction l as [|x l IH]; intros Hnone; [done|].
  rewrite filter_cons_False by (apply Hnone; left).
  apply IH. intros y Hy. apply Hnone. by right.
Qed.

Lemma filter_seq_skip (P : nat → Prop) `{∀ x, Decision (P x)} (a n a' : nat) :
  a ≤ a' ≤ a + n → (∀ j, a ≤ j < a' → ¬ P j) →
  filter P (seq a n) = filter P (seq a' (a + n - a')).
Proof.
  intros Ha Hnone.
  replace n with ((a' - a) + (a + n - a')) at 1 by lia.
  rewrite seq_app, filter_app.
  replace (a + (a' - a)) with a' by lia.
  rewrite (filter_none P (seq a (a' - a))); [done|].
  intros j Hj%elem_of_seq. apply Hnone. lia.
Qed.

Lemma filter_seq_none (P : nat → Prop) `{∀ x, Decision (P x)} (a n : nat) :
  (∀ j, a ≤ j → ¬ P j) → filter P (seq a n) = [].
Proof.
  intros Hnone. apply filter_none.
  intros j Hj%elem_of_seq. apply Hnone. lia.
Qed.

End ListFacts.

(* ===================================================================== *)
(** * Facts about buffers *)
(* ===================================================================== *)

Module BufFacts.
Import Buf ListFacts.

Lemma starts_with_take (value hay : list byte) :
  starts_with value hay = true ↔ take (length value) hay = value.
Proof.
  revert hay. induction value as [|x value IH]; intros [|y hay]; simpl.
  - done.
  - done.
  - split; discriminate.
  - rewrite andb_true_iff, IH. split.
    + intros [Hxy Hv]. apply Byte.byte_dec_bl in Hxy. congruence.
    + intros [= -> Hv]. split; [|done].
      by apply Byte.byte_dec_lb.
Qed.

Lemma starts_with_length (value hay : list byte) :
  starts_with value hay = true → length value ≤ length hay.
Proof.
  rewrite starts_with_take. intros H.
  rewrite <- H at 1. rewrite length_take. lia.
Qed.

Lemma occurs_at_starts_with (value buf : list byte) (p : nat) :
  occurs_at value buf p ↔ starts_with value (drop p buf) = true.
Proof. unfold occurs_at. by rewrite starts_with_take. Qed.

Lemma occurs_at_bound (value buf : list byte) (p : nat) :
  occurs_at value buf p → value ≠ [] → p + length value ≤ length buf.
Proof.
  intros H Hne. apply occurs_at_starts_with, starts_with_length in H.
  rewrite length_drop in H. destruct value; [done|]. simpl in *. lia.
Qed.

Lemma find_from_Some (value hay : list byte) (pos i : nat) :
  find_from value hay pos = Some i →
  pos ≤ i ≤ pos + length hay
  ∧ starts_with value (drop (i - pos) hay) = true
  ∧ ∀ j, j < i - pos → starts_with value (drop j hay) = false.
Proof.
  revert pos. induction hay as [|y hay IH]; intros pos; simpl.
  - destruct (starts_with value []) eqn:E; [|done].
    intros [= <-]. rewrite Nat.sub_diag. simpl. repeat split; [lia..|done|lia].
  - destruct (starts_with value (y :: hay)) eqn:E.
    + intros [= <-]. rewrite Nat.sub_diag. simpl.
      repeat split; [lia..|done|lia].
    + intros H. apply IH in H as (Hle & Hs & Hfirst).
      replace (i - pos) with (S (i - S pos)) by lia. simpl.
      repeat split; [lia..|done|].
      intros [|j] Hj; simpl; [done|]. apply Hfirst. lia.
Qed.

Lemma find_from_None (value hay : list byte) (pos j : nat) :
  find_from value hay pos = None → starts_with value (drop j hay) = false.
Proof.
  revert pos j. induction hay as [|y hay IH]; intros pos j; simpl.
  - destruct (starts_with value []) eqn:E; [done|]. by rewrite drop_nil.
  - destruct (starts_with value (y :: hay)) eqn:E; [done|].
    intros H. destruct j as [|j]; simpl; [done|]. by eapply IH.
Qed.

Lemma indexOf_Some (buf value : list byte) (offset i : nat) :
  value ≠ [] →
  indexOf buf value offset = Some i →
  offset ≤ i ∧ i + length value ≤ length buf
  ∧ occurs_at value buf i
  ∧ ∀ j, offset ≤ j < i → ¬ occurs_at value buf j.
Proof.
  intros Hne. unfold indexOf. destruct (decide (length buf < offset)).
  { by destruct value. }
  intros (Hle & Hs & Hfirst)%find_from_Some.
  rewrite drop_drop in Hs.
  replace (offset + (i - offset)) with i in Hs by lia.
  apply occurs_at_starts_with in Hs.
  repeat split; [lia|by apply occurs_at_bound|done|].
  intros j Hj Hocc. apply occurs_at_starts_with in Hocc.
  specialize (Hfirst (j - offset)). rewrite drop_drop in Hfirst.
  replace (offset + (j - offset)) with j in Hfirst by lia.
  rewrite Hfirst in Hocc; [done|lia].
Qed.

Lemma indexOf_None (buf value : list byte) (offset j : nat) :
  indexOf buf value offset = None → offset ≤ j → ¬ occurs_at value buf j.
Proof.
  unfold indexOf. destruct (decide (length buf < offset)).
  - destruct value as [|x value]; [done|]. intros _ Hj Hocc.
    apply occurs_at_bound in Hocc; [|done]. lia.
  - intros H Hj Hocc. apply occurs_at_starts_with in Hocc.
    apply find_from_None with (j := j - offset) in H.
    rewrite drop_drop in H.
    replace (offset + (j - offset)) with j in H by lia. congruence.
Qed.

Lemma copy_length (source target : list byte) (start : nat) :
  length (copy source target start) = length target.
Proof.
  unfold copy. rewrite !length_app, !length_take, length_drop. lia.
Qed.

Lemma copy_lookup_lt (source target : list byte) (start i : nat) :
  i < start → copy source target start !! i = target !! i.
Proof.
  intros Hi. unfold copy.
  destruct (decide (i < length target)).
  - rewrite lookup_app_l by (rewrite length_take; lia).
    by rewrite lookup_take_lt.
  - rewrite (lookup_ge_None_2 target) by lia.
    apply lookup_ge_None_2.
    rewrite !length_app, !length_take, length_drop. lia.
Qed.

Lemma copy_lookup_in (source target : list byte) (start i : nat) :
  start ≤ i < start + length source →
  start + length source ≤ length target →
  copy source target start !! i = source !! (i - start).
Proof.
  intros Hi Hfit. unfold copy.
  rewrite lookup_app_r by (rewrite length_take; lia).
  rewrite length_take, Nat.min_l by lia.
  rewrite lookup_app_l by (rewrite length_take; lia).
  rewrite lookup_take_lt by lia. done.
Qed.

Lemma copy_lookup_ge (source target : list byte) (start i : nat) :
  start + length source ≤ i →
  start + length source ≤ length target →
  copy source target start !! i = target !! i.
Proof.
  intros Hi Hfit. unfold copy.
  rewrite lookup_app_r by (rewrite length_take; lia).
  rewrite length_take, Nat.min_l by lia.
  rewrite lookup_app_r by (rewrite length_take; lia).
  rewrite length_take, Nat.min_r by lia.
  rewrite lookup_drop. f_equal. lia.
Qed.

Lemma occurs_at_lookup (value buf : list byte) (p : nat) :
  occurs_at value buf p ↔ ∀ k, k < length value → buf !! (p + k) = value !! k.
Proof.
  unfold occurs_at. split.
  - intros H k Hk. rewrite <- H at 1.
    by rewrite lookup_take_lt, lookup_drop.
  - intros H. apply list_eq. intros k.
    destruct (decide (k < length value)).
    + rewrite lookup_take_lt, lookup_drop by done. by apply H.
    + rewrite lookup_take_ge by lia. symmetry. apply lookup_ge_None_2. lia.
Qed.

Lemma occurs_at_agree (value buf cur : list byte) (offset p : nat) :
  (∀ i, offset ≤ i → cur !! i = buf !! i) → offset ≤ p →
  occurs_at value cur p ↔ occurs_at value buf p.
Proof.
  intros Hagree Hp. rewrite !occurs_at_lookup.
  split; intros H k Hk; [rewrite <- Hagree by lia|rewrite Hagree by lia];
    by apply H.
Qed.

Lemma occurs_at_occurrences (value buf : list byte) (p : nat) :
  value ≠ [] → occurs_at value buf p → p ∈ occurrences value buf.
Proof.
  intros Hne Hp. unfold occurrences. apply list_elem_of_filter. split.
  - by apply occurs_at_starts_with.
  - apply occurs_at_bound in Hp; [|done]. apply elem_of_seq. lia.
Qed.

Lemma occurrences_nil_absent (value buf : list byte) :
  value ≠ [] → occurrences value buf = [] → ∀ p, ¬ occurs_at value buf p.
Proof.
  intros Hne Hnil p Hp. apply (occurs_at_occurrences _ _ _ Hne) in Hp.
  rewrite Hnil in Hp. by apply not_elem_of_nil in Hp.
Qed.

Lemma disjointb_sound (value buf : list byte) :
  disjointb value buf = true → disjoint_occurrences value buf.
Proof.
  intros Hb p q Hp Hq Hpq.
  destruct value as [|x value]; [simpl; lia|].
  unfold disjointb in Hb. rewrite forallb_forall in Hb.
  apply occurs_at_occurrences, list_elem_of_In in Hp; [|done].
  apply occurs_at_occurrences, list_elem_of_In in Hq; [|done].
  specialize (Hb p Hp). rewrite forallb_forall in Hb. specialize (Hb q Hq).
  apply orb_true_iff in Hb as [Hb|Hb].
  - apply Nat.leb_le in Hb. lia.
  - by apply Nat.leb_le in Hb.
Qed.

Section ScanCorrect.
Variables oldBuf newBuf buf : list byte.
Hypothesis Hlen : length oldBuf = length newBuf.
Hypothesis Hne : oldBuf ≠ [].
Hypothesis Hdisj : disjoint_occurrences oldBuf buf.

Let occ (p : nat) : Prop := starts_with oldBuf (drop p buf) = true.

(** The invariant of the loop at [(cur, offset)]: [cur] is [buf] from
    [offset] on; below [offset] every occurrence has been overwritten and
    the other bytes are those of [buf]; no occurrence straddles [offset]. *)
Lemma scan_invariant (fuel : nat) (cur : list byte) (offset : nat) :
  length buf - offset < fuel →
  offset ≤ length buf →
  length cur = length buf →
  (∀ i, offset ≤ i → cur !! i = buf !! i) →
  (∀ i p, i < offset → covered oldBuf buf i p → cur !! i = newBuf !! (i - p)) →
  (∀ i, i < offset → (∀ p, ¬ covered oldBuf buf i p) → cur !! i = buf !! i) →
  (∀ p, occurs_at oldBuf buf p → p + length oldBuf ≤ offset ∨ offset ≤ p) →
  ∃ out hits,
    scan fuel oldBuf newBuf cur offset = Some (out, hits)
    ∧ length out = length buf
    ∧ (∀ i p, covered oldBuf buf i p → out !! i = newBuf !! (i - p))
    ∧ (∀ i, (∀ p, ¬ covered oldBuf buf i p) → out !! i = buf !! i)
    ∧ hits = filter occ (seq offset (S (length buf) - offset)).
Proof.
  assert (HL : 0 < length oldBuf) by (destruct oldBuf; [done|simpl; lia]).
  revert cur offset.
  induction fuel as [|fuel IH];
    intros cur offset Hfuel Hoff Hcur Htail Hnew Hold Hcut; [lia|].
  simpl. unfold scan_step. simpl.
  destruct (indexOf cur oldBuf offset) as [idx|] eqn:Hidx.
  - apply indexOf_Some in Hidx as (Hge & Hfit & Hocc & Hfirst); [|done].
    rewrite Hcur in Hfit.
    assert (Hocc' : occurs_at oldBuf buf idx)
      by (by apply (occurs_at_agree _ _ cur offset)).
    assert (Hfirst' : ∀ j, offset ≤ j < idx → ¬ occurs_at oldBuf buf j).
    { intros j Hj Hj'. apply (Hfirst j Hj).
      apply (occurs_at_agree _ buf cur offset); [done|lia|done]. }
    destruct (IH (copy newBuf cur idx) (idx + length oldBuf))
      as (out & hits & Hscan & Hout & Hin & Hrest & Hhits).
    + lia.
    + lia.
    + by rewrite copy_length.
    + intros i Hi. rewrite copy_lookup_ge by lia. apply Htail. lia.
    + intros i p Hi [Hp Hip].
      destruct (decide (i < offset)) as [Hlt|Hnlt].
      { rewrite copy_lookup_lt by lia. by apply Hnew. }
      destruct (Hcut p Hp) as [?|Hpo]; [lia|].
      destruct (decide (p < idx)) as [Hpi|Hpi].
      { destruct (decide (i < idx)).
        - exfalso. apply (Hfirst' p); [lia|done].
        - exfalso. apply (Hfirst' p); [lia|done]. }
      destruct (decide (p = idx)) as [->|Hneq].
      { rewrite copy_lookup_in by lia. done. }
      exfalso. pose proof (Hdisj idx p Hocc' Hp). lia.
    + intros i Hi Hnc.
      destruct (decide (i < offset)) as [Hlt|Hnlt].
      { rewrite copy_lookup_lt by lia. by apply Hold. }
      destruct (decide (i < idx)) as [Hlt|Hge'].
      { rewrite copy_lookup_lt by lia. apply Htail. lia. }
      exfalso. apply (Hnc idx). split; [done|lia].
    + intros p Hp.
      destruct (decide (p < idx)) as [Hpi|Hpi].
      { left. pose proof (Hdisj p idx Hp Hocc'). lia. }
      destruct (decide (p = idx)) as [->|Hneq]; [left; lia|].
      right. pose proof (Hdisj idx p Hocc' Hp). lia.
    + exists out, ((idx + length oldBuf - length oldBuf) :: hits).
      rewrite Hscan. repeat split; [done..|].
      replace (idx + length oldBuf - length oldBuf) with idx by lia.
      rewrite (filter_seq_skip occ offset _ idx); [|lia|].
      2:{ intros j Hj Hj'. apply (Hfirst' j Hj).
          by apply occurs_at_starts_with. }
      replace (offset + (S (length buf) - offset) - idx)
        with (S (length buf - idx)) by lia.
      simpl. rewrite filter_cons_True by (by apply occurs_at_starts_with).
      f_equal. rewrite Hhits.
      rewrite (filter_seq_skip occ (S idx) _ (idx + length oldBuf)); [|lia|].
      * f_equal. f_equal. lia.
      * intros j Hj Hj'. apply occurs_at_starts_with in Hj'.
        pose proof (Hdisj idx j Hocc' Hj'). lia.
  - exists cur, []. repeat split; [done| |..].
    + intros i p [Hp Hip].
      destruct (Hcut p Hp) as [?|Hpo].
      * apply Hnew; [lia|done].
      * exfalso. apply (indexOf_None _ _ _ p Hidx Hpo).
        by apply (occurs_at_agree _ buf cur offset).
    + intros i Hnc. destruct (decide (i < offset)); [by apply Hold|].
      apply Htail. lia.
    + symmetry. apply filter_seq_none. intros j Hj Hj'.
      apply occurs_at_starts_with in Hj'.
      apply (indexOf_None _ _ _ j Hidx Hj).
      by apply (occurs_at_agree _ buf cur offset).
Qed.

(** From the start of the loop: the buffer it leaves and the indices it
    patched. *)
Lemma scan_replaces_all :
  ∃ out,
    scan (S (length buf)) oldBuf newBuf buf 0
      = Some (out, occurrences oldBuf buf)
    ∧ length out = length buf
    ∧ (∀ p, occurs_at oldBuf buf p → occurs_at newBuf out p)
    ∧ (∀ i, (∀ p, ¬ covered oldBuf buf i p) → out !! i = buf !! i).
Proof.
  destruct (scan_invariant (S (length buf)) buf 0)
    as (out & hits & Hscan & Hout & Hin & Hrest & Hhits);
    [lia|lia|done|done|lia|lia|intros; lia|].
  exists out. rewrite Hscan, Hhits, Nat.sub_0_r.
  repeat split; [done| |done].
  intros p Hp. apply occurs_at_lookup. intros k Hk.
  rewrite (Hin (p + k) p) by (split; [done|lia]).
  f_equal. lia.
Qed.

End ScanCorrect.

Lemma scan_no_match (fuel : nat) (oldBuf newBuf cur : list byte)
    (offset : nat) :
  indexOf cur oldBuf offset = None →
  scan (S fuel) oldBuf newBuf cur offset = Some (cur, []).
Proof. intros H. simpl. unfold scan_step. simpl. by rewrite H. Qed.

Lemma scan_step_progress (oldBuf newBuf cur cur' : list byte)
    (offset offset' : nat) :
  oldBuf ≠ [] →
  scan_step oldBuf newBuf (cur, offset) = Some (cur', offset') →
  offset + length oldBuf ≤ offset'
  ∧ offset' ≤ length cur'
  ∧ length cur' = length cur.
Proof.
  intros Hne. unfold scan_step. simpl.
  destruct (indexOf cur oldBuf offset) as [idx|] eqn:Hidx; [|done].
  intros [= <- <-]. apply indexOf_Some in Hidx as (? & ? & _); [|done].
  rewrite copy_length. lia.
Qed.

Lemma scan_fuel_enough (oldBuf newBuf : list byte) (fuel : nat)
    (cur : list byte) (offset : nat) :
  oldBuf ≠ [] → length cur - offset < fuel →
  is_Some (scan fuel oldBuf newBuf cur offset).
Proof.
  intros Hne. revert cur offset.
  induction fuel as [|fuel IH]; intros cur offset Hfuel; [lia|].
  simpl. destruct (scan_step oldBuf newBuf (cur, offset)) as [[cur' offset']|]
    eqn:Hstep; [|done].
  apply scan_step_progress in Hstep as (Hadv & Hend & Hsame); [|done].
  assert (0 < length oldBuf) by (destruct oldBuf; [done|simpl; lia]).
  destruct (IH cur' offset') as [[out hits] ->]; [lia|done].
Qed.

(** With an empty [oldBuf] the loop finds a match at every turn and never
    moves on: no number of turns reaches [break]. *)
Lemma scan_empty_diverges (newBuf : list byte) (fuel : nat) (cur : list byte)
    (offset : nat) :
  scan fuel [] newBuf cur offset = None.
Proof.
  revert cur offset. induction fuel as [|fuel IH]; intros cur offset; [done|].
  simpl. unfold scan_step, indexOf. simpl.
  destruct (decide (length cur < offset)); [by rewrite IH|].
  destruct (drop offset cur); simpl; by rewrite IH.
Qed.

(** C10. For a non-empty old digest, every turn of the replacement loop of
    [bypassIntegrityWin] either leaves the loop or moves the search offset
    forward by at least the length of the digest while staying inside the
    buffer, and the loop ends: any number of turns above the distance from
    the offset to the end of the buffer reaches [break], in particular the
    run from offset 0. *)
Theorem scan_loop_terminates (oldBuf newBuf fileBuffer : list byte)
    (offset : nat) :
  oldBuf ≠ [] →
  (∀ cur off,
     match scan_step oldBuf newBuf (cur, off) with
     | None => True
     | Some (cur', off') =>
       off + length oldBuf ≤ off' ∧ off < off' ≤ length cur'
       ∧ length cur' = length cur
     end)
  ∧ (∀ fuel, length fileBuffer - offset < fuel →
       is_Some (scan fuel oldBuf newBuf fileBuffer offset))
  ∧ is_Some (scan (S (length fileBuffer)) oldBuf newBuf fileBuffer 0).
Proof.
  intros Hne.
  assert (0 < length oldBuf) by (destruct oldBuf; [done|simpl; lia]).
  split; [|split].
  - intros cur off.
    destruct (scan_step oldBuf newBuf (cur, off)) as [[cur' off']|] eqn:Hstep;
      [|done].
    apply scan_step_progress in Hstep; [|done]. lia.
  - intros fuel Hfuel. by apply scan_fuel_enough.
  - apply scan_fuel_enough; [done|lia].
Qed.

Lemma scan_loop_terminates_witness :
  is_Some (scan 8 [x61; x62] [x58; x59] [x61; x62; x63; x61; x62; x61; x62] 0).
Proof.
  apply (scan_loop_terminates [x61; x62] [x58; x59]
           [x61; x62; x63; x61; x62; x61; x62] 0); done.
Defined.

End BufFacts.

(* ===================================================================== *)
(** * The model at work *)
(* ===================================================================== *)

Module Examples.
Import Buf Js Run.

Example indexOf_found :
  indexOf (Demo.bytes "abcabab") (Demo.bytes "ab") 1 = Some 3.
Proof. reflexivity. Qed.

Example indexOf_absent :
  indexOf (Demo.bytes "abcabab") (Demo.bytes "abd") 0 = None.
Proof. reflexivity. Qed.

Example indexOf_empty_value :
  indexOf (Demo.bytes "abc") [] 1 = Some 1
  ∧ indexOf (Demo.bytes "abc") [] 7 = Some 3.
Proof. split; reflexivity. Qed.

Example copy_in_place :
  copy (Demo.bytes "XY") (Demo.bytes "abcd") 1 = Demo.bytes "aXYd".
Proof. reflexivity. Qed.

Example copy_truncated :
  copy (Demo.bytes "XYZ") (Demo.bytes "abcd") 2 = Demo.bytes "abXY".
Proof. reflexivity. Qed.

Example scan_three_hits :
  scan 8 (Demo.bytes "ab") (Demo.bytes "XY") (Demo.bytes "abcabab") 0
  = Some (Demo.bytes "XYcXYXY", [0; 3; 5]).
Proof. reflexivity. Qed.

(** Overlapping occurrences: the scan takes the leftmost and skips the one
    that overlaps it. *)
Example scan_overlap :
  scan 4 (Demo.bytes "aa") (Demo.bytes "XY") (Demo.bytes "aaa") 0
  = Some (Demo.bytes "XYa", [0])
  ∧ occurrences (Demo.bytes "aa") (Demo.bytes "aaa") = [0; 1].
Proof. split; reflexivity. Qed.

Example from_ascii_low_byte :
  from_ascii [97; 321; 255]%N = [x61; x41; xff].
Proof. reflexivity. Qed.

Example parseInt_samples :
  map parseInt [lit "1234"; lit "  42abc"; lit "-7"; lit "0x1F"; lit "abc";
                lit ""; lit "+7.5"; lit "0"]
  = [Num 1234; Num 42; Num (-7); Num 31; NaN; NaN; Num 7; Num 0].
Proof. reflexivity. Qed.

Example split_samples :
  split (lit "a,b,,c") (lit ",") = [lit "a"; lit "b"; []; lit "c"]
  ∧ split [] (lit ",") = [[]]
  ∧ split (lit "12" ++ [10%N] ++ lit "34" ++ [10%N]) [10%N]
    = [lit "12"; lit "34"; []].
Proof. split_and!; reflexivity. Qed.

Example tasklist_parsed :
  parse_processes Demo.windows (Demo.tasklist_row ++ [10%N]) = [Num 1234]
  ∧ parse_processes Demo.windows Demo.tasklist_nothing = [].
Proof. split; reflexivity. Qed.

Example pgrep_parsed :
  parse_processes Demo.linux_running
    (lit "1234" ++ [10%N] ++ lit "oops" ++ [10%N] ++ lit "-5" ++ [10%N]
       ++ lit "77" ++ [10%N])
  = [Num 1234; Num 77].
Proof. reflexivity. Qed.

Example paths_of_the_instance :
  ymAsarPath Demo.this
    = "C:/Users/u/AppData/Local/Programs/YandexMusic/resources/app.asar"
  ∧ tmpDir Demo.this = "C:/Users/u/.ymmp-cache/temp"
  ∧ backupPath Demo.this = "C:/Users/u/.ymmp-cache/temp/app.asar.backup"
  ∧ ymAsarPath Demo.this_devtools = "/opt/Яндекс Музыка/resources/app.asar"
  ∧ ymExePath Demo.this_devtools = None.
Proof. split_and!; reflexivity. Qed.

(** A whole run on Windows: the compressed asset is fetched and
    decompressed, the archive is backed up and replaced, and both copies of
    the old digest in the executable become the new one, the executable
    keeping its length. *)
Example patch_on_windows :
  let w' := (patch Demo.windows Demo.this Demo.installed_windows).2 in
  (patch Demo.windows Demo.this Demo.installed_windows).1 = Ret tt
  ∧ fs w' !! ymAsarPath Demo.this = Some (Demo.bytes "NEW")
  ∧ fs w' !! backupPath Demo.this = Some (Demo.bytes "OLD")
  ∧ fs w' !! Demo.exe = Some (Demo.bytes "MZ..NE....NE..")
  ∧ fs w' !! (Demo.exe +:+ ".backup") = Some (Demo.bytes "MZ..OL....OL..")
  ∧ log w'
    = [EExec (enumeration_command Demo.windows);
       EFetchRelease "";
       EDownload "https://example.org/gz" "";
       EWriteFile (join (tmpDir Demo.this) "app.asar.gz");
       EWriteFile (workingPath Demo.this);
       ECopyFile (ymAsarPath Demo.this) (backupPath Demo.this);
       ECopyFile (workingPath Demo.this) (ymAsarPath Demo.this);
       ECopyFile Demo.exe (Demo.exe +:+ ".backup");
       EWriteFile Demo.exe].
Proof. vm_compute. split_and!; reflexivity. Qed.

(** [parseInt] gives Numbers: past 2^53 the nearest one, and the positive
    infinity for a run of 400 digits. *)
Example parseInt_rounds :
  parseInt (lit "9007199254740993") = Num 9007199254740992
  ∧ parseInt (lit "9007199254740995") = Num 9007199254740996
  ∧ parseInt (replicate 400 57%N) = PosInfinity
  ∧ parseInt (45%N :: replicate 400 57%N) = NegInfinity.
Proof. vm_compute. split_and!; reflexivity. Qed.

(** A run on macOS: the archive is replaced, and the signing tool leaves
    its seal in the bundle. *)
Example patch_on_macos :
  let w' := (patch Cases.mac Cases.this_mac Cases.installed_mac).2 in
  (patch Cases.mac Cases.this_mac Cases.installed_mac).1 = Ret tt
  ∧ fs w' !! ymAsarPath Cases.this_mac = Some (Demo.bytes "NEW")
  ∧ fs w' !! backupPath Cases.this_mac = Some (Demo.bytes "OLD")
  ∧ fs w' !! (ymPath Cases.this_mac
              +:+ "/Contents/_CodeSignature/CodeResources")
    = Some (Demo.bytes "SEAL").
Proof. vm_compute. split_and!; reflexivity. Qed.

(** A download that breaks: the error of the stream is thrown and the
    local copy holds the two bytes that had arrived. *)
Example download_breaks :
  let r := downloadModFiles Cases.windows_broken Demo.this Demo.release
             Cases.empty_world in
  r.1 = Throw (Error "aborted")
  ∧ fs r.2 !! join (tmpDir Demo.this) "app.asar.gz" = Some [x1f; x4e]
  ∧ fs r.2 !! workingPath Demo.this = None.
Proof. vm_compute. split_and!; reflexivity. Qed.

End Examples.

(* ===================================================================== *)
(** * Facts about strings and paths *)
(* ===================================================================== *)

Module StringFacts.
Import Run.

Lemma length_append (a c : string) :
  String.length (a +:+ c) = String.length a + String.length c.
Proof. induction a as [|x a IH]; simpl; [done|]. by rewrite IH. Qed.

Lemma append_assoc (a c d : string) : (a +:+ c) +:+ d = a +:+ c +:+ d.
Proof.
  induction a as [|x a IH]; [done|].
  change (String x ((a +:+ c) +:+ d) = String x (a +:+ c +:+ d)).
  by rewrite IH.
Qed.

Lemma append_ne_self (a c : string) : c ≠ "" → a ≠ a +:+ c.
Proof.
  intros Hc Heq. apply (f_equal String.length) in Heq.
  rewrite length_append in Heq. destruct c; [done|]. simpl in Heq. lia.
Qed.

Lemma append_nonempty_r (a c : string) : c ≠ "" → a +:+ c ≠ "".
Proof.
  intros Hc Heq. apply (f_equal String.length) in Heq.
  rewrite length_append in Heq. destruct c; [done|]. simpl in Heq. lia.
Qed.

Lemma append_suffix_inj (a a' c c' : string) :
  String.length c = String.length c' → a +:+ c = a' +:+ c' → c = c'.
Proof.
  revert a'. induction a as [|x a IH]; intros [|x' a'] Hlen Heq; simpl in *.
  - done.
  - apply (f_equal String.length) in Heq.
    rewrite !length_append in Heq. simpl in Heq. lia.
  - apply (f_equal String.length) in Heq.
    rewrite !length_append in Heq. simpl in Heq. lia.
  - injection Heq as _ Heq. by eapply IH.
Qed.

Lemma append_suffix_ne (m m' c c' a a' s s' : string) :
  s = m +:+ c → s' = m' +:+ c' →
  String.length c = String.length c' → c ≠ c' →
  a +:+ s ≠ a' +:+ s'.
Proof.
  intros -> -> Hlen Hne Heq. rewrite <- !append_assoc in Heq.
  by apply append_suffix_inj in Heq.
Qed.

Lemma strip_prefix_append (pre s : string) :
  strip_prefix pre (pre +:+ s) = Some s.
Proof.
  induction pre as [|x pre IH]; simpl; [by destruct s|].
  by rewrite Ascii.eqb_refl.
Qed.

Lemma backup_path_fresh (exe : string) : exe +:+ ".backup" ≠ exe.
Proof. intros Heq. by apply (append_ne_self exe ".backup"). Qed.

Lemma join_nonempty (a c : string) :
  a ≠ "" → c ≠ "" → join a c = a +:+ "/" +:+ c.
Proof. intros Ha Hc. unfold join. by rewrite !decide_False. Qed.

Lemma join_suffix (a c : string) : c ≠ "" → ∃ pre, join a c = pre +:+ c.
Proof.
  intros Hc. unfold join. destruct (decide (a = "")); [by exists ""|].
  rewrite decide_False by done. exists (a +:+ "/"). by rewrite append_assoc.
Qed.

Lemma join_inj_r (dir a c : string) :
  a ≠ "" → c ≠ "" → join dir a = join dir c → a = c.
Proof.
  intros Ha Hc. unfold join.
  destruct (decide (dir = "")); [done|].
  rewrite !decide_False by done.
  intros H. apply (inj (String.append dir)) in H.
  by apply (inj (String.append "/")) in H.
Qed.

End StringFacts.

(* ===================================================================== *)
(** * Facts about the monad of a run *)
(* ===================================================================== *)

Module MonadFacts.
Import Run.

Ltac munfold :=
  unfold mbind, M_bind, mret, M_ret, throw, hang, emit, when, existsSync,
    readFile, writeFile, copyFile, stat_size, unlink in *;
  simpl in *.

Lemma bind_run {A B} (m : M A) (f : A → M B) (w : World) :
  (m ≫= f) w =
  match m w with
  | (Ret a, w1) => f a w1
  | (Throw e, w1) => (Throw e, w1)
  | (Hang, w1) => (Hang, w1)
  end.
Proof. reflexivity. Qed.

Lemma events_since_app (w w' : World) (evs : list event) :
  log w' = log w ++ evs → events_since w w' = evs.
Proof. intros H. unfold events_since. rewrite H. apply drop_app_length. Qed.

Lemma events_since_refl (w : World) : events_since w w = [].
Proof. apply events_since_app. by rewrite app_nil_r. Qed.

Lemma count_writes_app (path : string) (evs evs' : list event) :
  count_writes path (evs ++ evs')
  = count_writes path evs + count_writes path evs'.
Proof. unfold count_writes. by rewrite filter_app, length_app. Qed.

(** ** Computations that spare a file *)

Section Spares.
Context {A B : Type} (path : string).

Lemma spares_still (m : M A) : (∀ w, (m w).2 = w) → spares path m.
Proof.
  intros H w. rewrite H. split; [done|]. exists []. by rewrite app_nil_r.
Qed.

Lemma spares_ret (a : A) : spares path (mret a).
Proof. by apply spares_still. Qed.

Lemma spares_throw (e : error) : spares path (throw e : M A).
Proof. by apply spares_still. Qed.

Lemma spares_hang : spares path (hang : M A).
Proof. by apply spares_still. Qed.

Lemma spares_bind (m : M A) (f : A → M B) :
  spares path m → (∀ a, spares path (f a)) → spares path (m ≫= f).
Proof.
  intros Hm Hf w. rewrite bind_run. specialize (Hm w).
  destruct (m w) as [[a|e|] w1]; simpl in *; [|done..].
  destruct Hm as (Hfs & evs & Hlog & Hc).
  destruct (Hf a w1) as (Hfs' & evs' & Hlog' & Hc').
  split; [congruence|]. exists (evs ++ evs').
  rewrite Hlog', Hlog, <- app_assoc, count_writes_app. split; [done|lia].
Qed.

End Spares.

Lemma spares_emit (path : string) (e : event) :
  writes_to path e = false → spares path (emit e).
Proof.
  intros He w. simpl. split; [done|]. exists [e]. split; [done|].
  unfold count_writes. rewrite filter_cons_False; [done|]. by rewrite He.
Qed.

Lemma spares_when (path : string) (c : bool) (m : M unit) :
  spares path m → spares path (when c m).
Proof. intros Hm. destruct c; [done|apply spares_ret]. Qed.

Lemma spares_existsSync (path p : string) : spares path (existsSync p).
Proof. by apply spares_still. Qed.

Lemma spares_readFile (path p : string) : spares path (readFile p).
Proof.
  apply spares_still. intros w. unfold readFile. by destruct (fs w !! p).
Qed.

Lemma spares_stat_size (path p : string) : spares path (stat_size p).
Proof.
  apply spares_still. intros w. unfold stat_size. by destruct (fs w !! p).
Qed.

Lemma spares_writeFile (path p : string) (data : list byte) :
  p ≠ path → spares path (writeFile p data).
Proof.
  intros Hne w. simpl. rewrite lookup_insert_ne by done. split; [done|].
  eexists. split; [done|]. unfold count_writes.
  rewrite filter_cons_False; [done|]. simpl. by rewrite bool_decide_false.
Qed.

Lemma spares_copyFile (path src dest : string) :
  dest ≠ path → spares path (copyFile src dest).
Proof.
  intros Hne w. unfold copyFile. destruct (fs w !! src) as [data|]; simpl.
  - rewrite lookup_insert_ne by done. split; [done|].
    eexists. split; [done|]. unfold count_writes.
    rewrite filter_cons_False; [done|]. simpl. by rewrite bool_decide_false.
  - split; [done|]. exists []. by rewrite app_nil_r.
Qed.

Lemma spares_unlink (path p : string) : p ≠ path → spares path (unlink p).
Proof.
  intros Hne w. unfold unlink. destruct (fs w !! p) as [data|]; simpl.
  - rewrite lookup_delete_ne by done. split; [done|].
    eexists. split; [done|]. unfold count_writes.
    rewrite filter_cons_False; [done|]. simpl. by rewrite bool_decide_false.
  - split; [done|]. exists []. by rewrite app_nil_r.
Qed.

(** ** Computations that end on a copy *)

Lemma copies_last_bind {A B} (src dest : string) (m : M A) (f : A → M B) :
  spares src m → (∀ a, copies_last src dest (f a)) →
  copies_last src dest (m ≫= f).
Proof.
  intros Hm Hf w b w' Hrun. rewrite bind_run in Hrun. specialize (Hm w).
  destruct (m w) as [[a|e|] w1]; [|done..]. simpl in Hm.
  destruct Hm as (Hfs & evs1 & Hlog1 & Hc1).
  destruct (Hf a w1 b w' Hrun)
    as (data & evs2 & Hsrc & Hsrc' & Hdest & Hlog & Hc2).
  exists data, (evs1 ++ evs2).
  rewrite Hlog, Hlog1, <- !app_assoc, count_writes_app.
  split_and!; [congruence|done|done|done|lia].
Qed.

Lemma copies_last_throw {A} (src dest : string) (e : error) :
  copies_last src dest (throw e : M A).
Proof. intros w a w' Hrun. done. Qed.

Lemma copies_last_copyFile {A} (src dest : string) (x : A) :
  dest ≠ src → copies_last src dest (copyFile src dest;; mret x).
Proof.
  intros Hne w a w'. rewrite bind_run. unfold copyFile.
  destruct (fs w !! src) as [data|] eqn:Hsrc; [|done].
  intros [= <- <-]. exists data, []. simpl.
  rewrite lookup_insert_eq, lookup_insert_ne by done.
  split_and!; done.
Qed.

End MonadFacts.

(* ===================================================================== *)
(** * The integrity patch of the executable *)
(* ===================================================================== *)

Module IntegrityFacts.
Import Buf BufFacts Run StringFacts MonadFacts.

#[local] Arguments scan : simpl never.
#[local] Arguments indexOf : simpl never.

Lemma from_ascii_nil (s : jsstring) : from_ascii s = [] → s = [].
Proof. by destruct s. Qed.

(** ** [bypassIntegrityWin], case by case *)

Lemma bypassIntegrityWin_skip (this : Patcher) (oldHash newHash : jsstring)
    (w : World) :
  (ymExePath this = None
   ∨ (∃ exe, ymExePath this = Some exe ∧ fs w !! exe = None)
   ∨ oldHash = newHash) →
  bypassIntegrityWin this oldHash newHash w = (Ret tt, w).
Proof.
  unfold bypassIntegrityWin. intros [->|[(exe & -> & Hnone)| ->]].
  - done.
  - munfold. by rewrite Hnone.
  - destruct (ymExePath this) as [exe|]; [|done]. munfold.
    rewrite (bool_decide_true (newHash = newHash)) by done.
    by rewrite orb_true_r.
Qed.

Lemma bypassIntegrityWin_run (this : Patcher) (exe : string)
    (buf : list byte) (oldHash newHash : jsstring) (w : World) :
  ymExePath this = Some exe → fs w !! exe = Some buf → oldHash ≠ newHash →
  let w1 := after_exe_backup exe buf w in
  bypassIntegrityWin this oldHash newHash w =
  match indexOf buf (from_ascii oldHash) 0 with
  | None => (Ret tt, {| fs := fs w1; log := log w1 ++ [not_found_warning] |})
  | Some _ =>
    match
      scan (S (length buf)) (from_ascii oldHash) (from_ascii newHash) buf 0
    with
    | None => (Hang, w1)
    | Some (fileBuffer', _) =>
      (Ret tt, {| fs := <[exe := fileBuffer']> (fs w1);
                  log := log w1 ++ [EWriteFile exe] |})
    end
  end.
Proof.
  intros Hexe Hbuf Hne. unfold bypassIntegrityWin, after_exe_backup.
  rewrite Hexe. munfold. rewrite Hbuf. simpl.
  rewrite (bool_decide_false (oldHash = newHash)) by done. simpl.
  pose proof (backup_path_fresh exe) as Hbk.
  destruct (bool_decide (is_Some (fs w !! (exe +:+ ".backup")))) eqn:Hb; simpl.
  - rewrite Hbuf.
    destruct (indexOf buf (from_ascii oldHash) 0); [|done].
    by destruct (scan _ _ _ _ _) as [[? ?]|].
  - rewrite Hbuf. simpl. rewrite lookup_insert_ne, Hbuf by done.
    destruct (indexOf buf (from_ascii oldHash) 0); [|done].
    by destruct (scan _ _ _ _ _) as [[? ?]|].
Qed.

Lemma after_exe_backup_exe (exe : string) (buf : list byte) (w : World) :
  fs (after_exe_backup exe buf w) !! exe = fs w !! exe.
Proof.
  unfold after_exe_backup. case_bool_decide; [done|]. simpl.
  apply lookup_insert_ne, backup_path_fresh.
Qed.

Lemma after_exe_backup_log (exe : string) (buf : list byte) (w : World) :
  ∃ evs, log (after_exe_backup exe buf w) = log w ++ evs
         ∧ ∀ msg, EWarn msg ∉ evs.
Proof.
  unfold after_exe_backup. case_bool_decide; simpl.
  - exists []. rewrite app_nil_r. split; [done|].
    intros msg. apply not_elem_of_nil.
  - eexists. split; [done|]. intros msg Hin.
    apply list_elem_of_singleton in Hin. done.
Qed.

Lemma after_exe_backup_backup (exe : string) (buf : list byte) (w : World) :
  let backup := exe +:+ ".backup" in
  let w1 := after_exe_backup exe buf w in
  ∃ evs, log w1 = log w ++ evs
    ∧ count_writes backup evs ≤ 1
    ∧ is_Some (fs w1 !! backup)
    ∧ (is_Some (fs w !! backup) → evs = [] ∧ w1 = w).
Proof.
  simpl. unfold after_exe_backup. case_bool_decide as Hb; simpl.
  - exists []. rewrite app_nil_r. unfold count_writes. simpl.
    split_and!; [done|lia|done|done].
  - eexists. split; [done|]. rewrite lookup_insert_eq.
    unfold count_writes.
    rewrite filter_cons_True by (simpl; by rewrite bool_decide_true).
    split_and!; [done|by eexists|done].
Qed.

(** ** Termination *)

(** With a non-empty old digest the call never hangs; with an empty one and
    a non-empty new digest it hangs as soon as the executable exists. *)
Lemma bypassIntegrityWin_hangs_iff (this : Patcher) (exe : string)
    (buf : list byte) (oldHash newHash : jsstring) (w : World) :
  ymExePath this = Some exe → fs w !! exe = Some buf →
  (bypassIntegrityWin this oldHash newHash w).1 = Hang
  ↔ oldHash = [] ∧ newHash ≠ [].
Proof.
  intros Hexe Hbuf. destruct (decide (oldHash = newHash)) as [->|Hne].
  { rewrite bypassIntegrityWin_skip by auto. simpl. split; [done|].
    intros [-> ?]. done. }
  rewrite (bypassIntegrityWin_run this exe buf) by done.
  destruct oldHash as [|c oldHash].
  - unfold from_ascii at 1 2. simpl. rewrite scan_empty_diverges.
    unfold indexOf. rewrite decide_False by lia.
    destruct (drop 0 buf); simpl; (split; [|done]); intros _;
      (split; [done|]); by intros ->.
  - destruct (indexOf _ _ _); [|by split; [|intros [? _]]].
    destruct (scan_fuel_enough (from_ascii (c :: oldHash)) (from_ascii newHash)
                (S (length buf)) buf 0) as [[out hits] ->]; [done|lia|].
    simpl. by split; [|intros [? _]].
Qed.

(** ** Replacement of the digest *)

(** C1. When the executable holds [buf], the two digests have the same
    length and no two occurrences of the old digest in [buf] overlap,
    [bypassIntegrityWin] returns normally and leaves an executable of the
    same length in which every occurrence of the old digest holds the new
    digest and every byte outside these occurrences is the byte of [buf];
    when the digests differ, the loop copies the new digest exactly at the
    N indices where the old one occurs. *)
Theorem bypassIntegrityWin_replaces_occurrences (this : Patcher)
    (exe : string) (buf : list byte) (oldHash newHash : jsstring)
    (w : World) :
  ymExePath this = Some exe →
  fs w !! exe = Some buf →
  length oldHash = length newHash →
  disjoint_occurrences (from_ascii oldHash) buf →
  ∃ w' out,
    bypassIntegrityWin this oldHash newHash w = (Ret tt, w')
    ∧ fs w' !! exe = Some out
    ∧ length out = length buf
    ∧ (∀ p, occurs_at (from_ascii oldHash) buf p →
            occurs_at (from_ascii newHash) out p)
    ∧ (∀ i, (∀ p, ¬ covered (from_ascii oldHash) buf i p) →
            out !! i = buf !! i)
    ∧ (oldHash ≠ newHash →
       scan (S (length buf)) (from_ascii oldHash) (from_ascii newHash) buf 0
         = Some (out, occurrences (from_ascii oldHash) buf)).
Proof.
  intros Hexe Hbuf Hlen Hdisj.
  destruct (decide (oldHash = newHash)) as [->|Hne].
  { exists w, buf. rewrite bypassIntegrityWin_skip by auto.
    repeat split; done. }
  assert (Hnil : from_ascii oldHash ≠ []).
  { intros ->%from_ascii_nil. destruct newHash; done. }
  destruct (scan_replaces_all (from_ascii oldHash) (from_ascii newHash) buf)
    as (out & Hscan & Hout & Hin & Hrest); [|done|done|].
  { unfold from_ascii. by rewrite !length_map. }
  rewrite (bypassIntegrityWin_run this exe buf) by done.
  destruct (indexOf buf (from_ascii oldHash) 0) eqn:Hidx.
  - rewrite Hscan. eexists _, out. split; [done|]. simpl.
    rewrite lookup_insert_eq. repeat split; done.
  - rewrite scan_no_match in Hscan by done. injection Hscan as <- Hocc.
    eexists _, buf. split; [done|]. simpl.
    rewrite after_exe_backup_exe.
    repeat split; try done.
    intros _. rewrite scan_no_match by done. by rewrite Hocc.
Qed.

Lemma bypassIntegrityWin_replaces_occurrences_witness :
  ∃ w' out,
    bypassIntegrityWin Demo.this (Js.lit "ab") (Js.lit "XY")
      (Demo.world_with_exe (Demo.bytes "abcab-ab")) = (Ret tt, w')
    ∧ fs w' !! Demo.exe = Some out
    ∧ length out = 8.
Proof.
  destruct (bypassIntegrityWin_replaces_occurrences Demo.this Demo.exe
              (Demo.bytes "abcab-ab") (Js.lit "ab") (Js.lit "XY")
              (Demo.world_with_exe (Demo.bytes "abcab-ab")))
    as (w' & out & Hrun & Hfile & Hlen & _).
  - reflexivity.
  - vm_compute. reflexivity.
  - reflexivity.
  - apply disjointb_sound. vm_compute. reflexivity.
  - exists w', out. repeat split; done.
Defined.

(** ** The executable is touched only when the digest is found *)

(** C2, as amended. Whatever the call, the executable differs afterwards
    only if the digests differ and the old digest occurs in its bytes. When
    the executable exists, the digests differ and the old digest is absent,
    the call returns normally, the file is as it was and the warning is
    logged. When the digests are equal the call returns at once, silently:
    nothing is changed and nothing is logged. *)
Theorem bypassIntegrityWin_untouched_unless_found (this : Patcher)
    (exe : string) (oldHash newHash : jsstring) (w : World) :
  ymExePath this = Some exe →
  let '(out, w') := bypassIntegrityWin this oldHash newHash w in
  (fs w' !! exe ≠ fs w !! exe →
     oldHash ≠ newHash
     ∧ ∃ data p, fs w !! exe = Some data
                 ∧ occurs_at (from_ascii oldHash) data p)
  ∧ (∀ data, fs w !! exe = Some data → oldHash ≠ newHash →
       (∀ p, ¬ occurs_at (from_ascii oldHash) data p) →
       out = Ret tt ∧ fs w' !! exe = Some data
       ∧ not_found_warning ∈ events_since w w')
  ∧ (oldHash = newHash → out = Ret tt ∧ w' = w).
Proof.
  intros Hexe.
  destruct (decide (oldHash = newHash)) as [Heq|Hne].
  { rewrite bypassIntegrityWin_skip by auto. repeat split; done. }
  destruct (fs w !! exe) as [data|] eqn:Hdata.
  2:{ rewrite bypassIntegrityWin_skip by eauto. rewrite Hdata.
      repeat split; done. }
  rewrite (bypassIntegrityWin_run this exe data) by done.
  destruct (after_exe_backup_log exe data w) as (evs & Hlog & _).
  destruct (indexOf data (from_ascii oldHash) 0) as [idx|] eqn:Hidx.
  - assert (Hocc : occurs_at (from_ascii oldHash) data idx).
    { destruct (from_ascii oldHash) as [|x old] eqn:Hold; [done|].
      by apply indexOf_Some in Hidx as (_ & _ & ? & _). }
    destruct (scan _ _ _ _ _) as [[fileBuffer' hits]|].
    + split; [eauto|]. split; [|done].
      intros ? [= <-] _ Habsent. by destruct (Habsent idx).
    + split; [eauto|]. split; [|done].
      intros ? [= <-] _ Habsent. by destruct (Habsent idx).
  - simpl. rewrite after_exe_backup_exe, Hdata.
    split; [done|]. split; [|done].
    intros ? [= <-] _ _. repeat split.
    erewrite events_since_app; [|simpl; rewrite Hlog, <- app_assoc; done].
    apply elem_of_app. right. apply list_elem_of_singleton. done.
Qed.

Lemma bypassIntegrityWin_untouched_unless_found_witness :
  not_found_warning
    ∈ events_since (Demo.world_with_exe (Demo.bytes "xyz"))
        (bypassIntegrityWin Demo.this (Js.lit "ab") (Js.lit "XY")
           (Demo.world_with_exe (Demo.bytes "xyz"))).2.
Proof.
  pose proof (bypassIntegrityWin_untouched_unless_found Demo.this Demo.exe
                (Js.lit "ab") (Js.lit "XY")
                (Demo.world_with_exe (Demo.bytes "xyz")) eq_refl) as H.
  destruct (bypassIntegrityWin _ _ _ _) as [out w'].
  destruct H as (_ & H & _).
  apply (H (Demo.bytes "xyz")).
  - vm_compute. reflexivity.
  - discriminate.
  - apply occurrences_nil_absent; [discriminate|]. vm_compute. reflexivity.
Defined.

(** Counterexample to C2 as it is worded, which asks for an unchanged file,
    a normal return and the warning whenever the old digest is absent from
    the executable. A call with twice the same digest returns at line 243
    and logs nothing, whether the digest is in the file or not: here the
    executable is [xyz] and both digests are [ab]. *)
Lemma missing_digest_without_warning :
  ¬ (∀ (this : Patcher) (exe : string) (oldHash newHash : jsstring)
       (w : World) (data : list byte),
       ymExePath this = Some exe →
       fs w !! exe = Some data →
       (∀ p, ¬ occurs_at (from_ascii oldHash) data p) →
       let '(out, w') := bypassIntegrityWin this oldHash newHash w in
       out = Ret tt
       ∧ fs w' !! exe = Some data
       ∧ not_found_warning ∈ events_since w w').
Proof.
  intros H.
  specialize (H Demo.this Demo.exe (Js.lit "ab") (Js.lit "ab")
                (Demo.world_with_exe (Demo.bytes "xyz")) (Demo.bytes "xyz")).
  rewrite bypassIntegrityWin_skip in H by auto.
  rewrite events_since_refl in H.
  destruct H as (_ & _ & H).
  - reflexivity.
  - vm_compute. reflexivity.
  - apply occurrences_nil_absent; [discriminate|]. vm_compute. reflexivity.
  - by apply not_elem_of_nil in H.
Qed.

(** ** The backup of the executable *)

Lemma bypassIntegrityWin_backup_once (this : Patcher) (exe : string)
    (oldHash newHash : jsstring) (w : World) :
  ymExePath this = Some exe →
  let backup := exe +:+ ".backup" in
  let '(out, w') := bypassIntegrityWin this oldHash newHash w in
  ∃ evs, log w' = log w ++ evs
    ∧ count_writes backup evs ≤ 1
    ∧ (count_writes backup evs = 1 → is_Some (fs w' !! backup))
    ∧ (is_Some (fs w !! backup) →
       count_writes backup evs = 0 ∧ fs w' !! backup = fs w !! backup).
Proof.
  intros Hexe backup.
  assert (Hskip : ∃ evs : list event, log w = log w ++ evs
    ∧ count_writes backup evs ≤ 1
    ∧ (count_writes backup evs = 1 → is_Some (fs w !! backup))
    ∧ (is_Some (fs w !! backup) →
       count_writes backup evs = 0 ∧ fs w !! backup = fs w !! backup)).
  { exists []. rewrite app_nil_r. unfold count_writes. simpl.
    split_and!; [done|lia|lia|done]. }
  destruct (decide (oldHash = newHash)) as [Heq|Hne].
  { by rewrite bypassIntegrityWin_skip by auto. }
  destruct (fs w !! exe) as [data|] eqn:Hdata.
  2:{ by rewrite bypassIntegrityWin_skip by eauto. }
  rewrite (bypassIntegrityWin_run this exe data) by done.
  destruct (after_exe_backup_backup exe data w)
    as (evs & Hlog & Hcount & Hsome & Hkeep).
  fold backup in Hcount, Hsome, Hkeep.
  assert (Hexe_ne : count_writes backup [EWriteFile exe] = 0).
  { unfold count_writes. rewrite filter_cons_False; [done|].
    simpl. rewrite bool_decide_false; [done|].
    intros Heq. by apply (backup_path_fresh exe). }
  destruct (indexOf data (from_ascii oldHash) 0) as [idx|].
  - destruct (scan _ _ _ _ _) as [[fileBuffer' hits]|]; simpl.
    + exists (evs ++ [EWriteFile exe]).
      rewrite Hlog, <- app_assoc, count_writes_app, Hexe_ne.
      rewrite lookup_insert_ne
        by (intros Heq; by apply (backup_path_fresh exe)).
      split_and!; [done|lia|done|].
      intros H. destruct (Hkeep H) as [-> ->]. done.
    + exists evs. split_and!; [done..|].
      intros H. destruct (Hkeep H) as [-> ->]. done.
  - simpl. eexists (evs ++ [_]).
    rewrite Hlog, <- app_assoc, count_writes_app.
    split_and!; [done|unfold count_writes at 2; simpl; lia|done|].
    intros H. destruct (Hkeep H) as [-> ->]. done.
Qed.

Lemma bypassIntegrityWin_calls_backup_once (exe : string)
    (calls : list (Patcher * jsstring * jsstring)) (w : World) :
  Forall (λ call, ymExePath call.1.1 = Some exe) calls →
  let backup := exe +:+ ".backup" in
  let '(out, w') := bypassIntegrityWin_calls calls w in
  ∃ evs, log w' = log w ++ evs
    ∧ count_writes backup evs ≤ 1
    ∧ (count_writes backup evs = 1 → is_Some (fs w' !! backup))
    ∧ (is_Some (fs w !! backup) →
       count_writes backup evs = 0 ∧ fs w' !! backup = fs w !! backup).
Proof.
  intros Hcalls backup. revert w.
  induction Hcalls as [|[[this oldHash] newHash] rest Hexe _ IH]; intros w;
    simpl.
  { exists []. rewrite app_nil_r. unfold count_writes. simpl.
    split_and!; [done|lia|lia|done]. }
  unfold mbind, M_bind.
  pose proof (bypassIntegrityWin_backup_once this exe oldHash newHash w Hexe)
    as H1. simpl in H1. fold backup in H1.
  destruct (bypassIntegrityWin this oldHash newHash w) as [[[]|e|] w1];
    [|done..].
  destruct H1 as (evs1 & Hlog1 & Hc1 & Hsome1 & Hkeep1).
  specialize (IH w1).
  destruct (bypassIntegrityWin_calls rest w1) as [out w'].
  destruct IH as (evs2 & Hlog2 & Hc2 & Hsome2 & Hkeep2).
  exists (evs1 ++ evs2).
  rewrite Hlog2, Hlog1, <- app_assoc, count_writes_app.
  split; [done|].
  destruct (decide (count_writes backup evs1 = 1)) as [Hone|Hzero].
  - destruct (Hkeep2 (Hsome1 Hone)) as [Hz Hsame].
    split_and!; [lia| |].
    + intros _. rewrite Hsame. auto.
    + intros Hw. destruct (Hkeep1 Hw). lia.
  - split_and!; [lia| |].
    + intros Hc. apply Hsome2. lia.
    + intros Hw. destruct (Hkeep1 Hw) as [Hz1 Hsame1].
      destruct Hkeep2 as [Hz2 Hsame2]; [by rewrite Hsame1|].
      split; [lia|congruence].
Qed.

(** C9. Over any sequence of calls of [bypassIntegrityWin] on the same
    executable path, the file [exe.backup] is written at most once and never
    deleted, and a backup that exists before the sequence is still there
    afterwards with the same bytes: no call writes on it. *)
Theorem exe_backup_created_at_most_once (exe : string)
    (calls : list (Patcher * jsstring * jsstring)) (w : World) :
  Forall (λ call, ymExePath call.1.1 = Some exe) calls →
  let backup := exe +:+ ".backup" in
  let '(out, w') := bypassIntegrityWin_calls calls w in
  count_writes backup (events_since w w') ≤ 1
  ∧ (∀ saved, fs w !! backup = Some saved →
       fs w' !! backup = Some saved
       ∧ count_writes backup (events_since w w') = 0).
Proof.
  intros Hcalls backup.
  pose proof (bypassIntegrityWin_calls_backup_once exe calls w Hcalls) as H.
  simpl in H. fold backup in H.
  destruct (bypassIntegrityWin_calls calls w) as [out w'].
  destruct H as (evs & Hlog & Hc & _ & Hkeep).
  rewrite (events_since_app w w' evs) by done.
  split; [done|]. intros saved Hsaved.
  destruct Hkeep as [Hz Hsame]; [by eexists|].
  split; [congruence|done].
Qed.

Lemma exe_backup_created_at_most_once_witness :
  let w := Demo.world_with_exe (Demo.bytes "abcab-ab") in
  let calls := [(Demo.this, Js.lit "ab", Js.lit "XY");
                (Demo.this, Js.lit "XY", Js.lit "ab");
                (Demo.this, Js.lit "zz", Js.lit "ab")] in
  count_writes (Demo.exe +:+ ".backup")
    (events_since w (bypassIntegrityWin_calls calls w).2) ≤ 1.
Proof.
  intros w calls.
  pose proof (exe_backup_created_at_most_once Demo.exe calls w) as H.
  cbv zeta in H. destruct (bypassIntegrityWin_calls calls w).
  apply H. repeat constructor.
Defined.

(** ** Files the integrity patch spares *)

Lemma spares_bypassIntegrityWin (this : Patcher) (oldHash newHash : jsstring)
    (path : string) :
  (∀ exe, ymExePath this = Some exe →
          exe ≠ path ∧ exe +:+ ".backup" ≠ path) →
  spares path (bypassIntegrityWin this oldHash newHash).
Proof.
  intros Hexe. unfold bypassIntegrityWin.
  destruct (ymExePath this) as [exe|]; [|apply spares_ret].
  destruct (Hexe exe eq_refl) as [Hne Hbk].
  apply spares_bind; [apply spares_existsSync|]. intros found.
  destruct (negb found || _); [apply spares_ret|].
  apply spares_bind; [apply spares_existsSync|]. intros hasBackup.
  apply spares_bind; [by apply spares_when, spares_copyFile|]. intros _.
  apply spares_bind; [apply spares_readFile|]. intros fileBuffer.
  destruct (indexOf _ _ _); [|by apply spares_emit].
  destruct (scan _ _ _ _ _) as [[fileBuffer' hits]|];
    [by apply spares_writeFile|apply spares_hang].
Qed.

(** The files after a run of [codesign]: those it can rewrite are as the
    tool leaves them, the others as they were. *)
Lemma lookup_resign (env : Env) (this : Patcher) (w : World) (path : string) :
  fs (resign env this w).2 !! path
  = if resigned this path
    then codesign env (ymPath this) (fs w) !! path
    else fs w !! path.
Proof.
  unfold resign. simpl. destruct (resigned this path) eqn:Hpath.
  - rewrite lookup_union_l.
    + destruct (codesign env (ymPath this) (fs w) !! path) as [data|] eqn:Hin.
      * by apply map_lookup_filter_Some_2.
      * apply map_lookup_filter_None_2. by left.
    + apply map_lookup_filter_None_2. right. intros data _. simpl.
      by rewrite Hpath.
  - rewrite lookup_union_r.
    + destruct (fs w !! path) as [data|] eqn:Hin.
      * by apply map_lookup_filter_Some_2.
      * apply map_lookup_filter_None_2. by left.
    + apply map_lookup_filter_None_2. right. intros data _. simpl.
      by rewrite Hpath.
Qed.

(** A file in the temp directory is none of those. *)
Lemma temp_not_resigned (this : Patcher) (name : string) :
  tmpDir this ≠ "" → name ≠ "" →
  resigned this (join (tmpDir this) name) = false.
Proof.
  intros Htmp Hname. unfold resigned.
  rewrite join_nonempty, <- append_assoc, strip_prefix_append by done.
  rewrite (bool_decide_true (is_Some (Some name))) by done.
  apply andb_false_r.
Qed.

Lemma archive_not_resigned (this : Patcher) :
  resigned this (ymAsarPath this) = false.
Proof.
  unfold resigned.
  rewrite (bool_decide_true (ymAsarPath this = ymAsarPath this)) by done.
  by rewrite andb_false_r.
Qed.

Lemma spares_resign (env : Env) (this : Patcher) (path : string) :
  resigned this path = false → spares path (resign env this).
Proof.
  intros Hpath w. rewrite lookup_resign, Hpath. split; [done|].
  exists []. by rewrite app_nil_r.
Qed.

Lemma spares_bypassIntegrityMac (env : Env) (this : Patcher) (path : string) :
  resigned this path = false →
  spares path (bypassIntegrityMac env this).
Proof.
  intros Hpath. unfold bypassIntegrityMac.
  apply spares_bind; [by apply spares_emit|]. intros _.
  apply spares_bind; [by apply spares_resign|]. intros _.
  destruct (exec env _); [apply spares_ret|by apply spares_emit].
Qed.

End IntegrityFacts.

(* ===================================================================== *)
(** * Process enumeration *)
(* ===================================================================== *)

Module ProcessFacts.
Import Run ListFacts MonadFacts.

Lemma getYandexMusicProcesses_run (env : Env) (w : World) :
  ∃ pids,
    getYandexMusicProcesses env w
      = (Ret pids, {| fs := fs w;
                      log := log w ++ [EExec (enumeration_command env)] |}).
Proof.
  unfold getYandexMusicProcesses. munfold.
  destruct (exec env (enumeration_command env)) as [stdout|]; [|by eexists].
  destruct (Js.truthy (Js.trim stdout)); by eexists.
Qed.



Lemma spares_getYandexMusicProcesses (env : Env) (path : string) :
  spares path (getYandexMusicProcesses env).
Proof.
  unfold getYandexMusicProcesses. apply spares_bind; [by apply spares_emit|].
  intros _. destruct (exec env _) as [stdout|]; [|apply spares_ret].
  destruct (negb _); apply spares_ret.
Qed.

Lemma spares_killProcesses (path : string) (pids : list Js.number) :
  spares path (killProcesses pids).
Proof.
  unfold killProcesses. apply spares_bind; [|intros; by apply spares_emit].
  induction pids as [|pid pids IH]; simpl; [apply spares_ret|].
  apply spares_bind; [by apply spares_emit|done].
Qed.

Lemma spares_launchYandexMusic (env : Env) (this : Patcher) (path : string) :
  spares path (launchYandexMusic env this).
Proof.
  unfold launchYandexMusic. destruct (platform env); [| |apply spares_ret].
  - apply spares_bind; [apply spares_existsSync|]. intros found.
    by apply spares_when, spares_emit.
  - apply spares_bind; [by apply spares_emit|]. intros _.
    destruct (exec env _); [apply spares_ret|apply spares_throw].
Qed.

End ProcessFacts.

(* ===================================================================== *)
(** * Assets, cache and download *)
(* ===================================================================== *)

Module CacheFacts.
Import Run StringFacts MonadFacts.

(** ** Asset resolution *)

Lemma find_first_named (n : string) (l : list ReleaseAsset) :
  match List.find (λ a, bool_decide (asset_name a = n)) l with
  | Some a => a ∈ l ∧ asset_name a = n
  | None => ∀ a, a ∈ l → asset_name a ≠ n
  end.
Proof.
  induction l as [|x l IH]; simpl.
  - intros a Ha. by apply not_elem_of_nil in Ha.
  - case_bool_decide as Hx.
    + split; [left|done].
    + destruct (List.find _ l) as [a|].
      * destruct IH. split; [by right|done].
      * intros a [->|Ha]%elem_of_cons; [done|by apply IH].
Qed.

(** C7. The asset picked for a variant is the first one named
    [<variant>.gz] when the release has one, else the first one named
    [<variant>] when the release has one; with neither, [downloadModFiles]
    throws the asset-not-found error and changes nothing. The variant name
    is [app.asar] for the default patch and [appDevTools.asar] for
    devtoolsOnly. *)
Theorem resolveAsset_prefers_compressed (env : Env) (this : Patcher)
    (metadata : ReleaseMetadata) :
  let variant := assetPrefix this in
  let has n := ∃ a, a ∈ assets metadata ∧ asset_name a = n in
  (has (variant +:+ ".gz") →
     ∃ a, resolveAsset this metadata = Some a
          ∧ a ∈ assets metadata ∧ asset_name a = variant +:+ ".gz")
  ∧ (¬ has (variant +:+ ".gz") → has variant →
     ∃ a, resolveAsset this metadata = Some a
          ∧ a ∈ assets metadata ∧ asset_name a = variant)
  ∧ (¬ has (variant +:+ ".gz") → ¬ has variant →
     resolveAsset this metadata = None
     ∧ ∀ w, downloadModFiles env this metadata w
            = (Throw AssetNotFoundError, w))
  ∧ variant = match patchType (options this) with
              | default_type => "app.asar"
              | devtoolsOnly => "appDevTools.asar"
              end.
Proof.
  intros variant has. unfold downloadModFiles, resolveAsset. fold variant.
  pose proof (find_first_named (variant +:+ ".gz") (assets metadata)) as Hgz.
  pose proof (find_first_named variant (assets metadata)) as Hplain.
  destruct (List.find _ (assets metadata)) as [a|].
  - destruct Hgz as [Hin Hname]. split_and!; [eauto| | |done].
    + intros Hno. destruct Hno. by exists a.
    + intros Hno. destruct Hno. by exists a.
  - destruct (List.find _ (assets metadata)) as [a|].
    + destruct Hplain as [Hin Hname]. split_and!; [|eauto| |done].
      * intros (a' & Hin' & Hname'). by destruct (Hgz a' Hin').
      * intros _ Hno. destruct Hno. by exists a.
    + split_and!; [| |done|done].
      * intros (a' & Hin' & Hname'). by destruct (Hgz a' Hin').
      * intros _ (a' & Hin' & Hname'). by destruct (Hplain a' Hin').
Qed.

Lemma resolveAsset_name (this : Patcher) (metadata : ReleaseMetadata)
    (asset : ReleaseAsset) :
  resolveAsset this metadata = Some asset →
  asset_name asset ∈ ["app.asar"; "app.asar.gz"; "appDevTools.asar";
                      "appDevTools.asar.gz"; "app.asar.backup"].
Proof.
  unfold resolveAsset, assetPrefix.
  pose proof (find_first_named
                (match patchType (options this) with
                 | default_type => "app.asar"
                 | devtoolsOnly => "appDevTools.asar"
                 end +:+ ".gz") (assets metadata)) as Hgz.
  pose proof (find_first_named
                (match patchType (options this) with
                 | default_type => "app.asar"
                 | devtoolsOnly => "appDevTools.asar"
                 end) (assets metadata)) as Hplain.
  destruct (List.find _ (assets metadata)) as [a|].
  - intros [= <-]. destruct Hgz as [_ ->].
    destruct (patchType (options this)); simpl;
      repeat first [by left | right].
  - destruct (List.find _ (assets metadata)) as [a|]; [|done].
    intros [= <-]. destruct Hplain as [_ ->].
    destruct (patchType (options this)); simpl;
      repeat first [by left | right].
Qed.

(** ** [downloadModFiles], case by case *)

Lemma decompressFile_run (env : Env) (source dest : string)
    (compressed : list byte) (w : World) :
  fs w !! source = Some compressed →
  decompressFile env source dest w =
  match unzip env compressed with
  | Some decompressed =>
    (Ret tt, {| fs := <[dest := decompressed]> (fs w);
                log := log w ++ [EWriteFile dest] |})
  | None => (Throw ZlibError, w)
  end.
Proof.
  intros Hsrc. unfold decompressFile. munfold. rewrite Hsrc.
  by destruct (unzip env compressed).
Qed.

Lemma downloadModFiles_cached (env : Env) (this : Patcher)
    (metadata : ReleaseMetadata) (asset : ReleaseAsset)
    (cached : list byte) (w : World) :
  resolveAsset this metadata = Some asset →
  useCache (options this) = true →
  fs w !! join (tmpDir this) (asset_name asset) = Some cached →
  Z.of_nat (length cached) = asset_size asset →
  downloadModFiles env this metadata w =
  if endsWith (asset_name asset) ".gz"
  then decompressFile env (join (tmpDir this) (asset_name asset))
         (workingPath this) w
  else (Ret tt, w).
Proof.
  intros Hres Hcache Hfile Hsize. unfold downloadModFiles.
  rewrite Hres, Hcache. munfold. rewrite Hfile. simpl. rewrite Hfile.
  rewrite bool_decide_true by done.
  by destruct (endsWith (asset_name asset) ".gz").
Qed.

(** The world once the asset has been fetched and written to [destPath]. *)
Lemma downloadModFiles_fetch (env : Env) (this : Patcher)
    (metadata : ReleaseMetadata) (asset : ReleaseAsset) (w : World) :
  resolveAsset this metadata = Some asset →
  (useCache (options this) = false
   ∨ fs w !! join (tmpDir this) (asset_name asset) = None
   ∨ ∃ cached, fs w !! join (tmpDir this) (asset_name asset) = Some cached
               ∧ Z.of_nat (length cached) ≠ asset_size asset) →
  let destPath := join (tmpDir this) (asset_name asset) in
  let url := browser_download_url asset in
  let token := githubToken (options this) in
  let w1 := {| fs := fs w; log := log w ++ [EDownload url token] |} in
  downloadModFiles env this metadata w =
  match downloadStream env url token with
  | inl e => (Throw e, w1)
  | inr body =>
    let w2 := {| fs := <[destPath := body]> (fs w);
                 log := log w1 ++ [EWriteFile destPath] |} in
    match stream_error env url token with
    | Some e => (Throw e, w2)
    | None =>
      if endsWith (asset_name asset) ".gz"
      then decompressFile env destPath (workingPath this) w2
      else (Ret tt, w2)
    end
  end.
Proof.
  intros Hres Hmiss. simpl. unfold downloadModFiles. rewrite Hres. munfold.
  { destruct Hmiss as [Hc|[Hnone|(cached & Hfile & Hsize)]].
      - rewrite Hc. simpl.
        destruct (downloadStream env _ _); [done|].
        destruct (stream_error env _ _); [done|].
        by destruct (endsWith (asset_name asset) ".gz").
      - rewrite Hnone. simpl. rewrite andb_false_r.
        destruct (downloadStream env _ _); [done|].
        destruct (stream_error env _ _); [done|].
        by destruct (endsWith (asset_name asset) ".gz").
      - rewrite Hfile. simpl.
        destruct (useCache (options this)); simpl.
        + rewrite Hfile. rewrite bool_decide_false by done.
          destruct (downloadStream env _ _); [done|].
          destruct (stream_error env _ _); [done|].
          by destruct (endsWith (asset_name asset) ".gz").
        + destruct (downloadStream env _ _); [done|].
          destruct (stream_error env _ _); [done|].
          by destruct (endsWith (asset_name asset) ".gz"). }
Qed.

Lemma cache_hit_or_miss (this : Patcher) (asset : ReleaseAsset) (w : World) :
  let destPath := join (tmpDir this) (asset_name asset) in
  (useCache (options this) = true
   ∧ ∃ cached, fs w !! destPath = Some cached
               ∧ Z.of_nat (length cached) = asset_size asset)
  ∨ (useCache (options this) = false
     ∨ fs w !! destPath = None
     ∨ ∃ cached, fs w !! destPath = Some cached
                 ∧ Z.of_nat (length cached) ≠ asset_size asset).
Proof.
  simpl. destruct (useCache (options this)); [|by right; left].
  destruct (fs w !! _) as [cached|]; [|by right; right; left].
  destruct (decide (Z.of_nat (length cached) = asset_size asset)).
  - left. eauto.
  - right. right. right. eauto.
Qed.

Lemma gz_dest_not_working (this : Patcher) (name : string) :
  endsWith name ".gz" = true → workingPath this ≠ join (tmpDir this) name.
Proof.
  intros Hgz Heq. unfold workingPath in Heq.
  apply join_inj_r in Heq; [|done|by intros ->].
  by subst name.
Qed.

(** ** The cache *)

(** C6. With the cache on and a file named after the asset in the temp
    directory, where the cached assets are kept: when its size is the
    declared size of the asset, no download is requested and the cached file
    is used, decompressed into the working file when it is compressed; when
    the size differs, the asset is requested once and what is received
    replaces the cached file. *)
Theorem downloadModFiles_cache (env : Env) (this : Patcher)
    (metadata : ReleaseMetadata) (asset : ReleaseAsset)
    (cached : list byte) (w : World) :
  resolveAsset this metadata = Some asset →
  useCache (options this) = true →
  fs w !! join (tmpDir this) (asset_name asset) = Some cached →
  let destPath := join (tmpDir this) (asset_name asset) in
  let url := browser_download_url asset in
  let token := githubToken (options this) in
  let '(out, w') := downloadModFiles env this metadata w in
  (Z.of_nat (length cached) = asset_size asset →
     filter (λ e, is_download e = true) (events_since w w') = []
     ∧ if endsWith (asset_name asset) ".gz" then
         match unzip env cached with
         | Some decompressed =>
           out = Ret tt
           ∧ fs w' = <[workingPath this := decompressed]> (fs w)
         | None => out = Throw ZlibError ∧ fs w' = fs w
         end
       else out = Ret tt ∧ w' = w)
  ∧ (Z.of_nat (length cached) ≠ asset_size asset →
     filter (λ e, is_download e = true) (events_since w w')
       = [EDownload url token]
     ∧ ∀ body, downloadStream env url token = inr body →
         fs w' !! destPath = Some body).
Proof.
  intros Hres Hcache Hfile destPath url token.
  destruct (decide (Z.of_nat (length cached) = asset_size asset)) as [Hsize|Hsize].
  - rewrite (downloadModFiles_cached env this metadata asset cached) by done.
    destruct (endsWith (asset_name asset) ".gz").
    + rewrite (decompressFile_run env _ _ cached) by done.
      destruct (unzip env cached) as [decompressed|].
      * split; [|done]. intros _.
        rewrite (events_since_app _ _ [EWriteFile (workingPath this)]) by done.
        done.
      * split; [|done]. intros _. by rewrite events_since_refl.
    + split; [|done]. intros _. by rewrite events_since_refl.
  - rewrite (downloadModFiles_fetch env this metadata asset) by eauto.
    fold destPath url token.
    destruct (downloadStream env url token) as [e|body].
    { split; [done|]. intros _.
      rewrite (events_since_app _ _ [EDownload url token]) by done. done. }
    destruct (stream_error env url token) as [broken|].
    { split; [done|]. intros _. split.
      - erewrite events_since_app; [|simpl; rewrite <- !app_assoc; done].
        done.
      - intros ? [= <-]. simpl. by rewrite lookup_insert_eq. }
    destruct (endsWith (asset_name asset) ".gz") eqn:Hgz.
    + rewrite (decompressFile_run env _ _ body)
        by (simpl; apply lookup_insert_eq).
      destruct (unzip env body) as [decompressed|]; simpl.
      * split; [done|]. intros _. split.
        -- erewrite events_since_app; [|simpl; rewrite <- !app_assoc; done].
           done.
        -- intros ? [= <-]. rewrite lookup_insert_ne, lookup_insert_eq; [done|].
           by apply gz_dest_not_working.
      * split; [done|]. intros _. split.
        -- erewrite events_since_app; [|simpl; rewrite <- !app_assoc; done].
           done.
        -- intros ? [= <-]. by rewrite lookup_insert_eq.
    + split; [done|]. intros _. split.
      * erewrite events_since_app; [|simpl; rewrite <- !app_assoc; done].
        done.
      * intros ? [= <-]. simpl. by rewrite lookup_insert_eq.
Qed.

Lemma downloadModFiles_cache_witness :
  filter (λ e, is_download e = true)
    (events_since Demo.cached_world
       (downloadModFiles Demo.windows Demo.this Demo.release
          Demo.cached_world).2) = [].
Proof.
  pose proof (downloadModFiles_cache Demo.windows Demo.this Demo.release
                Demo.gz_asset (x1f :: Demo.bytes "OLD") Demo.cached_world)
    as H.
  cbv zeta in H.
  destruct (downloadModFiles Demo.windows Demo.this Demo.release
              Demo.cached_world) as [out w'].
  apply H.
  - vm_compute. reflexivity.
  - reflexivity.
  - vm_compute. reflexivity.
  - reflexivity.
Defined.

(** ** The working file *)

(** When the asset is compressed or is named [app.asar], a successful
    download step leaves in the working file the bytes of the local copy of
    the asset, decompressed when the asset is compressed. *)
Lemma downloadModFiles_working_file (env : Env) (this : Patcher)
    (metadata : ReleaseMetadata) (asset : ReleaseAsset) (w w' : World) :
  resolveAsset this metadata = Some asset →
  downloadModFiles env this metadata w = (Ret tt, w') →
  asset_name asset = "app.asar" ∨ endsWith (asset_name asset) ".gz" = true →
  ∃ content,
    fs w' !! join (tmpDir this) (asset_name asset) = Some content
    ∧ fs w' !! workingPath this
      = if endsWith (asset_name asset) ".gz" then unzip env content
        else Some content.
Proof.
  intros Hres Hrun Hname.
  set (destPath := join (tmpDir this) (asset_name asset)).
  assert (Hgz : ∀ (w0 : World) content,
    fs w0 !! destPath = Some content →
    endsWith (asset_name asset) ".gz" = true →
    decompressFile env destPath (workingPath this) w0 = (Ret tt, w') →
    fs w' !! destPath = Some content
    ∧ fs w' !! workingPath this = unzip env content).
  { intros w0 content Hc Hgz. rewrite (decompressFile_run env _ _ content) by done.
    destruct (unzip env content) as [d|]; [|done]. intros [= <-]. simpl.
    rewrite lookup_insert_eq, lookup_insert_ne; [done|].
    by apply gz_dest_not_working. }
  assert (Hplain : endsWith (asset_name asset) ".gz" = false →
    destPath = workingPath this).
  { intros Hno. destruct Hname as [Hn|Hn]; [|congruence].
    unfold destPath, workingPath. by rewrite Hn. }
  destruct (cache_hit_or_miss this asset w)
    as [(Hcache & cached & Hfile & Hsize)|Hmiss].
  - rewrite (downloadModFiles_cached env this metadata asset cached) in Hrun
      by done.
    destruct (endsWith (asset_name asset) ".gz") eqn:E.
    + exists cached. by eapply Hgz.
    + injection Hrun as <-. exists cached. by rewrite <- Hplain.
  - rewrite (downloadModFiles_fetch env this metadata asset) in Hrun by done.
    destruct (downloadStream env _ _) as [e|body]; [done|].
    destruct (stream_error env _ _) as [broken|]; [done|].
    fold destPath in Hrun.
    destruct (endsWith (asset_name asset) ".gz") eqn:E.
    + exists body. eapply Hgz; [|done|done]. simpl. apply lookup_insert_eq.
    + injection Hrun as <-. exists body. rewrite <- Hplain by done. simpl.
      by rewrite lookup_insert_eq.
Qed.

(** The remaining case: for the devtoolsOnly variant with an uncompressed
    asset, the download step never writes the working file. *)
Lemma downloadModFiles_devtools_plain (env : Env) (this : Patcher)
    (metadata : ReleaseMetadata) (asset : ReleaseAsset) (w : World) :
  resolveAsset this metadata = Some asset →
  asset_name asset = "appDevTools.asar" →
  fs (downloadModFiles env this metadata w).2 !! workingPath this
  = fs w !! workingPath this.
Proof.
  intros Hres Hname.
  set (destPath := join (tmpDir this) (asset_name asset)).
  assert (Hgz : endsWith (asset_name asset) ".gz" = false) by by rewrite Hname.
  assert (Hne : destPath ≠ workingPath this).
  { unfold destPath, workingPath. rewrite Hname.
    intros Heq. by apply join_inj_r in Heq. }
  destruct (cache_hit_or_miss this asset w)
    as [(Hcache & cached & Hfile & Hsize)|Hmiss].
  - rewrite (downloadModFiles_cached env this metadata asset cached) by done.
    by rewrite Hgz.
  - rewrite (downloadModFiles_fetch env this metadata asset) by done.
    destruct (downloadStream env _ _) as [e|body]; [done|].
    destruct (stream_error env _ _) as [broken|];
      [simpl; by rewrite lookup_insert_ne|].
    rewrite Hgz. simpl. by rewrite lookup_insert_ne.
Qed.

(** C5 fails for the devtoolsOnly variant when the release has the
    uncompressed asset only. The asset is downloaded to
    [temp/appDevTools.asar] and the working file [temp/app.asar], which
    the replacement copies, is not written: on an empty temp directory the
    run stops at the replacement with ENOENT and the installed archive stays;
    with the working file of an earlier run in place, the run succeeds and
    installs those stale bytes instead of the asset. *)
Theorem devtools_uncompressed_asset_not_installed :
  let env := Demo.linux_devtools in
  let this := Demo.this_devtools in
  let md := Demo.release_devtools in
  resolveAsset this md = Some Demo.devtools_asset
  ∧ (downloadModFiles env this md Demo.installed).1 = Ret tt
  ∧ fs (downloadModFiles env this md Demo.installed).2
      !! join (tmpDir this) "appDevTools.asar" = Some (Demo.bytes "DEV")
  ∧ fs (downloadModFiles env this md Demo.installed).2 !! workingPath this
      = None
  ∧ (patch env this Demo.installed).1
      = Throw (FsError "ENOENT" (workingPath this))
  ∧ fs (patch env this Demo.installed).2 !! ymAsarPath this
      = Some (Demo.bytes "OLD")
  ∧ (patch env this Demo.installed_stale).1 = Ret tt
  ∧ fs (patch env this Demo.installed_stale).2 !! ymAsarPath this
      = Some (Demo.bytes "STALE").
Proof. vm_compute. split_and!; reflexivity. Qed.

(** ** Files the download step spares *)

Lemma spares_decompressFile (env : Env) (path source dest : string) :
  dest ≠ path → spares path (decompressFile env source dest).
Proof.
  intros Hne. unfold decompressFile.
  apply spares_bind; [apply spares_readFile|].
  intros data. destruct (unzip env data);
    [by apply spares_writeFile|apply spares_throw].
Qed.

Lemma spares_downloadModFiles (env : Env) (this : Patcher)
    (metadata : ReleaseMetadata) (path : string) :
  workingPath this ≠ path →
  (∀ asset, resolveAsset this metadata = Some asset →
            join (tmpDir this) (asset_name asset) ≠ path) →
  spares path (downloadModFiles env this metadata).
Proof.
  intros Hwork Hdest. unfold downloadModFiles.
  destruct (resolveAsset this metadata) as [asset|]; [|apply spares_throw].
  specialize (Hdest asset eq_refl).
  assert (Hdec : spares path
    (when (endsWith (asset_name asset) ".gz")
       (decompressFile env (join (tmpDir this) (asset_name asset))
          (workingPath this)))).
  { by apply spares_when, spares_decompressFile. }
  assert (Hfetch : spares path
    (emit (EDownload (browser_download_url asset) (githubToken (options this)));;
     match downloadStream env (browser_download_url asset)
             (githubToken (options this)) with
     | inl e => throw e
     | inr body =>
       writeFile (join (tmpDir this) (asset_name asset)) body;;
       match stream_error env (browser_download_url asset)
               (githubToken (options this)) with
       | Some e => throw e
       | None =>
         when (endsWith (asset_name asset) ".gz")
           (decompressFile env (join (tmpDir this) (asset_name asset))
              (workingPath this))
       end
     end)).
  { apply spares_bind; [by apply spares_emit|]. intros _.
    destruct (downloadStream env _ _); [apply spares_throw|].
    apply spares_bind; [by apply spares_writeFile|]. intros _.
    destruct (stream_error env _ _); [apply spares_throw|done]. }
  apply spares_bind; [apply spares_existsSync|]. intros cached.
  destruct (useCache (options this) && cached); [|done].
  apply spares_bind; [apply spares_stat_size|]. intros size.
  by destruct (bool_decide _).
Qed.

(** A normal run clears the temp directory but for the files whose name
    ends in [.backup]. *)
Lemma spares_clearCaches_backup (this : Patcher) :
  spares (backupPath this) (clearCaches this false).
Proof.
  unfold clearCaches. apply spares_bind; [by apply spares_still|].
  intros files. induction files as [|file files IH]; simpl; [apply spares_ret|].
  apply spares_bind; [|done].
  destruct (endsWith file ".backup") eqn:Hfile; [apply spares_ret|].
  apply spares_unlink. unfold backupPath. intros Heq.
  destruct (decide (file = "")) as [->|Hne].
  - unfold join in Heq. destruct (decide (tmpDir this = "")); [done|].
    simpl in Heq. by apply append_ne_self in Heq.
  - apply join_inj_r in Heq; [|done..]. by subst file.
Qed.

End CacheFacts.

(* ===================================================================== *)
(** * The run of [patch] *)
(* ===================================================================== *)

Module PatchFacts.
Import Run StringFacts MonadFacts IntegrityFacts ProcessFacts CacheFacts.

(** ** The paths of an instance *)

Lemma new_Patcher_asar (env : Env) (o : PatcherOptions) :
  ∃ pre, ymAsarPath (new_Patcher env o) = pre +:+ "esources/app.asar".
Proof.
  unfold new_Patcher. simpl. unfold resolveAsarPath.
  set (ym := or_else _ _).
  assert (H : ∀ dir seg, seg ≠ "" →
    ∃ pre, join (join dir seg) "app.asar" = pre +:+ seg +:+ "/app.asar").
  { intros dir seg Hseg. destruct (join_suffix dir seg Hseg) as [pre Hpre].
    exists pre. rewrite join_nonempty, Hpre; [|rewrite Hpre|done].
    - by rewrite append_assoc.
    - by apply append_nonempty_r. }
  destruct (platform env).
  - destruct (H ym "resources") as [pre ->]; [done|]. exists (pre +:+ "r").
    by rewrite append_assoc.
  - destruct (H (join ym "Contents") "Resources") as [pre ->]; [done|].
    exists (pre +:+ "R"). by rewrite append_assoc.
  - destruct (H ym "resources") as [pre ->]; [done|]. exists (pre +:+ "r").
    by rewrite append_assoc.
Qed.

Lemma new_Patcher_tmp (env : Env) (o : PatcherOptions) (name : string) :
  name ≠ "" →
  ∃ pre, join (tmpDir (new_Patcher env o)) name = pre +:+ "/temp/" +:+ name.
Proof.
  intros Hname. unfold new_Patcher. simpl.
  destruct (join_suffix (homedir env) ".ymmp-cache") as [pre Hpre]; [done|].
  assert (Hcache : join (homedir env) ".ymmp-cache" ≠ "").
  { rewrite Hpre. by apply append_nonempty_r. }
  exists (join (homedir env) ".ymmp-cache").
  rewrite (join_nonempty _ "temp") by done.
  rewrite join_nonempty; [|by apply append_nonempty_r|done].
  by rewrite append_assoc.
Qed.

Lemma new_Patcher_tmpDir (env : Env) (o : PatcherOptions) :
  tmpDir (new_Patcher env o) ≠ "".
Proof.
  unfold new_Patcher. simpl.
  destruct (join_suffix (homedir env) ".ymmp-cache") as [pre Hpre]; [done|].
  rewrite join_nonempty; [|rewrite Hpre|done].
  - by apply append_nonempty_r.
  - by apply append_nonempty_r.
Qed.

(** The archive of the application is none of the files the run keeps in
    its temp directory. *)
Lemma tmp_file_not_archive (env : Env) (o : PatcherOptions) (name : string) :
  name ∈ ["app.asar"; "app.asar.gz"; "appDevTools.asar";
          "appDevTools.asar.gz"; "app.asar.backup"] →
  join (tmpDir (new_Patcher env o)) name ≠ ymAsarPath (new_Patcher env o).
Proof.
  intros Hname.
  destruct (new_Patcher_asar env o) as [pre ->].
  destruct (new_Patcher_tmp env o name) as [pre' ->].
  { intros ->. repeat (apply elem_of_cons in Hname as [?|Hname]; [done|]).
    by apply not_elem_of_nil in Hname. }
  repeat (apply elem_of_cons in Hname as [->|Hname]).
  - apply (append_suffix_ne "/tem" "esource" "p/app.asar" "s/app.asar");
      [reflexivity..|discriminate].
  - apply (append_suffix_ne "/temp/app.asar.g" "esources/app.asa" "z" "r");
      [reflexivity..|discriminate].
  - apply (append_suffix_ne "/temp/appDevTool" "esources/ap" "s.asar" "p.asar");
      [reflexivity..|discriminate].
  - apply (append_suffix_ne "/temp/appDevTools.asar.g" "esources/app.asa"
             "z" "r"); [reflexivity..|discriminate].
  - apply (append_suffix_ne "/temp/app.asar.backu" "esources/app.asa" "p" "r");
      [reflexivity..|discriminate].
  - by apply not_elem_of_nil in Hname.
Qed.

(** The executable and its backup are not the backup of the archive. *)
Lemma exe_not_archive_backup (env : Env) (o : PatcherOptions) (exe : string) :
  let this := new_Patcher env o in
  ymExePath this = Some exe →
  exe ≠ backupPath this ∧ exe +:+ ".backup" ≠ backupPath this.
Proof.
  intros this. unfold backupPath.
  destruct (new_Patcher_tmp env o "app.asar.backup") as [pre' Htmp]; [done|].
  fold this in Htmp. rewrite Htmp.
  unfold this, new_Patcher, resolveExePath. simpl.
  destruct (platform env); [|done..]. intros [= <-].
  destruct (join_suffix (or_else (or_else (default "" (opt_customPath o))
                                    (config_customPath env))
                           (getDefaultYMPath env))
              "Яндекс Музыка.exe") as [pre ->]; [done|].
  split.
  - apply (append_suffix_ne "Яндекс Музыка.ex" "/temp/app.asar.backu" "e" "p");
      [reflexivity..|discriminate].
  - rewrite append_assoc.
    apply (append_suffix_ne "Яндекс Музыка.ex" "/temp/app.asa"
             "e.backup" "r.backup"); [reflexivity..|discriminate].
Qed.

(** ** The backup comes before the replacement *)

Lemma spares_checkInstallPossible (env : Env) (this : Patcher) (path : string) :
  spares path (checkInstallPossible env this).
Proof.
  unfold checkInstallPossible. apply spares_bind; [apply spares_existsSync|].
  intros found. destruct (negb found); [apply spares_ret|].
  destruct (access_rw env _); apply spares_ret.
Qed.

Lemma spares_calculateAsarHeaderHash (env : Env) (path asarPath : string) :
  spares path (calculateAsarHeaderHash env asarPath).
Proof.
  unfold calculateAsarHeaderHash. apply spares_bind; [apply spares_readFile|].
  intros data. destruct (header_sha256 env data);
    [apply spares_ret|apply spares_throw].
Qed.

Lemma patch_prepare_spares_archive (env : Env) (o : PatcherOptions) :
  let this := new_Patcher env o in
  spares (ymAsarPath this) (patch_prepare env this).
Proof.
  intros this. unfold patch_prepare.
  apply spares_bind; [apply spares_checkInstallPossible|]. intros check.
  destruct (negb (status check)); [apply spares_throw|].
  apply spares_bind; [apply spares_getYandexMusicProcesses|]. intros processes.
  apply spares_bind.
  { destruct processes; [apply spares_ret|].
    destruct (negb _); [apply spares_throw|apply spares_killProcesses]. }
  intros _. apply spares_bind.
  { destruct (platform env);
      [apply spares_calculateAsarHeaderHash|apply spares_ret..]. }
  intros originalHash. apply spares_bind; [by apply spares_emit|]. intros _.
  apply spares_bind.
  { destruct (getLatestRelease env _); [apply spares_throw|apply spares_ret]. }
  intros metadata. apply spares_bind.
  { apply spares_downloadModFiles.
    - apply tmp_file_not_archive. by left.
    - intros asset Hres. by eapply tmp_file_not_archive, resolveAsset_name. }
  intros _. apply spares_bind; [|intros; apply spares_ret].
  apply spares_copyFile, tmp_file_not_archive. do 4 right. by left.
Qed.

Lemma patch_prepare_copies_last (env : Env) (o : PatcherOptions) :
  let this := new_Patcher env o in
  copies_last (ymAsarPath this) (backupPath this) (patch_prepare env this).
Proof.
  intros this. unfold patch_prepare.
  apply copies_last_bind; [apply spares_checkInstallPossible|]. intros check.
  destruct (negb (status check)); [apply copies_last_throw|].
  apply copies_last_bind; [apply spares_getYandexMusicProcesses|].
  intros processes. apply copies_last_bind.
  { destruct processes; [apply spares_ret|].
    destruct (negb _); [apply spares_throw|apply spares_killProcesses]. }
  intros _. apply copies_last_bind.
  { destruct (platform env);
      [apply spares_calculateAsarHeaderHash|apply spares_ret..]. }
  intros originalHash. apply copies_last_bind; [by apply spares_emit|].
  intros _. apply copies_last_bind.
  { destruct (getLatestRelease env _); [apply spares_throw|apply spares_ret]. }
  intros metadata. apply copies_last_bind.
  { apply spares_downloadModFiles.
    - apply tmp_file_not_archive. by left.
    - intros asset Hres. by eapply tmp_file_not_archive, resolveAsset_name. }
  intros _. apply copies_last_copyFile.
  apply tmp_file_not_archive. do 4 right. by left.
Qed.

Lemma replace_and_finish_spare_backup (env : Env) (o : PatcherOptions)
    (processes : list Js.number) (originalHash : jsstring) :
  let this := new_Patcher env o in
  spares (backupPath this)
    (replaceAsar this;; patch_finish env this processes originalHash).
Proof.
  intros this. apply spares_bind.
  { apply spares_copyFile. symmetry. apply tmp_file_not_archive.
    do 4 right. by left. }
  intros _. unfold patch_finish. apply spares_bind.
  { destruct (platform env) eqn:Hplatform;
      [|apply spares_bypassIntegrityMac, temp_not_resigned;
          [apply new_Patcher_tmpDir|done]|apply spares_ret].
    apply spares_bind; [apply spares_calculateAsarHeaderHash|].
    intros newHash. apply spares_bypassIntegrityWin.
    intros exe Hexe. by apply exe_not_archive_backup. }
  intros _. apply spares_bind.
  { apply spares_when, spares_clearCaches_backup. }
  intros _. destruct processes; [apply spares_ret|].
  apply spares_launchYandexMusic.
Qed.

(** C3. In every run of [patch] of an instance made by the constructor:
    if the run stops before the replacement, the archive was not written.
    Otherwise the replacement is entered in a world where the last event is
    the copy of the archive to [temp/app.asar.backup], nothing wrote on the
    archive before, and the backup holds the bytes the archive had at the
    start of the run; whether [replaceAsar] then succeeds or throws, the
    backup still holds these bytes, and it holds them at the end of the
    run however the run ends. *)
Theorem backup_before_replace (env : Env) (o : PatcherOptions) (w0 : World) :
  let this := new_Patcher env o in
  let archive := ymAsarPath this in
  let backup := backupPath this in
  match patch_prepare env this w0 with
  | (Ret (processes, originalHash), w1) =>
    patch env this w0
      = (replaceAsar this;; patch_finish env this processes originalHash) w1
    ∧ ∃ original evs,
        fs w0 !! archive = Some original
        ∧ fs w1 !! archive = Some original
        ∧ fs w1 !! backup = Some original
        ∧ events_since w0 w1 = evs ++ [ECopyFile archive backup]
        ∧ count_writes archive evs = 0
        ∧ (∀ out w2, replaceAsar this w1 = (out, w2) →
             fs w2 !! backup = Some original)
        ∧ fs (patch env this w0).2 !! backup = Some original
  | (Throw e, w1) =>
    patch env this w0 = (Throw e, w1)
    ∧ fs w1 !! archive = fs w0 !! archive
    ∧ count_writes archive (events_since w0 w1) = 0
  | (Hang, w1) =>
    patch env this w0 = (Hang, w1)
    ∧ fs w1 !! archive = fs w0 !! archive
    ∧ count_writes archive (events_since w0 w1) = 0
  end.
Proof.
  intros this archive backup.
  pose proof (patch_prepare_spares_archive env o w0) as Hspare.
  pose proof (patch_prepare_copies_last env o w0) as Hcopy.
  fold this archive backup in Hspare, Hcopy.
  assert (Hpatch : patch env this w0 =
    match patch_prepare env this w0 with
    | (Ret (processes, originalHash), w1) =>
      (replaceAsar this;; patch_finish env this processes originalHash) w1
    | (Throw e, w1) => (Throw e, w1)
    | (Hang, w1) => (Hang, w1)
    end).
  { unfold patch. rewrite bind_run.
    by destruct (patch_prepare env this w0) as [[[? ?]|?|] ?]. }
  rewrite Hpatch. clear Hpatch.
  destruct (patch_prepare env this w0) as [[[processes originalHash]|e|] w1];
    simpl in Hspare.
  - split; [done|].
    destruct (Hcopy _ _ eq_refl)
      as (original & evs & Hsrc & Hsrc' & Hdest & Hlog & Hc).
    exists original, evs. split_and!; [done..| |done| |].
    + by apply events_since_app.
    + intros out w2. unfold replaceAsar, copyFile.
      destruct (fs w1 !! workingPath this) as [data|].
      * intros [= <- <-]. simpl. rewrite lookup_insert_ne; [done|].
        symmetry. apply tmp_file_not_archive. do 4 right. by left.
      * by intros [= <- <-].
    + destruct (replace_and_finish_spare_backup env o processes originalHash
                  w1) as [Hkeep _].
      fold this backup in Hkeep. by rewrite Hkeep.
  - destruct Hspare as (Hfs & evs & Hlog & Hc).
    by rewrite (events_since_app _ _ evs).
  - destruct Hspare as (Hfs & evs & Hlog & Hc).
    by rewrite (events_since_app _ _ evs).
Qed.

(** ** The installation check *)

(** X5. [patch] stops at once, with nothing touched, when the archive is
    missing or cannot be read and written. *)
Lemma patch_install_check (env : Env) (this : Patcher) (w : World) :
  (fs w !! ymAsarPath this = None →
   patch env this w = (Throw (InstallNotFoundError (ymAsarPath this)), w))
  ∧ (is_Some (fs w !! ymAsarPath this) →
     access_rw env (ymAsarPath this) = false →
     patch env this w = (Throw PermissionError, w)).
Proof.
  split.
  - intros Hnone. unfold patch, patch_prepare, checkInstallPossible.
    rewrite 3!bind_run. unfold existsSync. rewrite Hnone.
    rewrite bool_decide_false by (by intros [? ?]). reflexivity.
  - intros Hsome Haccess. unfold patch, patch_prepare, checkInstallPossible.
    rewrite 3!bind_run. unfold existsSync.
    rewrite bool_decide_true by done. cbn [negb]. by rewrite Haccess.
Qed.

Lemma patch_install_check_witness :
  patch Demo.windows Demo.this Cases.empty_world
  = (Throw (InstallNotFoundError (ymAsarPath Demo.this)), Cases.empty_world).
Proof.
  apply (proj1 (patch_install_check Demo.windows Demo.this Cases.empty_world)).
  reflexivity.
Defined.

(** ** The process gate *)

(** C4. When the installation check passes, the enumeration finds at least
    one instance and [force] is off, [patch] throws the process-running
    error right after the enumeration: the only event of the run is the
    enumeration command and the file system is the one the run started
    with. *)
Theorem patch_process_gate (env : Env) (this : Patcher) (w w1 : World)
    (pid : Js.number) (pids : list Js.number) :
  is_Some (fs w !! ymAsarPath this) →
  access_rw env (ymAsarPath this) = true →
  getYandexMusicProcesses env w = (Ret (pid :: pids), w1) →
  force (options this) = false →
  patch env this w = (Throw ProcessRunningError, w1)
  ∧ fs w1 = fs w
  ∧ events_since w w1 = [EExec (enumeration_command env)].
Proof.
  intros Hfound Haccess Hps Hforce.
  destruct (getYandexMusicProcesses_run env w) as (pids' & Hrun).
  rewrite Hps in Hrun. injection Hrun as _ ->.
  split; [|split; [done|by apply events_since_app]].
  assert (Hcheck : checkInstallPossible env this w
            = (Ret {| status := true; message := None; request := None |}, w)).
  { unfold checkInstallPossible. rewrite bind_run. unfold existsSync.
    rewrite bool_decide_true by done. cbn [negb]. by rewrite Haccess. }
  unfold patch, patch_prepare.
  rewrite 2!bind_run, Hcheck. cbn [status negb].
  rewrite bind_run, Hps. cbv beta iota.
  rewrite bind_run, Hforce. reflexivity.
Qed.

Lemma patch_process_gate_witness :
  patch Demo.linux_running Demo.this_running Demo.installed_running
  = (Throw ProcessRunningError,
     {| fs := fs Demo.installed_running;
        log := [EExec (enumeration_command Demo.linux_running)] |}).
Proof.
  apply (patch_process_gate Demo.linux_running Demo.this_running
           Demo.installed_running _ (Js.Num 1234) []).
  - vm_compute. eauto.
  - reflexivity.
  - vm_compute. reflexivity.
  - reflexivity.
Defined.

End PatchFacts.

(* ===================================================================== *)
(** * More on the integrity patch *)
(* ===================================================================== *)

Module IntegrityMore.
Import Buf BufFacts Run StringFacts MonadFacts IntegrityFacts.

Lemma scan_keeps_length (fuel : nat) (oldBuf newBuf cur : list byte)
    (offset : nat) (out : list byte) (hits : list nat) :
  scan fuel oldBuf newBuf cur offset = Some (out, hits) →
  length out = length cur.
Proof.
  revert cur offset out hits.
  induction fuel as [|fuel IH]; intros cur offset out hits; [done|].
  simpl. unfold scan_step. simpl.
  destruct (indexOf cur oldBuf offset) as [idx|];
    [|intros ?; by simplify_eq].
  destruct (scan fuel _ _ _ _) as [[out' hits']|] eqn:Hscan; [|done].
  intros ?. simplify_eq. apply IH in Hscan. by rewrite Hscan, copy_length.
Qed.

#[local] Arguments scan : simpl never.
#[local] Arguments indexOf : simpl never.

(** X1. The executable never changes length, whatever the two digests are and
    however the call ends: a new digest longer than the old one overwrites
    the bytes that follow and is cut at the end of the file. *)
Theorem bypassIntegrityWin_keeps_length (this : Patcher) (exe : string)
    (buf : list byte) (oldHash newHash : jsstring) (w : World) :
  ymExePath this = Some exe →
  fs w !! exe = Some buf →
  ∃ out, fs (bypassIntegrityWin this oldHash newHash w).2 !! exe = Some out
         ∧ length out = length buf.
Proof.
  intros Hexe Hbuf.
  destruct (decide (oldHash = newHash)) as [Heq|Hne].
  { rewrite bypassIntegrityWin_skip by auto. by exists buf. }
  rewrite (bypassIntegrityWin_run this exe buf) by done.
  destruct (indexOf _ _ _).
  - destruct (scan _ _ _ _ _) as [[out hits]|] eqn:Hscan; simpl.
    + exists out. rewrite lookup_insert_eq. split; [done|].
      by eapply scan_keeps_length.
    + exists buf. by rewrite after_exe_backup_exe.
  - simpl. exists buf. by rewrite after_exe_backup_exe.
Qed.

Lemma bypassIntegrityWin_keeps_length_witness :
  ∃ out,
    fs (bypassIntegrityWin Demo.this (Js.lit "ab") (Js.lit "WXYZ")
          (Demo.world_with_exe (Demo.bytes "abcab-ab"))).2 !! Demo.exe
    = Some out
    ∧ length out = 8.
Proof.
  apply (bypassIntegrityWin_keeps_length Demo.this Demo.exe
           (Demo.bytes "abcab-ab") (Js.lit "ab") (Js.lit "WXYZ")
           (Demo.world_with_exe (Demo.bytes "abcab-ab"))).
  - reflexivity.
  - vm_compute. reflexivity.
Defined.

End IntegrityMore.

(* ===================================================================== *)
(** * More on the download step *)
(* ===================================================================== *)

Module CacheMore.
Import Run Notions StringFacts MonadFacts CacheFacts.



(** A successful download step leaves the temp directory settled. *)
Lemma downloadModFiles_settles (env : Env) (this : Patcher)
    (metadata : ReleaseMetadata) (asset : ReleaseAsset) (w w1 : World) :
  resolveAsset this metadata = Some asset →
  downloadModFiles env this metadata w = (Ret tt, w1) →
  settled env this asset w1.
Proof.
  intros Hres Hrun. unfold settled.
  destruct (cache_hit_or_miss this asset w)
    as [(Hcache & cached & Hfile & Hsize)|Hmiss].
  - rewrite (downloadModFiles_cached env this metadata asset cached) in Hrun
      by done.
    exists cached.
    destruct (endsWith (asset_name asset) ".gz") eqn:Hgz.
    + rewrite (decompressFile_run env _ _ cached) in Hrun by done.
      destruct (unzip env cached) as [d|]; [|done].
      injection Hrun as <-. simpl.
      rewrite lookup_insert_ne by (by apply gz_dest_not_working).
      split_and!; [done| |].
      * intros _. exists d. by rewrite lookup_insert_eq.
      * intros [?|?]; [done|congruence].
    + injection Hrun as <-. split_and!; [done|done|].
      intros [?|?]; [done|congruence].
  - rewrite (downloadModFiles_fetch env this metadata asset) in Hrun by done.
    destruct (downloadStream env _ _) as [e|body]; [done|].
    destruct (stream_error env _ _) as [broken|]; [done|].
    exists body.
    destruct (endsWith (asset_name asset) ".gz") eqn:Hgz.
    + rewrite (decompressFile_run env _ _ body) in Hrun
        by (simpl; apply lookup_insert_eq).
      destruct (unzip env body) as [d|]; [|done].
      injection Hrun as <-. simpl.
      rewrite lookup_insert_ne by (by apply gz_dest_not_working).
      rewrite lookup_insert_eq.
      split_and!; [done| |done].
      intros _. exists d. by rewrite lookup_insert_eq.
    + injection Hrun as <-. simpl. rewrite lookup_insert_eq.
      split_and!; done.
Qed.

(** On a settled temp directory the download step returns normally and
    changes no file; it asks the network only when the local copy has not
    the declared size or the cache is off. *)
Lemma downloadModFiles_settled (env : Env) (this : Patcher)
    (metadata : ReleaseMetadata) (asset : ReleaseAsset) (w : World) :
  resolveAsset this metadata = Some asset →
  settled env this asset w →
  ∃ w', downloadModFiles env this metadata w = (Ret tt, w')
    ∧ fs w' = fs w
    ∧ (useCache (options this) = true →
       (∀ body, downloadStream env (browser_download_url asset)
                  (githubToken (options this)) = inr body →
                Z.of_nat (length body) = asset_size asset) →
       filter (λ e, is_download e = true) (events_since w w') = []).
Proof.
  intros Hres (content & Hdest & Hwork & Hfetch).
  destruct (cache_hit_or_miss this asset w)
    as [(Hcache & cached & Hfile & Hsize)|Hmiss].
  - rewrite Hdest in Hfile. injection Hfile as <-.
    rewrite (downloadModFiles_cached env this metadata asset content) by done.
    destruct (endsWith (asset_name asset) ".gz").
    + destruct Hwork as (d & Hd & Hw1); [done|].
      rewrite (decompressFile_run env _ _ content), Hd by done.
      eexists. split; [done|]. simpl. split; [by apply insert_id|].
      intros _ _.
      by rewrite (events_since_app _ _ [EWriteFile (workingPath this)]).
    + eexists. split_and!; [done..|]. intros _ _. by rewrite events_since_refl.
  - assert (Hbody : downloadStream env (browser_download_url asset)
                      (githubToken (options this)) = inr content
                    ∧ stream_error env (browser_download_url asset)
                        (githubToken (options this)) = None).
    { apply Hfetch. destruct Hmiss as [?|[Hnone|(c & Hc & Hne)]];
        [by right|congruence|left]. congruence. }
    destruct Hbody as [Hbody Hwhole].
    assert (Hclash : useCache (options this) = true →
      Z.of_nat (length content) = asset_size asset → False).
    { intros Hon Hsize.
      destruct Hmiss as [?|[Hnone|(c & Hc & Hne)]]; [congruence..|].
      rewrite Hdest in Hc. injection Hc as <-. by apply Hne. }
    rewrite (downloadModFiles_fetch env this metadata asset) by done.
    rewrite Hbody, Hwhole.
    assert (Hsame : <[join (tmpDir this) (asset_name asset) := content]>
                      (fs w) = fs w) by by apply insert_id.
    destruct (endsWith (asset_name asset) ".gz").
    + destruct Hwork as (d & Hd & Hw1); [done|].
      rewrite (decompressFile_run env _ _ content), Hd
        by (simpl; apply lookup_insert_eq).
      eexists. split; [done|]. simpl. rewrite Hsame.
      split; [by apply insert_id|].
      intros Hon Hsize. exfalso. apply Hclash; [done|by apply Hsize].
    + eexists. split; [done|]. simpl. rewrite Hsame.
      split; [done|].
      intros Hon Hsize. exfalso. apply Hclash; [done|by apply Hsize].
Qed.

(** Being settled is a matter of the local copy and of the working file
    only. *)
Lemma settled_agree (env : Env) (this : Patcher) (asset : ReleaseAsset)
    (w w' : World) :
  fs w' !! join (tmpDir this) (asset_name asset)
    = fs w !! join (tmpDir this) (asset_name asset) →
  fs w' !! workingPath this = fs w !! workingPath this →
  settled env this asset w → settled env this asset w'.
Proof.
  intros Hd Hw (content & Hdest & Hwork & Hfetch). exists content.
  rewrite Hd, Hw. done.
Qed.

(** X3. With the cache on, a local copy of the compressed asset that has the
    declared size but cannot be decompressed is never fetched again: the
    step throws the zlib error, asks nothing from the network and leaves
    the machine as it was, so that running it again fails the same way. *)
Theorem downloadModFiles_corrupt_cache (env : Env) (this : Patcher)
    (metadata : ReleaseMetadata) (asset : ReleaseAsset)
    (cached : list byte) (w : World) :
  resolveAsset this metadata = Some asset →
  useCache (options this) = true →
  endsWith (asset_name asset) ".gz" = true →
  fs w !! join (tmpDir this) (asset_name asset) = Some cached →
  Z.of_nat (length cached) = asset_size asset →
  unzip env cached = None →
  downloadModFiles env this metadata w = (Throw ZlibError, w).
Proof.
  intros Hres Hcache Hgz Hfile Hsize Hzip.
  rewrite (downloadModFiles_cached env this metadata asset cached) by done.
  rewrite Hgz.
  by rewrite (decompressFile_run env _ _ cached), Hzip.
Qed.

Lemma downloadModFiles_corrupt_cache_witness :
  downloadModFiles Demo.windows Demo.this Demo.release Cases.corrupt_world
  = (Throw ZlibError, Cases.corrupt_world).
Proof.
  apply (downloadModFiles_corrupt_cache Demo.windows Demo.this Demo.release
           Demo.gz_asset (Demo.bytes "JUNK")); vm_compute; reflexivity.
Defined.

(** X4. After a call of the download step that returned, a second call with
    the cache on and a local copy of the declared size asks nothing from
    the network, whatever the server would answer then, returns normally
    and changes no file. *)
Theorem downloadModFiles_twice (env : Env) (this : Patcher)
    (metadata : ReleaseMetadata) (asset : ReleaseAsset) (w w1 : World)
    (content : list byte)
    (download : string → string → error + list byte)
    (broken : string → string → option error) :
  resolveAsset this metadata = Some asset →
  downloadModFiles env this metadata w = (Ret tt, w1) →
  useCache (options this) = true →
  fs w1 !! join (tmpDir this) (asset_name asset) = Some content →
  Z.of_nat (length content) = asset_size asset →
  let '(out, w2) :=
    downloadModFiles (with_download env download broken) this metadata w1 in
  out = Ret tt
  ∧ fs w2 = fs w1
  ∧ filter (λ e, is_download e = true) (events_since w1 w2) = [].
Proof.
  intros Hres Hrun Hon Hcopy Hsize.
  destruct (downloadModFiles_settles env this metadata asset w w1 Hres Hrun)
    as (content' & Hdest & Hwork & _).
  rewrite Hcopy in Hdest. injection Hdest as <-.
  rewrite (downloadModFiles_cached (with_download env download broken) this
             metadata asset content) by done.
  destruct (endsWith (asset_name asset) ".gz").
  - destruct Hwork as (decompressed & Hunzip & Hworking); [done|].
    rewrite (decompressFile_run _ _ _ content) by done.
    change (unzip (with_download env download broken) content)
      with (unzip env content).
    rewrite Hunzip. simpl. split_and!; [done|by apply insert_id|].
    by rewrite (events_since_app _ _ [EWriteFile (workingPath this)]).
  - split_and!; [done..|]. by rewrite events_since_refl.
Qed.

Lemma downloadModFiles_twice_witness :
  let w1 := (downloadModFiles Demo.windows Demo.this Demo.release
               Cases.empty_world).2 in
  let w2 := (downloadModFiles Cases.windows_broken Demo.this Demo.release
               w1).2 in
  fs w2 = fs w1.
Proof.
  intros w1 w2.
  pose proof (downloadModFiles_twice Demo.windows Demo.this Demo.release
                Demo.gz_asset Cases.empty_world w1 (x1f :: Demo.bytes "NEW")
                (λ _ _, inr [x1f; x4e]) (λ _ _, Some (Error "aborted"))) as H.
  change (with_download Demo.windows (λ _ _, inr [x1f; x4e])
            (λ _ _, Some (Error "aborted")))
    with Cases.windows_broken in H.
  subst w2.
  destruct (downloadModFiles Cases.windows_broken Demo.this Demo.release w1)
    as [out w2].
  destruct H as (_ & Hfs & _); [vm_compute; reflexivity..|].
  exact Hfs.
Defined.

End CacheMore.

(* ===================================================================== *)
(** * A whole run of [patch], and a second one *)
(* ===================================================================== *)

Module PatchMore.
Import Run Notions StringFacts MonadFacts IntegrityFacts ProcessFacts.
Import CacheFacts PatchFacts CacheMore.

(** ** Steps of a run *)

Lemma ret_run {A} (a : A) (w : World) : (mret a : M A) w = (Ret a, w).
Proof. reflexivity. Qed.

Lemma bind_ret_inv {A B} (m : M A) (f : A → M B) (w w' : World) (b : B) :
  (m ≫= f) w = (Ret b, w') →
  ∃ a w1, m w = (Ret a, w1) ∧ f a w1 = (Ret b, w').
Proof.
  rewrite bind_run. destruct (m w) as [[a|e|] w1]; [|done..]. eauto.
Qed.

Lemma spares_run {A} (path : string) (m : M A) (w w' : World)
    (out : outcome A) :
  spares path m → m w = (out, w') → fs w' !! path = fs w !! path.
Proof. intros H Hrun. destruct (H w) as [Hfs _]. by rewrite Hrun in Hfs. Qed.

Lemma spares_fs {A} (m : M A) (w : World) :
  (∀ path, spares path m) → fs (m w).2 = fs w.
Proof. intros H. apply map_eq. intros path. by destruct (H path w) as [? _]. Qed.

Lemma copyFile_inv (src dest : string) (w w' : World) :
  copyFile src dest w = (Ret tt, w') →
  ∃ data, fs w !! src = Some data ∧ fs w' = <[dest := data]> (fs w).
Proof.
  unfold copyFile. destruct (fs w !! src) as [data|]; [|done].
  intros [= <-]. eauto.
Qed.

Lemma checkInstallPossible_inv (env : Env) (this : Patcher) (w w' : World)
    (check : CheckResult) :
  checkInstallPossible env this w = (Ret check, w') →
  status check = true →
  w' = w ∧ is_Some (fs w !! ymAsarPath this)
  ∧ access_rw env (ymAsarPath this) = true.
Proof.
  unfold checkInstallPossible. rewrite bind_run. unfold existsSync.
  destruct (bool_decide (is_Some (fs w !! ymAsarPath this))) eqn:Hfound;
    cbn [negb].
  - destruct (access_rw env (ymAsarPath this)); intros [= <- <-]; [|done].
    intros _. split_and!; [done| |done]. by apply bool_decide_eq_true in Hfound.
  - by intros [= <- <-].
Qed.

Lemma checkInstallPossible_ok (env : Env) (this : Patcher) (w : World) :
  is_Some (fs w !! ymAsarPath this) →
  access_rw env (ymAsarPath this) = true →
  checkInstallPossible env this w
  = (Ret {| status := true; message := None; request := None |}, w).
Proof.
  intros Hsome Hacc. unfold checkInstallPossible. rewrite bind_run.
  unfold existsSync. rewrite bool_decide_true by done. cbn [negb].
  by rewrite Hacc.
Qed.

Lemma kill_each (pids : list Js.number) (w : World) :
  foldr (λ pid rest, emit (EKill pid);; rest) (mret tt) pids w
  = (Ret tt, {| fs := fs w; log := log w ++ map EKill pids |}).
Proof.
  revert w. induction pids as [|pid pids IH]; intros w.
  - destruct w. simpl. by rewrite app_nil_r.
  - cbn [foldr map]. rewrite bind_run. unfold emit at 1. cbv beta iota.
    rewrite IH. simpl. by rewrite <- app_assoc.
Qed.

Lemma killProcesses_run (pids : list Js.number) (w : World) :
  killProcesses pids w
  = (Ret tt, {| fs := fs w;
                log := log w ++ map EKill pids ++ [ESleep 2000] |}).
Proof.
  unfold killProcesses. rewrite bind_run, kill_each. unfold emit. simpl.
  by rewrite <- app_assoc.
Qed.

(** What the enumeration returns depends on the answer of the command
    only. *)
Lemma getYandexMusicProcesses_static (env : Env) (w w' : World) :
  (getYandexMusicProcesses env w).1 = (getYandexMusicProcesses env w').1.
Proof.
  destruct (getYandexMusicProcesses_run env w) as [pids Hp].
  unfold getYandexMusicProcesses in *. rewrite bind_run in *.
  unfold emit in *.
  destruct (exec env (enumeration_command env)) as [stdout|]; [|done].
  by destruct (negb (Js.truthy (Js.trim stdout))).
Qed.

Lemma calculateAsarHeaderHash_at (env : Env) (path : string) (w : World)
    (data : list byte) :
  fs w !! path = Some data →
  calculateAsarHeaderHash env path w =
  match header_sha256 env data with
  | Some digest => (Ret digest, w)
  | None => (Throw AsarHeaderError, w)
  end.
Proof.
  intros Hdata. unfold calculateAsarHeaderHash. rewrite bind_run.
  unfold readFile. rewrite Hdata. by destruct (header_sha256 env data).
Qed.

(** Whether the relaunch succeeds depends on the answer of the command
    only, and it writes no file. *)
Lemma launchYandexMusic_static (env : Env) (this : Patcher) (w w' : World) :
  (launchYandexMusic env this w).1 = Ret tt →
  (launchYandexMusic env this w').1 = Ret tt.
Proof.
  unfold launchYandexMusic. destruct (platform env); [| |done].
  - intros _. rewrite bind_run. unfold existsSync.
    by destruct (bool_decide _).
  - rewrite !bind_run. unfold emit. by destruct (exec env _).
Qed.

(** ** More on the paths of an instance *)

Lemma new_Patcher_exe (env : Env) (o : PatcherOptions) (exe : string) :
  ymExePath (new_Patcher env o) = Some exe →
  ∃ pre, exe = pre +:+ "Яндекс Музыка.exe".
Proof.
  unfold new_Patcher, resolveExePath. simpl.
  destruct (platform env); [|done..]. intros [= <-].
  by apply join_suffix.
Qed.

(** The executable and its backup are none of the files the download step
    writes in the temp directory. *)
Lemma exe_not_tmp_file (env : Env) (o : PatcherOptions) (exe name : string) :
  let this := new_Patcher env o in
  ymExePath this = Some exe →
  name ∈ ["app.asar"; "app.asar.gz"; "appDevTools.asar";
          "appDevTools.asar.gz"] →
  exe ≠ join (tmpDir this) name ∧ exe +:+ ".backup" ≠ join (tmpDir this) name.
Proof.
  intros this Hexe Hname.
  destruct (new_Patcher_exe env o exe Hexe) as [pre ->].
  destruct (new_Patcher_tmp env o name) as [pre' Htmp].
  { intros ->. repeat (apply elem_of_cons in Hname as [?|Hname]; [done|]).
    by apply not_elem_of_nil in Hname. }
  fold this in Htmp. rewrite Htmp, append_assoc.
  repeat (apply elem_of_cons in Hname as [->|Hname]);
    [..|by apply not_elem_of_nil in Hname]; split.
  - apply (append_suffix_ne "Яндекс Музыка.ex" "/temp/app.asa" "e" "r");
      [reflexivity..|discriminate].
  - apply (append_suffix_ne "Яндекс Музыка.exe.backu" "/temp/app.asa"
             "p" "r"); [reflexivity..|discriminate].
  - apply (append_suffix_ne "Яндекс Музыка.ex" "/temp/app.asar.g" "e" "z");
      [reflexivity..|discriminate].
  - apply (append_suffix_ne "Яндекс Музыка.exe.backu" "/temp/app.asar.g"
             "p" "z"); [reflexivity..|discriminate].
  - apply (append_suffix_ne "Яндекс Музыка.ex" "/temp/appDevTools.asa"
             "e" "r"); [reflexivity..|discriminate].
  - apply (append_suffix_ne "Яндекс Музыка.exe.backu" "/temp/appDevTools.asa"
             "p" "r"); [reflexivity..|discriminate].
  - apply (append_suffix_ne "Яндекс Музыка.ex" "/temp/appDevTools.asar.g"
             "e" "z"); [reflexivity..|discriminate].
  - apply (append_suffix_ne "Яндекс Музыка.exe.backu"
             "/temp/appDevTools.asar.g" "p" "z"); [reflexivity..|discriminate].
Qed.

(** Nor are they the archive. *)
Lemma exe_not_archive (env : Env) (o : PatcherOptions) (exe : string) :
  let this := new_Patcher env o in
  ymExePath this = Some exe →
  exe ≠ ymAsarPath this ∧ exe +:+ ".backup" ≠ ymAsarPath this.
Proof.
  intros this Hexe.
  destruct (new_Patcher_exe env o exe Hexe) as [pre ->].
  destruct (new_Patcher_asar env o) as [pre' Hasar].
  fold this in Hasar. rewrite Hasar, append_assoc. split.
  - apply (append_suffix_ne "Яндекс Музыка.ex" "esources/app.asa" "e" "r");
      [reflexivity..|discriminate].
  - apply (append_suffix_ne "Яндекс Музыка.exe.backu" "esources/app.asa"
             "p" "r"); [reflexivity..|discriminate].
Qed.

(** The asset chosen has one of the four names the search looks for. *)
Lemma resolveAsset_names (this : Patcher) (metadata : ReleaseMetadata)
    (asset : ReleaseAsset) :
  resolveAsset this metadata = Some asset →
  asset_name asset ∈ ["app.asar"; "app.asar.gz"; "appDevTools.asar";
                      "appDevTools.asar.gz"].
Proof.
  unfold resolveAsset, assetPrefix.
  pose proof (find_first_named
                (match patchType (options this) with
                 | default_type => "app.asar"
                 | devtoolsOnly => "appDevTools.asar"
                 end +:+ ".gz") (assets metadata)) as Hgz.
  pose proof (find_first_named
                (match patchType (options this) with
                 | default_type => "app.asar"
                 | devtoolsOnly => "appDevTools.asar"
                 end) (assets metadata)) as Hplain.
  destruct (List.find _ (assets metadata)) as [a|].
  - intros [= <-]. destruct Hgz as [_ ->].
    destruct (patchType (options this)); simpl;
      repeat first [by left | right].
  - destruct (List.find _ (assets metadata)) as [a|]; [|done].
    intros [= <-]. destruct Hplain as [_ ->].
    destruct (patchType (options this)); simpl;
      repeat first [by left | right].
Qed.

(** The backup of the archive is neither the working file nor the local
    copy of the asset. *)
Lemma backup_not_tmp_file (this : Patcher) (name : string) :
  name ∈ ["app.asar"; "app.asar.gz"; "appDevTools.asar";
          "appDevTools.asar.gz"] →
  backupPath this ≠ join (tmpDir this) name.
Proof.
  intros Hname Heq. unfold backupPath in Heq.
  apply join_inj_r in Heq; [|done|].
  - subst name. repeat (apply elem_of_cons in Hname as [?|Hname]; [done|]).
    by apply not_elem_of_nil in Hname.
  - intros ->. repeat (apply elem_of_cons in Hname as [?|Hname]; [done|]).
    by apply not_elem_of_nil in Hname.
Qed.

(** With the cache kept, what follows the replacement writes on the
    executable and on its backup only, and lets the signing tool rewrite
    what it can. *)
Lemma spares_patch_finish_keep (env : Env) (this : Patcher)
    (processes : list Js.number) (originalHash : jsstring) (path : string) :
  keepCache (options this) = true →
  resigned this path = false →
  (∀ exe, ymExePath this = Some exe →
          exe ≠ path ∧ exe +:+ ".backup" ≠ path) →
  spares path (patch_finish env this processes originalHash).
Proof.
  intros Hkeep Hsigned Hexe. unfold patch_finish. apply spares_bind.
  { destruct (platform env);
      [|by apply spares_bypassIntegrityMac|apply spares_ret].
    apply spares_bind; [apply spares_calculateAsarHeaderHash|].
    intros newHash. by apply spares_bypassIntegrityWin. }
  intros _. apply spares_bind.
  { rewrite Hkeep. apply spares_ret. }
  intros _. destruct processes; [apply spares_ret|].
  apply spares_launchYandexMusic.
Qed.

(** ** A run that returns *)

(** What a run that returned went through, with the cache kept. *)
Lemma patch_returned (env : Env) (o : PatcherOptions) (w0 wA : World) :
  let this := new_Patcher env o in
  keepCache (options this) = true →
  patch env this w0 = (Ret tt, wA) →
  ∃ metadata asset content,
    getLatestRelease env (githubToken (options this)) = inr metadata
    ∧ resolveAsset this metadata = Some asset
    ∧ settled env this asset wA
    ∧ fs wA !! ymAsarPath this = Some content
    ∧ fs wA !! workingPath this = Some content
    ∧ access_rw env (ymAsarPath this) = true
    ∧ (platform env = win32 → is_Some (header_sha256 env content))
    ∧ (∀ pid pids w,
         (getYandexMusicProcesses env w0).1 = Ret (pid :: pids) →
         force (options this) = true
         ∧ (launchYandexMusic env this w).1 = Ret tt).
Proof.
  intros this Hkeep Hrun. unfold patch in Hrun.
  apply bind_ret_inv in Hrun as ([processes originalHash] & w1 & Hprep & Hrun).
  apply bind_ret_inv in Hrun as ([] & w2 & Hrep & Hfin).
  unfold patch_prepare in Hprep.
  apply bind_ret_inv in Hprep as (check & wa & Hcheck & Hprep).
  destruct (negb (status check)) eqn:Hstatus; [done|].
  apply negb_false_iff in Hstatus.
  apply checkInstallPossible_inv in Hcheck as (-> & _ & Hacc); [|done].
  apply bind_ret_inv in Hprep as (pids & wb & Hpids & Hprep).
  apply bind_ret_inv in Hprep as ([] & wc & Hkill & Hprep).
  apply bind_ret_inv in Hprep as (hash & wd & Hhash & Hprep).
  apply bind_ret_inv in Hprep as ([] & we & Hemit & Hprep).
  apply bind_ret_inv in Hprep as (metadata & wf & Hmeta & Hprep).
  apply bind_ret_inv in Hprep as ([] & wg & Hdown & Hprep).
  apply bind_ret_inv in Hprep as ([] & wh & Hbackup & Hprep).
  injection Hprep as <- <- <-.
  destruct (getLatestRelease env (githubToken (options this)))
    as [e|metadata'] eqn:Hrelease; [done|].
  injection Hmeta as <- <-.
  assert (∃ asset, resolveAsset this metadata' = Some asset) as [asset Hres].
  { unfold downloadModFiles in Hdown.
    destruct (resolveAsset this metadata'); [eauto|done]. }
  pose proof (resolveAsset_names this metadata' asset Hres) as Hname.
  assert (Hname' : asset_name asset ∈
            ["app.asar"; "app.asar.gz"; "appDevTools.asar";
             "appDevTools.asar.gz"; "app.asar.backup"]).
  { by eapply resolveAsset_name. }
  assert (Hwname : "app.asar" ∈
            ["app.asar"; "app.asar.gz"; "appDevTools.asar";
             "appDevTools.asar.gz"]) by by left.
  pose proof (downloadModFiles_settles env this metadata' asset _ _ Hres Hdown)
    as Hset.
  (* the replacement *)
  unfold replaceAsar in Hrep.
  pose proof Hrep as Hcopy.
  apply copyFile_inv in Hcopy as (content & Hwork & Hfs2).
  (* the files after the backup, the replacement and the rest *)
  assert (Hframe : ∀ name,
    name ∈ ["app.asar"; "app.asar.gz"; "appDevTools.asar";
            "appDevTools.asar.gz"] →
    fs wA !! join (tmpDir this) name = fs wg !! join (tmpDir this) name).
  { intros name Hn.
    assert (Hne1 : ymAsarPath this ≠ join (tmpDir this) name).
    { symmetry. apply tmp_file_not_archive.
      repeat (apply elem_of_cons in Hn as [->|Hn]);
        [repeat first [by left | right]..|by apply not_elem_of_nil in Hn]. }
    assert (Hne2 : backupPath this ≠ join (tmpDir this) name)
      by by apply backup_not_tmp_file.
    assert (Hsigned : resigned this (join (tmpDir this) name) = false).
    { apply temp_not_resigned; [apply new_Patcher_tmpDir|]. intros ->.
      repeat (apply elem_of_cons in Hn as [?|Hn]; [done|]).
      by apply not_elem_of_nil in Hn. }
    etrans; [exact (spares_run _ _ _ _ _
                      (spares_patch_finish_keep env this pids hash _ Hkeep
                         Hsigned
                         (λ exe Hexe, exe_not_tmp_file env o exe name Hexe Hn))
                      Hfin)|].
    etrans; [exact (spares_run _ _ _ _ _ (spares_copyFile _ _ _ Hne1) Hrep)|].
    exact (spares_run _ _ _ _ _ (spares_copyFile _ _ _ Hne2) Hbackup). }
  assert (Harch : fs wA !! ymAsarPath this = Some content).
  { etrans; [exact (spares_run _ _ _ _ _
                      (spares_patch_finish_keep env this pids hash _ Hkeep
                         (archive_not_resigned this)
                         (exe_not_archive env o))
                      Hfin)|].
    rewrite Hfs2. apply lookup_insert_eq. }
  assert (Hworking : fs wA !! workingPath this = Some content).
  { etrans; [exact (Hframe "app.asar" Hwname)|].
    etrans; [|exact Hwork]. symmetry.
    exact (spares_run _ _ _ _ _
             (spares_copyFile _ _ _ (backup_not_tmp_file this "app.asar" Hwname))
             Hbackup). }
  exists metadata', asset, content. split_and!; [done|done| |done|done|done| |].
  - eapply settled_agree; [..|exact Hset].
    + by apply Hframe.
    + by apply (Hframe "app.asar").
  - intros Hwin. unfold patch_finish in Hfin.
    apply bind_ret_inv in Hfin as ([] & wi & Hint & _).
    rewrite Hwin in Hint.
    apply bind_ret_inv in Hint as (newHash & wj & Hnew & _).
    rewrite (calculateAsarHeaderHash_at env _ w2 content) in Hnew
      by (rewrite Hfs2; apply lookup_insert_eq).
    destruct (header_sha256 env content); [eauto|done].
  - intros pid pids' w Hfound.
    rewrite Hpids in Hfound. simpl in Hfound. injection Hfound as ->.
    split.
    + destruct (force (options this)); [done|]. done.
    + unfold patch_finish in Hfin.
      apply bind_ret_inv in Hfin as ([] & wi & _ & Hfin).
      apply bind_ret_inv in Hfin as ([] & wj & _ & Hlaunch).
      apply (launchYandexMusic_static env this wj). by rewrite Hlaunch.
Qed.

(** X6. On a normal return, with the cache kept, the archive of the
    application holds what the working file [temp/app.asar] holds; when
    the asset of the release is compressed this is the decompression of
    its local copy. *)
Theorem patch_installs_working_file (env : Env) (o : PatcherOptions)
    (w0 wA : World) :
  let this := new_Patcher env o in
  keepCache (options this) = true →
  patch env this w0 = (Ret tt, wA) →
  ∃ metadata asset content,
    getLatestRelease env (githubToken (options this)) = inr metadata
    ∧ resolveAsset this metadata = Some asset
    ∧ fs wA !! ymAsarPath this = Some content
    ∧ fs wA !! workingPath this = Some content
    ∧ (endsWith (asset_name asset) ".gz" = true →
       ∃ compressed,
         fs wA !! join (tmpDir this) (asset_name asset) = Some compressed
         ∧ unzip env compressed = Some content).
Proof.
  intros this Hkeep Hrun.
  destruct (patch_returned env o w0 wA Hkeep Hrun)
    as (metadata & asset & content & Hmeta & Hres & Hset & Harch & Hwork & _).
  exists metadata, asset, content. split_and!; [done..|].
  intros Hgz. destruct Hset as (compressed & Hdest & Hunzip & _).
  destruct (Hunzip Hgz) as (decompressed & Hdec & Hwork').
  exists compressed. split; [done|].
  pose proof (eq_trans (eq_sym Hwork) Hwork') as Heq.
  by injection Heq as ->.
Qed.

Lemma patch_installs_working_file_witness :
  let wA := (patch Demo.windows Demo.this Demo.installed_windows).2 in
  fs wA !! ymAsarPath Demo.this = fs wA !! workingPath Demo.this.
Proof.
  intros wA.
  destruct (patch_installs_working_file Demo.windows
              (Demo.with_type default_type) Demo.installed_windows wA)
    as (metadata & asset & content & _ & _ & Harch & Hwork & _);
    [vm_compute; reflexivity..|].
  exact (eq_trans Harch (eq_sym Hwork)).
Defined.

(** ** A second run *)

(** The steps of [patch] from the digest to the backup, on a temp
    directory that is settled. *)
Lemma patch_prepare_tail (env : Env) (this : Patcher)
    (metadata : ReleaseMetadata) (asset : ReleaseAsset)
    (content : list byte) (processes : list Js.number) (hash : jsstring)
    (w : World) :
  fs w !! ymAsarPath this = Some content →
  (platform env = win32 → header_sha256 env content = Some hash) →
  (platform env ≠ win32 → hash = []) →
  getLatestRelease env (githubToken (options this)) = inr metadata →
  resolveAsset this metadata = Some asset →
  settled env this asset w →
  ∃ w1,
    (originalHash ←
       match platform env with
       | win32 => calculateAsarHeaderHash env (ymAsarPath this)
       | _ => mret []
       end;
     emit (EFetchRelease (githubToken (options this)));;
     metadata ←
       match getLatestRelease env (githubToken (options this)) with
       | inl e => throw e
       | inr metadata => mret metadata
       end;
     downloadModFiles env this metadata;;
     createBackup this;;
     mret (processes, originalHash)) w = (Ret (processes, hash), w1)
    ∧ fs w1 = <[backupPath this := content]> (fs w).
Proof.
  intros Harch Hwin Hother Hmeta Hres Hset.
  assert (Hhash :
    match platform env with
    | win32 => calculateAsarHeaderHash env (ymAsarPath this)
    | _ => mret []
    end w = (Ret hash, w)).
  { destruct (platform env) eqn:Hplatform.
    - rewrite (calculateAsarHeaderHash_at env _ w content) by done.
      by rewrite Hwin.
    - by rewrite Hother.
    - by rewrite Hother. }
  rewrite bind_run, Hhash. cbv beta iota.
  rewrite bind_run. unfold emit at 1. cbv beta iota.
  rewrite bind_run, Hmeta, ret_run. cbv beta iota.
  set (we := {| fs := fs w; log := _ |}).
  destruct (downloadModFiles_settled env this metadata asset we Hres)
    as (wg & Hdown & Hfs & _).
  { eapply settled_agree; [..|exact Hset]; done. }
  rewrite bind_run, Hdown. cbv beta iota.
  rewrite bind_run. unfold createBackup, copyFile.
  assert (Harch' : fs wg !! ymAsarPath this = Some content)
    by by rewrite Hfs.
  rewrite Harch'. cbv beta iota. rewrite ret_run.
  eexists. split; [done|]. simpl. by rewrite Hfs.
Qed.

(** [patch] up to the backup, on a temp directory that is settled: it
    stops at the process gate or it returns, and then only the backup of
    the archive was written. *)
Lemma patch_prepare_settled (env : Env) (this : Patcher)
    (metadata : ReleaseMetadata) (asset : ReleaseAsset)
    (content : list byte) (hash : jsstring) (w : World) :
  fs w !! ymAsarPath this = Some content →
  access_rw env (ymAsarPath this) = true →
  (platform env = win32 → header_sha256 env content = Some hash) →
  (platform env ≠ win32 → hash = []) →
  getLatestRelease env (githubToken (options this)) = inr metadata →
  resolveAsset this metadata = Some asset →
  settled env this asset w →
  ∃ pids,
    (getYandexMusicProcesses env w).1 = Ret pids
    ∧ ((pids ≠ [] ∧ force (options this) = false
        ∧ ∃ w1, patch_prepare env this w = (Throw ProcessRunningError, w1)
                ∧ fs w1 = fs w)
       ∨ ∃ w1, patch_prepare env this w = (Ret (pids, hash), w1)
               ∧ fs w1 = <[backupPath this := content]> (fs w)).
Proof.
  intros Harch Hacc Hwin Hother Hmeta Hres Hset.
  destruct (getYandexMusicProcesses_run env w) as [pids Hp].
  exists pids. split; [by rewrite Hp|].
  unfold patch_prepare.
  rewrite bind_run, (checkInstallPossible_ok env this w) by eauto.
  cbn [status negb]. cbv beta iota.
  rewrite bind_run, Hp. cbv beta iota.
  set (wb := {| fs := fs w; log := _ |}).
  destruct pids as [|pid pids].
  - right. rewrite bind_run, ret_run. cbv beta iota.
    by apply (patch_prepare_tail env this metadata asset content [] hash wb).
  - destruct (force (options this)) eqn:Hforce; cbn [negb].
    + right. rewrite bind_run.
      rewrite killProcesses_run. cbv beta iota.
      set (wc := {| fs := fs wb; log := _ |}).
      destruct (patch_prepare_tail env this metadata asset content
                  (pid :: pids) hash wc) as (w1 & Htail & Hfs); try done.
      exists w1. split; [exact Htail|]. by rewrite Hfs.
    + left. split_and!; [done|done|]. exists wb. by rewrite bind_run.
Qed.

Lemma bypassIntegrityMac_returns (env : Env) (this : Patcher) (w : World) :
  ∃ w', bypassIntegrityMac env this w = (Ret tt, w').
Proof.
  unfold bypassIntegrityMac. rewrite bind_run. unfold emit at 1.
  cbv beta iota. rewrite bind_run. unfold resign. cbv beta iota.
  destruct (exec env _); by eexists.
Qed.

(** What follows the replacement, when the archive has the digest it had
    before: the patcher writes no file, the signing tool rewrites what it
    can on macOS, and the only thing that can fail is the relaunch. *)
Lemma patch_finish_same_digest (env : Env) (this : Patcher)
    (processes : list Js.number) (hash : jsstring) (content : list byte)
    (w : World) :
  keepCache (options this) = true →
  (platform env = win32 →
   fs w !! ymAsarPath this = Some content
   ∧ header_sha256 env content = Some hash) →
  (∀ path, (platform env = darwin → resigned this path = false) →
           fs (patch_finish env this processes hash w).2 !! path
           = fs w !! path)
  ∧ (processes = [] ∨ (launchYandexMusic env this w).1 = Ret tt →
     (patch_finish env this processes hash w).1 = Ret tt).
Proof.
  intros Hkeep Hwin. unfold patch_finish.
  assert (Hint : ∃ wi,
    match platform env with
    | win32 =>
      newHash ← calculateAsarHeaderHash env (ymAsarPath this);
      bypassIntegrityWin this hash newHash
    | darwin => bypassIntegrityMac env this
    | linux => mret tt
    end w = (Ret tt, wi)
    ∧ ∀ path, (platform env = darwin → resigned this path = false) →
              fs wi !! path = fs w !! path).
  { destruct (platform env).
    - destruct Hwin as [Harch Hhash]; [done|].
      rewrite bind_run, (calculateAsarHeaderHash_at env _ w content) by done.
      rewrite Hhash. cbv beta iota.
      rewrite bypassIntegrityWin_skip by (right; by right). eauto.
    - destruct (bypassIntegrityMac_returns env this w) as [wi Hmac].
      exists wi. split; [done|]. intros path Hpath.
      exact (spares_run _ _ _ _ _
               (spares_bypassIntegrityMac env this path (Hpath eq_refl)) Hmac).
    - eauto. }
  destruct Hint as (wi & Hint & Hfs).
  rewrite bind_run, Hint. cbv beta iota.
  rewrite bind_run, Hkeep. cbn [negb when]. rewrite ret_run. cbv beta iota.
  destruct processes as [|pid pids].
  - rewrite ret_run. done.
  - split.
    + intros path Hpath. rewrite <- Hfs by done.
      by destruct (spares_launchYandexMusic env this path wi) as [? _].
    + intros [?|Hlaunch]; [done|].
      by apply (launchYandexMusic_static env this w).
Qed.

(** X7. After a run that returned, with the cache kept, a second run with the
    same release on the server, whatever the commands answer then, changes
    the content of one file at most: the backup of the archive, which then
    holds the archive the first run installed, not the original one. The
    archive and the working file are written again with the bytes they
    hold; these, the executable, its backup and every other file hold
    what the first run left, but, on macOS, for the files of the bundle
    that the signing tool rewrites. When the commands answer as they did,
    the second run returns. *)
Theorem patch_again_changes_backup_only (env : Env) (o : PatcherOptions)
    (answers : string → option jsstring) (w0 wA : World) :
  let this := new_Patcher env o in
  keepCache (options this) = true →
  patch env this w0 = (Ret tt, wA) →
  ∃ installed,
    fs wA !! ymAsarPath this = Some installed
    ∧ let '(out, wB) := patch (with_exec env answers) this wA in
      (∀ path, path ≠ backupPath this →
               (platform env = darwin → resigned this path = false) →
               fs wB !! path = fs wA !! path)
      ∧ (fs wB !! backupPath this = fs wA !! backupPath this
         ∨ fs wB !! backupPath this = Some installed)
      ∧ (out = Ret tt → fs wB !! backupPath this = Some installed)
      ∧ (answers = exec env → out = Ret tt).
Proof.
  intros this Hkeep Hrun.
  destruct (patch_returned env o w0 wA Hkeep Hrun)
    as (metadata & asset & content & Hmeta & Hres & Hset & Harch & Hwork
        & Hacc & Hhash & Hgate).
  exists content. split; [done|].
  assert (∃ hash, (platform env = win32 → header_sha256 env content = Some hash)
                  ∧ (platform env ≠ win32 → hash = [])) as (hash & Hwin & Hother).
  { destruct (platform env) eqn:Hplatform.
    - destruct Hhash as [hash Hh]; [done|]. by exists hash.
    - by exists [].
    - by exists []. }
  set (env2 := with_exec env answers).
  destruct (patch_prepare_settled env2 this metadata asset content hash wA)
    as (pids & Hpids & [(Hne & Hforce & w1 & Hprep & Hfs1)|(w1 & Hprep & Hfs1)]);
    try done.
  - unfold patch. rewrite bind_run, Hprep.
    split_and!; [by intros; rewrite Hfs1|by left; rewrite Hfs1|done|].
    intros ->.
    destruct pids as [|pid pids]; [done|].
    destruct (Hgate pid pids wA) as [Hforce' _].
    { rewrite (getYandexMusicProcesses_static env w0 wA). exact Hpids. }
    pose proof (eq_trans (eq_sym Hforce) Hforce') as Hno. done.
  - unfold patch. rewrite bind_run, Hprep. cbv beta iota.
    assert (Hbw : backupPath this ≠ workingPath this).
    { apply backup_not_tmp_file. by left. }
    assert (Hba : backupPath this ≠ ymAsarPath this).
    { apply tmp_file_not_archive. do 4 right. by left. }
    rewrite bind_run. unfold replaceAsar, copyFile.
    assert (Hwork1 : fs w1 !! workingPath this = Some content).
    { by rewrite Hfs1, lookup_insert_ne. }
    rewrite Hwork1. cbv beta iota.
    set (w2 := {| fs := <[ymAsarPath this := content]> (fs w1); log := _ |}).
    destruct (patch_finish_same_digest env2 this pids hash content w2 Hkeep)
      as [Hfs2 Hout].
    { intros Hplatform. split; [apply lookup_insert_eq|by apply Hwin]. }
    destruct (patch_finish env2 this pids hash w2) as [out wB].
    simpl in Hfs2, Hout.
    assert (HB : fs wB !! backupPath this = Some content).
    { rewrite Hfs2.
      - unfold w2. simpl.
        rewrite lookup_insert_ne, Hfs1 by (by intros ?).
        apply lookup_insert_eq.
      - intros _. apply temp_not_resigned; [apply new_Patcher_tmpDir|done]. }
    split_and!; [|by right|done|].
    + intros path Hpath Hsigned. rewrite Hfs2 by done. unfold w2. simpl.
      rewrite Hfs1. destruct (decide (path = ymAsarPath this)) as [->|Hne].
      * by rewrite lookup_insert_eq.
      * by rewrite !lookup_insert_ne by (by intros ?).
    + intros ->. apply Hout.
      destruct pids as [|pid pids]; [by left|right].
      destruct (Hgate pid pids w2) as [_ Hlaunch]; [|exact Hlaunch].
      rewrite (getYandexMusicProcesses_static env w0 wA). exact Hpids.
Qed.

Lemma patch_again_changes_backup_only_witness :
  let wA := (patch Demo.windows Demo.this Demo.installed_windows).2 in
  let wB := (patch Demo.windows Demo.this wA).2 in
  fs wB !! Demo.exe = fs wA !! Demo.exe
  ∧ fs wB !! backupPath Demo.this = fs wA !! ymAsarPath Demo.this.
Proof.
  intros wA wB.
  destruct (patch_again_changes_backup_only Demo.windows
              (Demo.with_type default_type) (exec Demo.windows)
              Demo.installed_windows wA)
    as (installed & Harch & H); [vm_compute; reflexivity..|].
  change (patch (with_exec Demo.windows (exec Demo.windows))
            (new_Patcher Demo.windows (Demo.with_type default_type)) wA)
    with (patch Demo.windows Demo.this wA) in H.
  subst wB. destruct (patch Demo.windows Demo.this wA) as [out wB].
  destruct H as (Hsame & _ & Hbackup & Hout). split.
  - apply Hsame; [vm_compute; discriminate|]. intros H. discriminate H.
  - etrans; [apply Hbackup, Hout; reflexivity|]. symmetry. exact Harch.
Defined.

(** ** The release service refuses *)

(** The run of [patch] that ends at a refused request. *)
Lemma patch_stops_at_release (env : Env) (this : Patcher) (w : World)
    (e : error) (pids : list Js.number) (content : list byte) :
  fs w !! ymAsarPath this = Some content →
  access_rw env (ymAsarPath this) = true →
  (platform env = win32 → is_Some (header_sha256 env content)) →
  (getYandexMusicProcesses env w).1 = Ret pids →
  pids = [] ∨ force (options this) = true →
  getLatestRelease env (githubToken (options this)) = inl e →
  patch env this w
  = (Throw e,
     {| fs := fs w;
        log := log w
               ++ [EExec (enumeration_command env)]
               ++ match pids with
                  | [] => []
                  | _ :: _ => map EKill pids ++ [ESleep 2000]
                  end
               ++ [EFetchRelease (githubToken (options this))] |}).
Proof.
  intros Harch Hacc Hwin Hp Hgate Hrel.
  destruct (getYandexMusicProcesses_run env w) as [pids' Hp'].
  rewrite Hp' in Hp. simpl in Hp. injection Hp as ->.
  assert (Htail : ∀ w1, fs w1 = fs w →
    (originalHash ←
       match platform env with
       | win32 => calculateAsarHeaderHash env (ymAsarPath this)
       | _ => mret []
       end;
     emit (EFetchRelease (githubToken (options this)));;
     metadata ←
       match getLatestRelease env (githubToken (options this)) with
       | inl e => throw e
       | inr metadata => mret metadata
       end;
     downloadModFiles env this metadata;;
     createBackup this;;
     mret (pids, originalHash)) w1
    = (Throw e, {| fs := fs w;
                   log := log w1
                          ++ [EFetchRelease (githubToken (options this))] |})).
  { intros w1 Hfs.
    assert (∃ hash,
      match platform env with
      | win32 => calculateAsarHeaderHash env (ymAsarPath this)
      | _ => mret []
      end w1 = (Ret hash, w1)) as [hash Hhash].
    { destruct (platform env).
      - destruct Hwin as [hash Hh]; [done|]. exists hash.
        rewrite (calculateAsarHeaderHash_at env _ w1 content)
          by by rewrite Hfs.
        by rewrite Hh.
      - by exists [].
      - by exists []. }
    rewrite bind_run, Hhash. cbv beta iota.
    rewrite bind_run. unfold emit at 1. cbv beta iota.
    rewrite bind_run, Hrel. unfold throw. simpl. by rewrite Hfs. }
  unfold patch, patch_prepare. rewrite bind_run.
  rewrite bind_run, (checkInstallPossible_ok env this w) by eauto.
  cbn [status negb]. cbv beta iota.
  rewrite bind_run, Hp'. cbv beta iota.
  destruct pids as [|pid pids].
  - rewrite bind_run, ret_run. cbv beta iota.
    rewrite Htail by done. simpl. by rewrite <- app_assoc.
  - destruct Hgate as [?|Hforce]; [done|]. rewrite Hforce. cbn [negb].
    rewrite bind_run, killProcesses_run. cbv beta iota.
    rewrite Htail by done. simpl. do 2 f_equal.
    rewrite <- !app_assoc. simpl. by rewrite <- app_assoc.
Qed.

(** X8. When the request for the latest release is refused, a run that got
    that far throws what the service raised and has written no file; the
    instances found were signalled beforehand when [force] is on, the
    request is the last thing the run does, and nothing relaunches the
    application. *)
Theorem patch_release_refused (env : Env) (this : Patcher) (w : World)
    (e : error) (pids : list Js.number) (content : list byte) :
  fs w !! ymAsarPath this = Some content →
  access_rw env (ymAsarPath this) = true →
  (platform env = win32 → is_Some (header_sha256 env content)) →
  (getYandexMusicProcesses env w).1 = Ret pids →
  pids = [] ∨ force (options this) = true →
  getLatestRelease env (githubToken (options this)) = inl e →
  let '(out, w') := patch env this w in
  out = Throw e
  ∧ fs w' = fs w
  ∧ events_since w w'
    = EExec (enumeration_command env)
      :: match pids with
         | [] => []
         | _ :: _ => map EKill pids ++ [ESleep 2000]
         end
      ++ [EFetchRelease (githubToken (options this))].
Proof.
  intros Harch Hacc Hwin Hp Hgate Hrel.
  rewrite (patch_stops_at_release env this w e pids content) by done.
  split_and!; [done|done|]. by apply events_since_app.
Qed.

Lemma patch_release_refused_witness :
  (patch Cases.linux_refused Cases.this_forced Demo.installed_running).1
  = Throw Cases.rate_limit
  ∧ events_since Demo.installed_running
      (patch Cases.linux_refused Cases.this_forced Demo.installed_running).2
    = [EExec "pgrep -f yandexmusic"; EKill (Js.Num 1234); ESleep 2000;
       EFetchRelease ""].
Proof.
  pose proof (patch_release_refused Cases.linux_refused Cases.this_forced
                Demo.installed_running Cases.rate_limit [Js.Num 1234]
                (Demo.bytes "OLD")) as H.
  destruct (patch Cases.linux_refused Cases.this_forced
              Demo.installed_running) as [out w'].
  destruct H as (Hout & _ & Hevents); try (vm_compute; reflexivity).
  - intros H. discriminate H.
  - right. reflexivity.
  - split; [exact Hout|exact Hevents].
Defined.

End PatchMore.

(* ===================================================================== *)
(** * Clearing the cache *)
(* ===================================================================== *)

Module ClearMore.
Import Run StringFacts MonadFacts IntegrityFacts ProcessFacts CacheFacts.
Import PatchFacts PatchMore.

Lemma strip_prefix_app (pre s : string) :
  strip_prefix pre (pre +:+ s) = Some s.
Proof.
  induction pre as [|x pre IH]; simpl; [by destruct s|].
  by rewrite Ascii.eqb_refl.
Qed.

(** The loop of [clearCaches] over the entries [files]. *)
Lemma clear_loop_spares (this : Patcher) (forced : bool) (path : string)
    (files : list string) :
  (∀ file, forced || negb (endsWith file ".backup") = true →
           join (tmpDir this) file ≠ path) →
  spares path
    (foldr (λ file rest,
              when (forced || negb (endsWith file ".backup"))
                (unlink (join (tmpDir this) file));;
              rest)
           (mret tt) files).
Proof.
  intros Hne. induction files as [|file files IH]; simpl; [apply spares_ret|].
  apply spares_bind; [|done].
  destruct (forced || negb (endsWith file ".backup")) eqn:Hguard;
    [|apply spares_ret].
  by apply spares_unlink, Hne.
Qed.

(** X9. Clearing the cache after a run ([forced] off) leaves every file of the
    temp directory whose name ends in [.backup] as it is. *)
Theorem clearCaches_keeps_backups (this : Patcher) (name : string) :
  endsWith name ".backup" = true →
  spares (join (tmpDir this) name) (clearCaches this false).
Proof.
  intros Hname. unfold clearCaches.
  apply spares_bind; [by apply spares_still|]. intros files.
  apply clear_loop_spares. intros file Hguard Heq. simpl in Hguard.
  apply negb_true_iff in Hguard.
  assert (Hne : name ≠ "") by (by intros ->).
  destruct (decide (file = "")) as [->|Hfile].
  - unfold join in Heq. destruct (decide (tmpDir this = "")); [done|].
    rewrite (decide_False (P := name = "")) in Heq by done.
    by apply append_ne_self in Heq.
  - apply join_inj_r in Heq; [|done..]. congruence.
Qed.

Lemma clearCaches_keeps_backups_witness :
  spares (join (tmpDir Demo.this) "app.asar.backup")
    (clearCaches Demo.this false).
Proof. apply (clearCaches_keeps_backups Demo.this). reflexivity. Defined.

(** A path that is not inside the temp directory is not the path of one
    of its entries. *)
Lemma outside_temp (this : Patcher) (path file : string) :
  tmpDir this ≠ "" →
  path ≠ tmpDir this →
  strip_prefix (tmpDir this +:+ "/") path = None →
  join (tmpDir this) file ≠ path.
Proof.
  intros Htmp Hpath Houtside Heq. unfold join in Heq.
  rewrite decide_False in Heq by done.
  destruct (decide (file = "")); [done|].
  rewrite <- Heq, <- append_assoc, strip_prefix_app in Houtside. done.
Qed.

(** X10. Whether forced or not, clearing the cache leaves every file that is
    not inside the temp directory as it is. *)
Theorem clearCaches_stays_in_temp (this : Patcher) (forced : bool)
    (path : string) :
  tmpDir this ≠ "" →
  path ≠ tmpDir this →
  strip_prefix (tmpDir this +:+ "/") path = None →
  spares path (clearCaches this forced).
Proof.
  intros Htmp Hpath Houtside. unfold clearCaches.
  apply spares_bind; [by apply spares_still|]. intros files.
  apply clear_loop_spares. intros file _. by apply outside_temp.
Qed.

Lemma clearCaches_stays_in_temp_witness :
  spares (ymAsarPath Demo.this) (clearCaches Demo.this true).
Proof.
  apply (clearCaches_stays_in_temp Demo.this true).
  - vm_compute. discriminate.
  - vm_compute. discriminate.
  - vm_compute. reflexivity.
Defined.

Lemma unlink_inv (path : string) (w w' : World) :
  unlink path w = (Ret tt, w') → fs w' = delete path (fs w).
Proof.
  unfold unlink. destruct (fs w !! path); [|done]. by intros [= <-].
Qed.

Lemma clear_loop_removes (this : Patcher) (forced : bool)
    (files : list string) (w w' : World) :
  foldr (λ file rest,
           when (forced || negb (endsWith file ".backup"))
             (unlink (join (tmpDir this) file));;
           rest)
        (mret tt) files w = (Ret tt, w') →
  fs w' ⊆ fs w
  ∧ ∀ file, file ∈ files →
            forced || negb (endsWith file ".backup") = true →
            fs w' !! join (tmpDir this) file = None.
Proof.
  revert w. induction files as [|file files IH]; intros w Hrun.
  - injection Hrun as <-. split; [done|]. intros file Hin.
    by apply not_elem_of_nil in Hin.
  - cbn [foldr] in Hrun.
    apply bind_ret_inv in Hrun as ([] & w1 & Hone & Hrest).
    destruct (IH w1 Hrest) as [Hsub Hgone].
    assert (Hsub1 : fs w1 ⊆ fs w).
    { destruct (forced || negb (endsWith file ".backup")).
      - apply unlink_inv in Hone. rewrite Hone. apply delete_subseteq.
      - by injection Hone as <-. }
    split; [by etrans|].
    intros file' Hin Hguard. apply elem_of_cons in Hin as [->|Hin]; [|eauto].
    rewrite Hguard in Hone. apply unlink_inv in Hone.
    eapply lookup_weaken_None; [|exact Hsub].
    rewrite Hone. apply lookup_delete_eq.
Qed.

(** What a call of [clearCaches] that returned has done. *)
Lemma clearCaches_returned (this : Patcher) (forced : bool) (w w' : World) :
  tmpDir this ≠ "" →
  clearCaches this forced w = (Ret tt, w') →
  fs w' ⊆ fs w
  ∧ ∀ name, name ≠ "" → first_segment name = name →
            forced || negb (endsWith name ".backup") = true →
            fs w' !! join (tmpDir this) name = None.
Proof.
  intros Htmp Hrun. unfold clearCaches in Hrun.
  apply bind_ret_inv in Hrun as (files & w1 & Hdir & Hloop).
  unfold readdir in Hdir. injection Hdir as <- <-.
  apply clear_loop_removes in Hloop as [Hsub Hgone].
  split; [done|]. intros name Hname Hflat Hguard.
  destruct (fs w !! join (tmpDir this) name) as [content|] eqn:Hfile.
  - apply Hgone; [|done].
    apply elem_of_remove_dups, list_elem_of_omap.
    exists (join (tmpDir this) name). split.
    + apply list_elem_of_In, (in_map fst _ (_, content)), list_elem_of_In.
      by apply elem_of_map_to_list.
    + unfold join. rewrite !decide_False by done.
      rewrite <- append_assoc, strip_prefix_app. simpl. by rewrite Hflat.
  - by eapply lookup_weaken_None.
Qed.

(** X11. When clearing the cache returns, it has only removed files, and no
    file is left directly in the temp directory, but for those whose name
    ends in [.backup] when [forced] is off. *)
Theorem clearCaches_removes (this : Patcher) (forced : bool) (w w' : World)
    (name : string) :
  tmpDir this ≠ "" →
  name ≠ "" →
  first_segment name = name →
  forced || negb (endsWith name ".backup") = true →
  clearCaches this forced w = (Ret tt, w') →
  fs w' ⊆ fs w ∧ fs w' !! join (tmpDir this) name = None.
Proof.
  intros Htmp Hname Hflat Hguard Hrun.
  destruct (clearCaches_returned this forced w w' Htmp Hrun) as [Hsub Hgone].
  split; [exact Hsub|]. by apply Hgone.
Qed.

Lemma clearCaches_removes_witness :
  fs (clearCaches Demo.this true Cases.full_cache).2
    !! join (tmpDir Demo.this) "app.asar.backup" = None.
Proof.
  apply (clearCaches_removes Demo.this true Cases.full_cache
           (clearCaches Demo.this true Cases.full_cache).2
           "app.asar.backup").
  - vm_compute. discriminate.
  - discriminate.
  - reflexivity.
  - reflexivity.
  - vm_compute. reflexivity.
Defined.

(** ** The files a run can touch *)

(** X12. Whatever its outcome, a run of [patch] leaves as it is every file
    that is neither the archive, nor the executable, nor the backup of the
    executable, nor inside the temp directory, nor, on macOS, inside the
    bundle of the application, where the signing tool rewrites files. *)
Theorem patch_footprint (env : Env) (this : Patcher) (path : string) :
  tmpDir this ≠ "" →
  path ≠ tmpDir this →
  strip_prefix (tmpDir this +:+ "/") path = None →
  path ≠ ymAsarPath this →
  (∀ exe, ymExePath this = Some exe →
          exe ≠ path ∧ exe +:+ ".backup" ≠ path) →
  (platform env = darwin →
   strip_prefix (ymPath this +:+ "/") path = None) →
  spares path (patch env this).
Proof.
  intros Htmp Hpath Houtside Harch Hexe Hbundle.
  assert (Hfile : ∀ file, join (tmpDir this) file ≠ path)
    by (intros file; by apply outside_temp).
  unfold patch. apply spares_bind.
  { unfold patch_prepare.
    apply spares_bind; [apply spares_checkInstallPossible|]. intros check.
    destruct (negb (status check)); [apply spares_throw|].
    apply spares_bind; [apply spares_getYandexMusicProcesses|].
    intros processes. apply spares_bind.
    { destruct processes; [apply spares_ret|].
      destruct (negb _); [apply spares_throw|apply spares_killProcesses]. }
    intros _. apply spares_bind.
    { destruct (platform env);
        [apply spares_calculateAsarHeaderHash|apply spares_ret..]. }
    intros originalHash. apply spares_bind; [by apply spares_emit|].
    intros _. apply spares_bind.
    { destruct (getLatestRelease env _);
        [apply spares_throw|apply spares_ret]. }
    intros metadata. apply spares_bind.
    { apply spares_downloadModFiles; [apply Hfile|]. intros asset _.
      apply Hfile. }
    intros _. apply spares_bind; [|intros; apply spares_ret].
    apply spares_copyFile, Hfile. }
  intros [processes originalHash]. apply spares_bind.
  { apply spares_copyFile. intros Heq. by apply Harch. }
  intros _. unfold patch_finish. apply spares_bind.
  { destruct (platform env) eqn:Hplatform;
      [| |apply spares_ret].
    - apply spares_bind; [apply spares_calculateAsarHeaderHash|].
      intros newHash. by apply spares_bypassIntegrityWin.
    - apply spares_bypassIntegrityMac. unfold resigned.
      rewrite (Hbundle eq_refl).
      by rewrite (bool_decide_false (is_Some None)) by (by intros [? ?]). }
  intros _. apply spares_bind.
  { apply spares_when. unfold clearCaches.
    apply spares_bind; [by apply spares_still|]. intros files.
    apply clear_loop_spares. intros file _. apply Hfile. }
  intros _. destruct processes; [apply spares_ret|].
  apply spares_launchYandexMusic.
Qed.

Lemma patch_footprint_witness :
  spares "/Users/u/Documents/notes.txt" (patch Cases.mac Cases.this_mac).
Proof.
  apply (patch_footprint Cases.mac Cases.this_mac).
  - vm_compute. discriminate.
  - vm_compute. discriminate.
  - vm_compute. reflexivity.
  - vm_compute. discriminate.
  - intros exe Hexe. vm_compute in Hexe. discriminate Hexe.
  - intros _. vm_compute. reflexivity.
Defined.

(** X13. When the cache is not kept, a run that returns leaves directly in the
    temp directory only files whose name ends in [.backup]: the working
    file and the local copy of the asset are gone, so that the next run
    fetches the asset again. *)
Theorem patch_without_keeping_cache (env : Env) (this : Patcher)
    (w w' : World) (name : string) :
  tmpDir this ≠ "" →
  keepCache (options this) = false →
  name ≠ "" →
  first_segment name = name →
  endsWith name ".backup" = false →
  patch env this w = (Ret tt, w') →
  fs w' !! join (tmpDir this) name = None.
Proof.
  intros Htmp Hkeep Hname Hflat Hsuffix Hrun. unfold patch in Hrun.
  apply bind_ret_inv in Hrun as ([processes originalHash] & w1 & _ & Hrun).
  apply bind_ret_inv in Hrun as ([] & w2 & _ & Hfin).
  unfold patch_finish in Hfin.
  apply bind_ret_inv in Hfin as ([] & w3 & _ & Hfin).
  apply bind_ret_inv in Hfin as ([] & w4 & Hclear & Hlaunch).
  rewrite Hkeep in Hclear. cbn [negb when] in Hclear.
  apply clearCaches_returned in Hclear as [_ Hgone]; [|done].
  assert (Hend : fs w' !! join (tmpDir this) name
                 = fs w4 !! join (tmpDir this) name).
  { destruct processes; [by injection Hlaunch as <-|].
    exact (spares_run _ _ _ _ _ (spares_launchYandexMusic env this _)
             Hlaunch). }
  rewrite Hend. apply Hgone; [done..|]. by rewrite Hsuffix.
Qed.

Lemma patch_without_keeping_cache_witness :
  fs (patch Demo.windows Cases.this_discard Demo.installed_windows).2
    !! join (tmpDir Cases.this_discard) "app.asar.gz" = None.
Proof.
  apply (patch_without_keeping_cache Demo.windows Cases.this_discard
           Demo.installed_windows
           (patch Demo.windows Cases.this_discard Demo.installed_windows).2
           "app.asar.gz").
  - vm_compute. discriminate.
  - reflexivity.
  - discriminate.
  - reflexivity.
  - reflexivity.
  - vm_compute. reflexivity.
Defined.

End ClearMore.

(* ===================================================================== *)
(** * Reading the output of the enumeration *)
(* ===================================================================== *)

Module ParseMore.
Import Run Notions.

(** ** Digits *)

Lemma digit_facts (c : N) :
  is_digit c = true →
  Js.digit_value c = Some (Z.of_N c - 48)%Z
  ∧ (0 ≤ Z.of_N c - 48 < 10)%Z
  ∧ Js.is_white_space c = false
  ∧ c ≠ 34%N ∧ c ≠ 10%N.
Proof.
  unfold is_digit. intros H. apply andb_true_iff in H as [Hlo Hhi].
  apply N.leb_le in Hlo, Hhi.
  assert (c = 48 ∨ c = 49 ∨ c = 50 ∨ c = 51 ∨ c = 52 ∨ c = 53 ∨ c = 54
          ∨ c = 55 ∨ c = 56 ∨ c = 57)%N as Hc by lia.
  repeat destruct Hc as [->|Hc]; try subst c;
    (split_and!; [reflexivity|lia|lia|vm_compute; reflexivity|done|done]).
Qed.

Lemma is_decimal_inv (s : jsstring) :
  is_decimal s = true → s ≠ [] ∧ Forall (λ c, is_digit c = true) s.
Proof.
  unfold is_decimal. intros H. apply andb_true_iff in H as [Hne Hall].
  split; [by intros ->|].
  apply Forall_forall. intros c Hc. rewrite forallb_forall in Hall.
  by apply Hall, list_elem_of_In.
Qed.

Lemma read_digits_decimal (s : jsstring) (seen : bool) (acc : Z) :
  Forall (λ c, is_digit c = true) s →
  seen = true ∨ s ≠ [] →
  Js.read_digits 10 s seen acc
  = Some (foldl (λ acc c, acc * 10 + (Z.of_N c - 48))%Z acc s).
Proof.
  intros Hall. revert seen acc.
  induction Hall as [|c rest Hc Hrest IH]; intros seen acc Hseen.
  - by destruct Hseen as [->|?].
  - destruct (digit_facts c Hc) as (Hvalue & Hrange & _).
    cbn [Js.read_digits foldl]. rewrite Hvalue.
    destruct (Z.ltb_spec (Z.of_N c - 48) 10) as [_|?]; [|lia].
    apply IH. by left.
Qed.

(** Below 2^53 the Number for an integer is that integer. *)
Lemma of_integer_exact (z : Z) :
  (0 ≤ z < Z.shiftl 1 53)%Z → Js.of_integer z = Js.Num z.
Proof.
  intros [Hlo Hhi]. unfold Js.of_integer, Js.round_binary64.
  rewrite Z.abs_eq by done.
  destruct (Z.ltb_spec z (Z.shiftl 1 53)) as [_|?]; [|lia].
  assert (Hbig : (Z.shiftl 1 53 < Z.shiftl 1 1024)%Z) by done.
  destruct (Z.leb_spec (Z.shiftl 1 1024) z) as [?|_]; [lia|].
  f_equal. destruct (Z.eq_dec z 0) as [->|?]; [done|].
  rewrite Z.sgn_pos by lia. lia.
Qed.

(** [parseInt] reads a non-empty string of decimal digits as the Number
    nearest to the integer it denotes. *)
Lemma decimal_nonneg (s : jsstring) :
  is_decimal s = true → (0 ≤ decimal s)%Z.
Proof.
  intros [_ Hall]%is_decimal_inv. unfold decimal.
  assert (H : ∀ acc, (0 ≤ acc)%Z →
    (0 ≤ foldl (λ acc c, acc * 10 + (Z.of_N c - 48)) acc s)%Z);
    [|by apply H].
  induction Hall as [|c rest Hc _ IH]; intros acc Hacc; [done|].
  destruct (digit_facts c Hc) as (_ & Hrange & _).
  cbn [foldl]. apply IH. lia.
Qed.

Lemma parseInt_decimal (s : jsstring) :
  is_decimal s = true → Js.parseInt s = Js.of_integer (decimal s).
Proof.
  intros Hs. apply is_decimal_inv in Hs as [Hne Hall].
  pose proof (read_digits_decimal s false 0 Hall (or_intror Hne)) as Hread.
  destruct Hall as [|c rest Hc Hrest]; [done|].
  destruct (digit_facts c Hc) as (_ & _ & Hws & _).
  unfold Js.parseInt. cbn [Js.trim_start]. rewrite Hws.
  assert (Hdone :
    match Js.read_digits 10 (c :: rest) false 0 with
    | Some mathInt => Js.of_integer (1 * mathInt)
    | None => Js.NaN
    end = Js.of_integer (decimal (c :: rest))).
  { rewrite Hread. unfold decimal. f_equal. lia. }
  unfold is_digit in Hc. apply andb_true_iff in Hc as [Hlo Hhi].
  apply N.leb_le in Hlo, Hhi.
  assert (c = 48 ∨ c = 49 ∨ c = 50 ∨ c = 51 ∨ c = 52 ∨ c = 53 ∨ c = 54
          ∨ c = 55 ∨ c = 56 ∨ c = 57)%N as Hcase by lia.
  destruct Hcase as [->|Hcase].
  - destruct Hrest as [|c2 rest2 Hc2 Hrest2]; [exact Hdone|].
    unfold is_digit in Hc2. apply andb_true_iff in Hc2 as [Hlo2 Hhi2].
    apply N.leb_le in Hlo2, Hhi2.
    assert (c2 = 48 ∨ c2 = 49 ∨ c2 = 50 ∨ c2 = 51 ∨ c2 = 52 ∨ c2 = 53
            ∨ c2 = 54 ∨ c2 = 55 ∨ c2 = 56 ∨ c2 = 57)%N as Hcase2 by lia.
    repeat destruct Hcase2 as [->|Hcase2]; try subst c2; exact Hdone.
  - repeat destruct Hcase as [->|Hcase]; try subst c; exact Hdone.
Qed.

(** ** Trimming and splitting *)

Lemma trim_decimal (s : jsstring) : is_decimal s = true → Js.trim s = s.
Proof.
  intros Hs. apply is_decimal_inv in Hs as [Hne Hall].
  assert (Hhead : ∀ l, Forall (λ c, is_digit c = true) l →
                       Js.trim_start l = l).
  { intros l Hl. destruct Hl as [|c rest Hc _]; [done|].
    destruct (digit_facts c Hc) as (_ & _ & Hws & _).
    cbn [Js.trim_start]. by rewrite Hws. }
  unfold Js.trim. rewrite (Hhead s Hall).
  rewrite Hhead by (by apply Forall_reverse).
  apply reverse_involutive.
Qed.

(** Splitting at line feeds, up to the next one. *)
Lemma split_go_line (row rest cur : jsstring) :
  10%N ∉ row →
  Js.split_go [10%N] (row ++ 10%N :: rest) 0 cur
  = (reverse cur ++ row) :: Js.split_go [10%N] rest 0 [].
Proof.
  revert cur. induction row as [|c row IH]; intros cur Hrow.
  - simpl. by rewrite app_nil_r.
  - apply not_elem_of_cons in Hrow as [Hc Hrow].
    cbn [app Js.split_go Js.starts_with].
    destruct (N.eqb_spec 10 c) as [?|_]; [done|]. cbn [andb].
    rewrite IH by done. by rewrite reverse_cons, <- app_assoc.
Qed.

Lemma split_lines (rows : list jsstring) :
  Forall (λ row, 10%N ∉ row) rows →
  Js.split (lines rows) [10%N] = rows ++ [[]].
Proof.
  unfold Js.split, lines. induction 1 as [|row rows Hrow _ IH]; [done|].
  cbn [map concat]. rewrite <- app_assoc. cbn [app].
  rewrite split_go_line by done. by rewrite IH.
Qed.

(** Splitting at the three code units that separate two quoted fields, up
    to the next separator. *)
Lemma split_go_field (field rest cur : jsstring) :
  34%N ∉ field →
  Js.split_go [34; 44; 34]%N (field ++ 34%N :: 44%N :: 34%N :: rest) 0 cur
  = (reverse cur ++ field) :: Js.split_go [34; 44; 34]%N rest 0 [].
Proof.
  revert cur. induction field as [|c field IH]; intros cur Hfield.
  - simpl. by rewrite app_nil_r.
  - apply not_elem_of_cons in Hfield as [Hc Hfield].
    cbn [app Js.split_go Js.starts_with].
    destruct (N.eqb_spec 34 c) as [?|_]; [done|]. cbn [andb].
    rewrite IH by done. by rewrite reverse_cons, <- app_assoc.
Qed.

(** ** The rows of [pgrep] *)

(** X14. On macOS and Linux, an output made of lines that each hold a process
    id in decimal digits is read back, in order, as the Numbers nearest to
    these ids, which are the ids themselves below 2^53; an id that denotes
    zero is dropped. *)
Theorem parse_processes_pgrep (env : Env) (rows : list jsstring) :
  platform env ≠ win32 →
  forallb is_decimal rows = true →
  parse_processes env (lines rows)
  = filter (λ n, Js.positive n = true)
      (map (λ row, Js.of_integer (decimal row)) rows)
  ∧ ∀ row, (decimal row < Z.shiftl 1 53)%Z → is_decimal row = true →
           Js.of_integer (decimal row) = Js.Num (decimal row).
Proof.
  intros Hplatform Hrows. split.
  2: { intros row Hbound Hrow. apply of_integer_exact. split; [|done].
       by apply decimal_nonneg. }
  assert (Hall : Forall (λ row, is_decimal row = true) rows).
  { apply Forall_forall. intros row Hrow. rewrite forallb_forall in Hrows.
    by apply Hrows, list_elem_of_In. }
  unfold parse_processes. rewrite split_lines.
  2: { eapply Forall_impl; [exact Hall|]. intros row Hrow Hin.
       apply is_decimal_inv in Hrow as [_ Hdigits].
       rewrite Forall_forall in Hdigits.
       destruct (digit_facts 10 (Hdigits _ Hin)) as (_ & _ & _ & _ & ?).
       done. }
  rewrite filter_app.
  assert (Hkeep : filter (λ l, Js.truthy (Js.trim l) = true) rows = rows).
  { clear Hrows. induction Hall as [|row rows Hrow _ IH]; [done|].
    rewrite filter_cons_True, IH; [done|].
    rewrite trim_decimal by done.
    unfold is_decimal in Hrow. by apply andb_true_iff in Hrow as [? _]. }
  rewrite Hkeep. change (filter _ [[]]) with (@nil jsstring).
  rewrite app_nil_r. f_equal.
  clear Hrows Hkeep. induction Hall as [|row rows Hrow _ IH]; [done|].
  cbn [map]. rewrite IH. f_equal.
  unfold parse_row. rewrite parseInt_decimal by done.
  by destruct (platform env).
Qed.

Lemma parse_processes_pgrep_witness :
  parse_processes Demo.linux_running
    (lines [Js.lit "1234"; Js.lit "0"; Js.lit "77"])
  = [Js.Num 1234; Js.Num 77].
Proof.
  apply (parse_processes_pgrep Demo.linux_running
           [Js.lit "1234"; Js.lit "0"; Js.lit "77"]).
  - discriminate.
  - reflexivity.
Defined.

(** ** The rows of [tasklist] *)

(** X15. On Windows, a row whose first two quoted fields are an image name
    without quote or comma and a process id in decimal digits is read as
    the Number nearest to that id, which is the id itself below 2^53,
    whatever follows the second field. *)
Theorem parse_row_tasklist (env : Env) (name pid rest : jsstring) :
  platform env = win32 →
  is_plain name = true →
  is_decimal pid = true →
  parse_row env
    (34%N :: (name ++ [34; 44; 34]%N ++ pid ++ [34; 44; 34]%N ++ rest))
  = Js.of_integer (decimal pid)
  ∧ ((decimal pid < Z.shiftl 1 53)%Z →
     Js.of_integer (decimal pid) = Js.Num (decimal pid)).
Proof.
  intros Hplatform Hname Hpid. split.
  2: { intros Hbound. apply of_integer_exact. split; [|done].
       by apply decimal_nonneg. }
  assert (Hname34 : (34%N ∉ name) ∧ (∀ c tl, name = c :: tl → c ≠ 44%N)).
  { unfold is_plain in Hname. rewrite forallb_forall in Hname. split.
    - intros Hin. apply list_elem_of_In, Hname in Hin. done.
    - intros c tl -> ->. by specialize (Hname 44%N (or_introl eq_refl)). }
  destruct Hname34 as [Hquote Hcomma]. cbn [app].
  pose proof Hpid as Hdec. apply is_decimal_inv in Hdec as [Hne Hdigits].
  assert (Hpid34 : 34%N ∉ pid).
  { intros Hin. rewrite Forall_forall in Hdigits.
    destruct (digit_facts 34 (Hdigits _ Hin)) as (_ & _ & _ & ? & _). done. }
  assert (Hsplit :
    Js.split
      (34%N :: name ++ 34%N :: 44%N :: 34%N :: pid
         ++ 34%N :: 44%N :: 34%N :: rest)
      [34; 44; 34]%N
    = (34%N :: name) :: pid :: Js.split_go [34; 44; 34]%N rest 0 []).
  { unfold Js.split.
    assert (Hfirst :
      Js.starts_with [34; 44; 34]%N
        (34%N :: name ++ 34%N :: 44%N :: 34%N :: pid
           ++ 34%N :: 44%N :: 34%N :: rest)
      = false).
    { destruct name as [|c tl]; [done|]. cbn [app Js.starts_with].
      destruct (N.eqb_spec 44 c) as [Heq|_]; [|done].
      by destruct (Hcomma c tl eq_refl). }
    cbn [Js.split_go]. rewrite Hfirst.
    rewrite (split_go_field name) by done.
    by rewrite (split_go_field pid) by done. }
  unfold parse_row. rewrite Hplatform, Hsplit.
  assert (Htruthy : Js.truthy pid = true).
  { unfold is_decimal in Hpid. by apply andb_true_iff in Hpid as [? _]. }
  rewrite Htruthy.
  assert (Hquotes : Js.remove_quotes pid = pid).
  { unfold Js.remove_quotes, jsstring. clear Hne Hpid Htruthy Hsplit.
    induction pid as [|c pid IH]; [done|].
    apply not_elem_of_cons in Hpid34 as [Hc Hrest].
    rewrite filter_cons_True by congruence. f_equal. apply IH; [|done].
    by apply Forall_cons in Hdigits as [_ ?]. }
  rewrite Hquotes. by apply parseInt_decimal.
Qed.

Lemma parse_row_tasklist_witness :
  parse_row Demo.windows Demo.tasklist_row = Js.Num 1234.
Proof.
  apply (parse_row_tasklist Demo.windows (Js.lit "YM.exe") (Js.lit "1234")
           (Js.lit "Console" ++ [34; 44; 34]%N ++ Js.lit "1"
              ++ [34; 44; 34]%N ++ Js.lit "50,000 K" ++ [34; 13]%N));
    reflexivity.
Defined.

End ParseMore.

(* ===================================================================== *)
(** * What the command [patch] reports *)
(* ===================================================================== *)

Module CliMore.
Import Run MonadFacts ProcessFacts PatchMore Cli.

Lemma includes_app_r (a b searchString : string) :
  includes b searchString = true → includes (a +:+ b) searchString = true.
Proof.
  intros Hb. induction a as [|x a IH]; [done|].
  change (startsWith (String x (a +:+ b)) searchString
          || includes (a +:+ b) searchString = true).
  rewrite IH. apply orb_true_r.
Qed.

(** The three lines of advice on the rate limit. *)
Lemma patch_failed_403 (msg : string) :
  includes msg "403" = true →
  patch_failed msg
  = [SpinnerFail "Patch failed";
     ConsoleLog (line_feed +:+ "GitHub Rate Limit Reached.");
     ConsoleLog "Fix it permanently:";
     ConsoleLog "  ymmp config set token YOUR_TOKEN_HERE";
     Exit 1].
Proof. intros H. unfold patch_failed. by rewrite H, orb_true_r. Qed.

(** X16. When GitHub answers the request for the latest release by the status
    403, a run of the command that got that far shows the advice on the
    rate limit and exits with the code 1, and no file has been written. *)
Theorem patch_command_rate_limit (env : Env)
    (config_githubToken GITHUB_TOKEN : string)
    (axios_get : string → list (string * string)
                 → Github.AxiosError + ReleaseMetadata)
    (axios_get_stream : string → list (string * string) → error + list byte)
    (axios_stream_error : string → list (string * string) → option error)
    (describe : error → string) (o : PatcherOptions) (w : World)
    (failure : Github.AxiosError) (pids : list Js.number)
    (content : list byte) :
  let machine :=
    Github.served config_githubToken GITHUB_TOKEN axios_get axios_get_stream
      axios_stream_error env in
  let this := new_Patcher machine o in
  fs w !! ymAsarPath this = Some content →
  access_rw env (ymAsarPath this) = true →
  (platform env = win32 → is_Some (header_sha256 env content)) →
  (getYandexMusicProcesses machine w).1 = Ret pids →
  pids = [] ∨ force (options this) = true →
  axios_get Github.latest_release_url
    (Github.getHeaders config_githubToken GITHUB_TOKEN
       (githubToken (options this))) = inl failure →
  Github.response_status failure = Some 403%Z →
  let '(shown, w') := patch_command machine describe o w in
  shown = Some [SpinnerStart;
                SpinnerFail "Patch failed";
                ConsoleLog (line_feed +:+ "GitHub Rate Limit Reached.");
                ConsoleLog "Fix it permanently:";
                ConsoleLog "  ymmp config set token YOUR_TOKEN_HERE";
                Exit 1]
  ∧ fs w' = fs w.
Proof.
  intros machine this Harch Hacc Hwin Hp Hgate Hanswer Hstatus.
  unfold patch_command. fold this.
  rewrite (patch_stops_at_release machine this w
             (Error Github.rate_limit_message) pids content);
    [done|done..|].
  unfold machine at 1, Github.served. cbn [getLatestRelease].
  unfold Github.getLatestRelease. rewrite Hanswer.
  by rewrite decide_True.
Qed.

Lemma patch_command_rate_limit_witness :
  (patch_command Scenes.linux_forbidden Scenes.describe Cases.forced
     Demo.installed_running).1
  = Some [SpinnerStart;
          SpinnerFail "Patch failed";
          ConsoleLog (line_feed +:+ "GitHub Rate Limit Reached.");
          ConsoleLog "Fix it permanently:";
          ConsoleLog "  ymmp config set token YOUR_TOKEN_HERE";
          Exit 1].
Proof.
  pose proof (patch_command_rate_limit Demo.linux_running "" ""
                (λ _ _, inl Scenes.forbidden)
                (λ _ _, inl (Error "unreachable")) (λ _ _, None)
                Scenes.describe Cases.forced Demo.installed_running
                Scenes.forbidden [Js.Num 1234] (Demo.bytes "OLD")) as H.
  cbv zeta in H.
  change (Github.served "" "" (λ _ _, inl Scenes.forbidden)
            (λ _ _, inl (Error "unreachable")) (λ _ _, None)
            Demo.linux_running)
    with Scenes.linux_forbidden in H.
  destruct (patch_command Scenes.linux_forbidden Scenes.describe Cases.forced
              Demo.installed_running) as [shown w'].
  destruct H as [Hshown _]; try (vm_compute; reflexivity).
  - intros H. discriminate H.
  - right. reflexivity.
  - exact Hshown.
Defined.

(** X17. When the archive is not found and its path contains the digits 403,
    the command shows the advice on the GitHub rate limit, not the message
    that tells where the application was looked for. *)
Theorem patch_command_path_with_403 (env : Env) (describe : error → string)
    (o : PatcherOptions) (w : World) :
  let this := new_Patcher env o in
  fs w !! ymAsarPath this = None →
  includes (ymAsarPath this) "403" = true →
  patch_command env describe o w
  = (Some [SpinnerStart;
           SpinnerFail "Patch failed";
           ConsoleLog (line_feed +:+ "GitHub Rate Limit Reached.");
           ConsoleLog "Fix it permanently:";
           ConsoleLog "  ymmp config set token YOUR_TOKEN_HERE";
           Exit 1], w).
Proof.
  intros this Hnone Hpath. unfold patch_command. fold this.
  assert (Hrun : patch env this w
                 = (Throw (InstallNotFoundError (ymAsarPath this)), w)).
  { unfold patch, patch_prepare, checkInstallPossible.
    rewrite 3!bind_run. unfold existsSync. rewrite Hnone.
    rewrite bool_decide_false by (by intros [? ?]). reflexivity. }
  rewrite Hrun. unfold InstallNotFoundError, failure_text, or_else.
  rewrite decide_False by done.
  rewrite patch_failed_403; [done|].
  by apply (includes_app_r "Yandex Music not found at: ").
Qed.

Lemma patch_command_path_with_403_witness :
  patch_command Demo.windows Scenes.describe Scenes.custom_path
    Cases.empty_world
  = (Some [SpinnerStart;
           SpinnerFail "Patch failed";
           ConsoleLog (line_feed +:+ "GitHub Rate Limit Reached.");
           ConsoleLog "Fix it permanently:";
           ConsoleLog "  ymmp config set token YOUR_TOKEN_HERE";
           Exit 1], Cases.empty_world).
Proof.
  apply (patch_command_path_with_403 Demo.windows Scenes.describe
           Scenes.custom_path Cases.empty_world); reflexivity.
Defined.

(** X18. When instances are running and [force] is off, the command shows the
    hint on [--force] and exits with the code 1; the only thing the run
    did is the enumeration. *)
Theorem patch_command_running (env : Env) (describe : error → string)
    (o : PatcherOptions) (w : World) (pid : Js.number)
    (pids : list Js.number) :
  let this := new_Patcher env o in
  is_Some (fs w !! ymAsarPath this) →
  access_rw env (ymAsarPath this) = true →
  (getYandexMusicProcesses env w).1 = Ret (pid :: pids) →
  force (options this) = false →
  patch_command env describe o w
  = (Some [SpinnerStart;
           SpinnerFail "Patch failed";
           ConsoleLog
             (line_feed
              +:+ "App is running. Use --force to close it automatically.");
           Exit 1],
     {| fs := fs w; log := log w ++ [EExec (enumeration_command env)] |}).
Proof.
  intros this Hfound Hacc Hp Hforce.
  destruct (getYandexMusicProcesses_run env w) as [pids' Hp'].
  rewrite Hp' in Hp. simpl in Hp. injection Hp as ->.
  unfold patch_command. fold this.
  assert (Hrun : patch env this w
                 = (Throw ProcessRunningError,
                    {| fs := fs w;
                       log := log w ++ [EExec (enumeration_command env)] |})).
  { unfold patch, patch_prepare.
    rewrite 2!bind_run, (checkInstallPossible_ok env this w) by done.
    cbn [status negb]. rewrite bind_run, Hp'. cbv beta iota.
    rewrite bind_run, Hforce. reflexivity. }
  rewrite Hrun. reflexivity.
Qed.

Lemma patch_command_running_witness :
  (patch_command Demo.linux_running Scenes.describe
     (Demo.with_type default_type) Demo.installed_running).1
  = Some [SpinnerStart;
          SpinnerFail "Patch failed";
          ConsoleLog
            (line_feed
             +:+ "App is running. Use --force to close it automatically.");
          Exit 1].
Proof.
  rewrite (patch_command_running Demo.linux_running Scenes.describe
             (Demo.with_type default_type) Demo.installed_running
             (Js.Num 1234) []).
  - reflexivity.
  - vm_compute. eauto.
  - reflexivity.
  - vm_compute. reflexivity.
  - reflexivity.
Defined.

End CliMore.

(* ===================================================================== *)
(** * The programs a run starts *)
(* ===================================================================== *)

Module ConductMore.
Import Run Notions MonadFacts.

Section Emits.
Variable P : event → Prop.
Hypothesis Hquiet : ∀ e, starts_nothing e → P e.

Lemma emits_still {A} (m : M A) : (∀ w, (m w).2 = w) → emits_only P m.
Proof. intros H w. rewrite H. exists []. by rewrite app_nil_r. Qed.

Lemma emits_bind {A B} (m : M A) (f : A → M B) :
  emits_only P m → (∀ a, emits_only P (f a)) → emits_only P (m ≫= f).
Proof.
  intros Hm Hf w. rewrite bind_run. specialize (Hm w).
  destruct (m w) as [[a|e|] w1]; simpl in *; [|done..].
  destruct Hm as (evs & Hlog & Hall).
  destruct (Hf a w1) as (evs' & Hlog' & Hall').
  exists (evs ++ evs'). rewrite Hlog', Hlog, <- app_assoc.
  split; [done|]. by apply Forall_app.
Qed.

Lemma emits_emit (e : event) : P e → emits_only P (emit e).
Proof. intros He w. exists [e]. split; [done|]. by apply Forall_singleton. Qed.

Lemma emits_when (c : bool) (m : M unit) :
  emits_only P m → emits_only P (when c m).
Proof. intros Hm. destruct c; [done|by apply emits_still]. Qed.

Lemma emits_readFile (path : string) : emits_only P (readFile path).
Proof.
  apply emits_still. intros w. unfold readFile. by destruct (fs w !! path).
Qed.

Lemma emits_stat_size (path : string) : emits_only P (stat_size path).
Proof.
  apply emits_still. intros w. unfold stat_size. by destruct (fs w !! path).
Qed.

Lemma emits_writeFile (path : string) (data : list byte) :
  emits_only P (writeFile path data).
Proof.
  intros w. eexists. split; [done|]. by apply Forall_singleton, Hquiet.
Qed.

Lemma emits_copyFile (src dest : string) : emits_only P (copyFile src dest).
Proof.
  intros w. unfold copyFile. destruct (fs w !! src); simpl.
  - eexists. split; [done|]. by apply Forall_singleton, Hquiet.
  - exists []. by rewrite app_nil_r.
Qed.

Lemma emits_unlink (path : string) : emits_only P (unlink path).
Proof.
  intros w. unfold unlink. destruct (fs w !! path); simpl.
  - eexists. split; [done|]. by apply Forall_singleton, Hquiet.
  - exists []. by rewrite app_nil_r.
Qed.

Lemma emits_killProcesses (pids : list Js.number) :
  emits_only P (killProcesses pids).
Proof.
  unfold killProcesses. apply emits_bind; [|intros; by apply emits_emit, Hquiet].
  induction pids as [|pid pids IH]; simpl; [by apply emits_still|].
  apply emits_bind; [by apply emits_emit, Hquiet|done].
Qed.

Lemma emits_calculateAsarHeaderHash (env : Env) (asarPath : string) :
  emits_only P (calculateAsarHeaderHash env asarPath).
Proof.
  unfold calculateAsarHeaderHash. apply emits_bind; [apply emits_readFile|].
  intros data. destruct (header_sha256 env data); by apply emits_still.
Qed.

Lemma emits_decompressFile (env : Env) (source dest : string) :
  emits_only P (decompressFile env source dest).
Proof.
  unfold decompressFile. apply emits_bind; [apply emits_readFile|].
  intros data. destruct (unzip env data);
    [apply emits_writeFile|by apply emits_still].
Qed.

Lemma emits_downloadModFiles (env : Env) (this : Patcher)
    (metadata : ReleaseMetadata) :
  emits_only P (downloadModFiles env this metadata).
Proof.
  unfold downloadModFiles.
  destruct (resolveAsset this metadata) as [asset|]; [|by apply emits_still].
  assert (Hfetch : emits_only P
    (emit (EDownload (browser_download_url asset) (githubToken (options this)));;
     match downloadStream env (browser_download_url asset)
             (githubToken (options this)) with
     | inl e => throw e
     | inr body =>
       writeFile (join (tmpDir this) (asset_name asset)) body;;
       match stream_error env (browser_download_url asset)
               (githubToken (options this)) with
       | Some e => throw e
       | None =>
         when (endsWith (asset_name asset) ".gz")
           (decompressFile env (join (tmpDir this) (asset_name asset))
              (workingPath this))
       end
     end)).
  { apply emits_bind; [by apply emits_emit, Hquiet|]. intros _.
    destruct (downloadStream env _ _); [by apply emits_still|].
    apply emits_bind; [apply emits_writeFile|]. intros _.
    destruct (stream_error env _ _); [by apply emits_still|].
    apply emits_when, emits_decompressFile. }
  apply emits_bind; [by apply emits_still|]. intros cached.
  destruct (useCache (options this) && cached); [|done].
  apply emits_bind; [apply emits_stat_size|]. intros size.
  destruct (bool_decide _); [|done].
  apply emits_when, emits_decompressFile.
Qed.

Lemma emits_clearCaches (this : Patcher) (forced : bool) :
  emits_only P (clearCaches this forced).
Proof.
  unfold clearCaches. apply emits_bind; [by apply emits_still|].
  intros files. induction files as [|file files IH]; simpl;
    [by apply emits_still|].
  apply emits_bind; [|done]. apply emits_when, emits_unlink.
Qed.

End Emits.

(** X19. On Linux a run of [patch] starts no program but the enumeration of
    the running instances: the application it has closed with [force] is
    not started again. *)
Theorem patch_starts_nothing_on_linux (env : Env) (this : Patcher)
    (w : World) (e : event) :
  platform env = linux →
  e ∈ events_since w (patch env this w).2 →
  e = EExec (enumeration_command env) ∨ starts_nothing e.
Proof.
  intros Hlinux.
  set (P := λ e, e = EExec (enumeration_command env) ∨ starts_nothing e).
  assert (Hquiet : ∀ e, starts_nothing e → P e) by (intros ? ?; by right).
  assert (Hpatch : emits_only P (patch env this)).
  { unfold patch. apply emits_bind.
    { unfold patch_prepare. apply emits_bind.
      { unfold checkInstallPossible.
        apply emits_bind; [by apply emits_still|]. intros found.
        destruct (negb found); [by apply emits_still|].
        destruct (access_rw env _); by apply emits_still. }
      intros check. destruct (negb (status check)); [by apply emits_still|].
      apply emits_bind.
      { unfold getYandexMusicProcesses.
        apply emits_bind; [apply emits_emit; by left|]. intros _.
        destruct (exec env _) as [stdout|]; [|by apply emits_still].
        destruct (negb _); by apply emits_still. }
      intros processes. apply emits_bind.
      { destruct processes; [by apply emits_still|].
        destruct (negb _); [by apply emits_still|].
        by apply emits_killProcesses. }
      intros _. apply emits_bind.
      { rewrite Hlinux. by apply emits_still. }
      intros originalHash.
      apply emits_bind; [by apply emits_emit, Hquiet|]. intros _.
      apply emits_bind.
      { destruct (getLatestRelease env _); by apply emits_still. }
      intros metadata.
      apply emits_bind; [by apply emits_downloadModFiles|]. intros _.
      apply emits_bind; [by apply emits_copyFile|].
      intros _. by apply emits_still. }
    intros [processes originalHash].
    apply emits_bind; [by apply emits_copyFile|]. intros _.
    unfold patch_finish. rewrite Hlinux.
    apply emits_bind; [by apply emits_still|]. intros _.
    apply emits_bind; [by apply emits_when, emits_clearCaches|]. intros _.
    destruct processes; [by apply emits_still|].
    unfold launchYandexMusic. rewrite Hlinux. by apply emits_still. }
  destruct (Hpatch w) as (evs & Hlog & Hall).
  rewrite (events_since_app _ _ evs Hlog).
  intros Hin. rewrite Forall_forall in Hall. by apply Hall.
Qed.

Lemma patch_starts_nothing_on_linux_witness :
  ESleep 2000
  ∈ events_since Demo.installed_running
      (patch Scenes.linux_forbidden Cases.this_forced
         Demo.installed_running).2
  ∧ starts_nothing (ESleep 2000).
Proof.
  split; [vm_compute; repeat first [by left | right]|].
  destruct (patch_starts_nothing_on_linux Scenes.linux_forbidden
              Cases.this_forced Demo.installed_running (ESleep 2000))
    as [Heq|Hquiet].
  - reflexivity.
  - vm_compute. repeat first [by left | right].
  - discriminate Heq.
  - exact Hquiet.
Defined.

End ConductMore.

(* ===================================================================== *)
(** * The executable in a run of [patch] *)
(* ===================================================================== *)

Module ExeMore.
Import Buf Run Notions StringFacts MonadFacts IntegrityFacts ProcessFacts.
Import CacheFacts PatchFacts PatchMore.

#[local] Arguments scan : simpl never.
#[local] Arguments indexOf : simpl never.

Lemma bind_tail_fs {A B} (m : M A) (f : A → M B) (w : World) (path : string) :
  (∀ a, spares path (f a)) →
  fs ((m ≫= f) w).2 !! path = fs (m w).2 !! path.
Proof.
  intros Hf. rewrite bind_run. destruct (m w) as [[a|e|] w1]; simpl; [|done..].
  by destruct (Hf a w1) as [? _].
Qed.

(** What one call of [bypassIntegrityWin] does to the backup of the
    executable. *)
Lemma bypassIntegrityWin_guard (this : Patcher) (exe : string)
    (oldHash newHash : jsstring) (w : World) :
  ymExePath this = Some exe →
  let backup := exe +:+ ".backup" in
  let w' := (bypassIntegrityWin this oldHash newHash w).2 in
  (is_Some (fs w !! backup) → fs w' !! backup = fs w !! backup)
  ∧ (fs w' !! exe ≠ fs w !! exe →
     is_Some (fs w' !! backup)
     ∧ (fs w !! backup = None → fs w' !! backup = fs w !! exe)).
Proof.
  intros Hexe backup w'. subst w'.
  destruct (fs w !! exe) as [buf|] eqn:Hbuf.
  2: { rewrite bypassIntegrityWin_skip by (right; left; eauto).
       simpl. rewrite Hbuf. done. }
  destruct (decide (oldHash = newHash)) as [Heq|Hne].
  { rewrite bypassIntegrityWin_skip by (by right; right).
    simpl. rewrite Hbuf. done. }
  rewrite (bypassIntegrityWin_run this exe buf) by done.
  pose proof (after_exe_backup_backup exe buf w) as (evs & _ & _ & Hsome & Hkept).
  assert (Hmade : fs w !! backup = None →
                  fs (after_exe_backup exe buf w) !! backup = Some buf).
  { intros Hnone. unfold after_exe_backup.
    rewrite bool_decide_false by (fold backup; rewrite Hnone; by intros [? ?]).
    simpl. apply lookup_insert_eq. }
  assert (Hlast : fs
    (match indexOf buf (from_ascii oldHash) 0 with
     | Some _ =>
       match
         scan (S (length buf)) (from_ascii oldHash) (from_ascii newHash) buf 0
       with
       | Some (fileBuffer', _) =>
         (Ret (),
          {| fs := <[exe:=fileBuffer']> (fs (after_exe_backup exe buf w));
             log := log (after_exe_backup exe buf w) ++ [EWriteFile exe] |})
       | None => (Hang, after_exe_backup exe buf w)
       end
     | None =>
       (Ret (),
        {| fs := fs (after_exe_backup exe buf w);
           log := log (after_exe_backup exe buf w) ++ [not_found_warning] |})
     end).2 !! backup = fs (after_exe_backup exe buf w) !! backup).
  { destruct (indexOf _ _ _); [|done].
    destruct (scan _ _ _ _ _) as [[out hits]|]; [|done]. simpl.
    apply lookup_insert_ne. intros Heq. by apply (backup_path_fresh exe). }
  rewrite Hlast. split.
  - intros Hhad. by destruct (Hkept Hhad) as [_ ->].
  - intros _. split; [done|]. intros Hnone. by rewrite Hmade.
Qed.

(** Up to the backup of the archive, [patch] writes in the temp directory
    only. *)
Lemma spares_patch_prepare (env : Env) (this : Patcher) (path : string) :
  workingPath this ≠ path →
  (∀ metadata asset, resolveAsset this metadata = Some asset →
                     join (tmpDir this) (asset_name asset) ≠ path) →
  backupPath this ≠ path →
  spares path (patch_prepare env this).
Proof.
  intros Hwork Hdest Hbackup. unfold patch_prepare.
  apply spares_bind; [apply spares_checkInstallPossible|]. intros check.
  destruct (negb (status check)); [apply spares_throw|].
  apply spares_bind; [apply spares_getYandexMusicProcesses|].
  intros processes. apply spares_bind.
  { destruct processes; [apply spares_ret|].
    destruct (negb _); [apply spares_throw|apply spares_killProcesses]. }
  intros _. apply spares_bind.
  { destruct (platform env);
      [apply spares_calculateAsarHeaderHash|apply spares_ret..]. }
  intros originalHash. apply spares_bind; [by apply spares_emit|].
  intros _. apply spares_bind.
  { destruct (getLatestRelease env _); [apply spares_throw|apply spares_ret]. }
  intros metadata. apply spares_bind.
  { apply spares_downloadModFiles; [done|]. apply Hdest. }
  intros _. apply spares_bind; [|intros; apply spares_ret].
  by apply spares_copyFile.
Qed.

(** On Windows, the digest [patch] takes first is that of the archive it
    finds. *)
Lemma patch_prepare_hash (env : Env) (this : Patcher) (w0 w1 : World)
    (processes : list Js.number) (hash : jsstring) :
  platform env = win32 →
  patch_prepare env this w0 = (Ret (processes, hash), w1) →
  ∃ content,
    fs w0 !! ymAsarPath this = Some content
    ∧ header_sha256 env content = Some hash.
Proof.
  intros Hwin Hprep. unfold patch_prepare in Hprep.
  apply bind_ret_inv in Hprep as (check & wa & Hcheck & Hprep).
  destruct (negb (status check)) eqn:Hstatus; [done|].
  apply negb_false_iff in Hstatus.
  apply checkInstallPossible_inv in Hcheck as (-> & _ & _); [|done].
  apply bind_ret_inv in Hprep as (pids & wb & Hpids & Hprep).
  apply bind_ret_inv in Hprep as ([] & wc & Hkill & Hprep).
  apply bind_ret_inv in Hprep as (hash' & wd & Hhash & Hprep).
  apply bind_ret_inv in Hprep as ([] & we & _ & Hprep).
  apply bind_ret_inv in Hprep as (metadata & wf & _ & Hprep).
  apply bind_ret_inv in Hprep as ([] & wg & _ & Hprep).
  apply bind_ret_inv in Hprep as ([] & wh & _ & Hprep).
  injection Hprep as <- <- <-.
  assert (Hsame : fs wc !! ymAsarPath this = fs w0 !! ymAsarPath this).
  { etrans; [|exact (spares_run _ _ _ _ _
                       (spares_getYandexMusicProcesses env _) Hpids)].
    refine (spares_run _ _ _ _ _ _ Hkill).
    destruct pids; [apply spares_ret|].
    destruct (negb _); [apply spares_throw|apply spares_killProcesses]. }
  rewrite Hwin in Hhash. unfold calculateAsarHeaderHash in Hhash.
  apply bind_ret_inv in Hhash as (data & wr & Hread & Hhash).
  unfold readFile in Hread.
  destruct (fs wc !! ymAsarPath this) as [content|] eqn:Hfile; [|done].
  injection Hread as <- <-. exists content. split; [by rewrite <- Hsame|].
  by destruct (header_sha256 env content); [injection Hhash as ->|].
Qed.

(** What a run of [patch] does to the executable and to its backup: it
    leaves them as they are, or it calls [bypassIntegrityWin] once, on
    the digest of the archive it found and the digest of the archive it
    installed, in a world where they are as they were. *)
Lemma patch_exe_cases (env : Env) (o : PatcherOptions) (exe : string)
    (w0 : World) :
  let this := new_Patcher env o in
  let backup := exe +:+ ".backup" in
  let wA := (patch env this w0).2 in
  keepCache (options this) = true →
  ymExePath this = Some exe →
  (fs wA !! exe = fs w0 !! exe ∧ fs wA !! backup = fs w0 !! backup)
  ∨ ∃ found oldHash installed newHash w2,
      fs w0 !! ymAsarPath this = Some found
      ∧ header_sha256 env found = Some oldHash
      ∧ fs wA !! ymAsarPath this = Some installed
      ∧ header_sha256 env installed = Some newHash
      ∧ fs w2 !! exe = fs w0 !! exe
      ∧ fs w2 !! backup = fs w0 !! backup
      ∧ fs wA !! exe
        = fs (bypassIntegrityWin this oldHash newHash w2).2 !! exe
      ∧ fs wA !! backup
        = fs (bypassIntegrityWin this oldHash newHash w2).2 !! backup.
Proof.
  intros this backup wA Hkeep Hexe. subst wA.
  assert (Hwin : platform env = win32).
  { unfold this, new_Patcher, resolveExePath in Hexe. simpl in Hexe.
    by destruct (platform env). }
  assert (Hprepare : ∀ path, path = exe ∨ path = backup →
                             spares path (patch_prepare env this)).
  { intros path Hpath. apply spares_patch_prepare.
    - intros Heq.
      destruct (exe_not_tmp_file env o exe "app.asar" Hexe) as [? ?];
        [by left|].
      by destruct Hpath as [->| ->].
    - intros metadata asset Hres Heq.
      destruct (exe_not_tmp_file env o exe (asset_name asset) Hexe) as [? ?];
        [by eapply resolveAsset_names|].
      by destruct Hpath as [->| ->].
    - intros Heq. destruct (exe_not_archive_backup env o exe Hexe) as [? ?].
      by destruct Hpath as [->| ->]. }
  assert (Hreplace : ∀ path, path = exe ∨ path = backup →
                             spares path (replaceAsar this)).
  { intros path Hpath. apply spares_copyFile. intros Heq.
    destruct (exe_not_archive env o exe Hexe) as [? ?].
    by destruct Hpath as [->| ->]. }
  assert (Hrest : ∀ (processes : list Js.number) path,
    spares path
      (when (negb (keepCache (options this))) (clearCaches this false);;
       match processes with
       | [] => mret tt
       | _ :: _ => launchYandexMusic env this
       end)).
  { intros processes path. rewrite Hkeep. apply spares_bind; [apply spares_ret|].
    intros _. destruct processes; [apply spares_ret|].
    apply spares_launchYandexMusic. }
  unfold patch. rewrite bind_run.
  destruct (patch_prepare env this w0) as [[[processes oldHash]|e|] w1]
    eqn:Hprep.
  2,3: left; split;
    [exact (spares_run _ _ _ _ _ (Hprepare exe (or_introl eq_refl)) Hprep)
    |exact (spares_run _ _ _ _ _ (Hprepare backup (or_intror eq_refl)) Hprep)].
  pose proof (spares_run _ _ _ _ _ (Hprepare exe (or_introl eq_refl)) Hprep)
    as Hexe1.
  pose proof (spares_run _ _ _ _ _ (Hprepare backup (or_intror eq_refl)) Hprep)
    as Hbackup1.
  rewrite bind_run.
  destruct (replaceAsar this w1) as [[[]|e|] w2] eqn:Hrep.
  2,3: left; split;
    [etrans; [exact (spares_run _ _ _ _ _
                       (Hreplace exe (or_introl eq_refl)) Hrep)|done]
    |etrans; [exact (spares_run _ _ _ _ _
                       (Hreplace backup (or_intror eq_refl)) Hrep)|done]].
  pose proof (spares_run _ _ _ _ _ (Hreplace exe (or_introl eq_refl)) Hrep)
    as Hexe2.
  pose proof (spares_run _ _ _ _ _ (Hreplace backup (or_intror eq_refl)) Hrep)
    as Hbackup2.
  apply copyFile_inv in Hrep as (installed & _ & Hfs2).
  assert (Harch2 : fs w2 !! ymAsarPath this = Some installed).
  { rewrite Hfs2. apply lookup_insert_eq. }
  unfold patch_finish. rewrite Hwin.
  assert (Htail : ∀ path,
    fs (((newHash ← calculateAsarHeaderHash env (ymAsarPath this);
          bypassIntegrityWin this oldHash newHash) ≫=
         (λ _, when (negb (keepCache (options this))) (clearCaches this false);;
               match processes with
               | [] => mret tt
               | _ :: _ => launchYandexMusic env this
               end)) w2).2 !! path
    = fs ((newHash ← calculateAsarHeaderHash env (ymAsarPath this);
           bypassIntegrityWin this oldHash newHash) w2).2 !! path).
  { intros path. apply bind_tail_fs. intros _. apply Hrest. }
  rewrite !Htail. rewrite bind_run.
  rewrite (calculateAsarHeaderHash_at env _ w2 installed) by done.
  destruct (header_sha256 env installed) as [newHash|] eqn:Hnew.
  - right.
    destruct (patch_prepare_hash env this w0 w1 processes oldHash Hwin Hprep)
      as (found & Hfound & Hold).
    exists found, oldHash, installed, newHash, w2.
    split_and!; [done|done| |done|congruence|congruence|done|done].
    destruct (spares_bypassIntegrityWin this oldHash newHash
                (ymAsarPath this)) with (w := w2) as [Hkept _].
    { intros exe' Hexe'. by apply exe_not_archive. }
    by rewrite Hkept.
  - left. simpl. split; congruence.
Qed.

(** X20. With the cache kept, a run of [patch] that leaves the header digest
    of the archive as it was (or does not change the archive at all)
    leaves the executable and its backup as they are, however it ends. *)
Theorem patch_same_digest_keeps_exe (env : Env) (o : PatcherOptions)
    (exe : string) (w0 : World) :
  let this := new_Patcher env o in
  let wA := (patch env this w0).2 in
  keepCache (options this) = true →
  ymExePath this = Some exe →
  (∀ found installed,
     fs w0 !! ymAsarPath this = Some found →
     fs wA !! ymAsarPath this = Some installed →
     header_sha256 env found = header_sha256 env installed) →
  fs wA !! exe = fs w0 !! exe
  ∧ fs wA !! (exe +:+ ".backup") = fs w0 !! (exe +:+ ".backup").
Proof.
  intros this wA Hkeep Hexe Hsame.
  destruct (patch_exe_cases env o exe w0 Hkeep Hexe)
    as [?|(found & oldHash & installed & newHash & w2 & Hfound & Hold
           & Hinstalled & Hnew & Hexe2 & Hbackup2 & HexeA & HbackupA)];
    [done|].
  fold this wA in Hfound, Hinstalled, HexeA, HbackupA.
  assert (oldHash = newHash) as ->.
  { specialize (Hsame found installed Hfound Hinstalled). congruence. }
  rewrite bypassIntegrityWin_skip in HexeA, HbackupA by (by right; right).
  simpl in HexeA, HbackupA. split; congruence.
Qed.

Lemma patch_same_digest_keeps_exe_witness :
  let wA := (patch Demo.windows Demo.this Cases.installed_same_digest).2 in
  fs wA !! ymAsarPath Demo.this = Some (Demo.bytes "NEW")
  ∧ fs wA !! Demo.exe = Some (Demo.bytes "MZ..NE..").
Proof.
  intros wA. split; [vm_compute; reflexivity|].
  destruct (patch_same_digest_keeps_exe Demo.windows
              (Demo.with_type default_type) Demo.exe
              Cases.installed_same_digest) as [Hexe _].
  - reflexivity.
  - reflexivity.
  - intros found installed Hfound Hinstalled.
    vm_compute in Hfound, Hinstalled.
    injection Hfound as <-. injection Hinstalled as <-. reflexivity.
  - etrans; [exact Hexe|]. vm_compute. reflexivity.
Defined.

(** X21. With the cache kept, a run of [patch] never overwrites a backup of
    the executable that exists, and, however it ends, it has not changed
    the executable unless a backup of it is on disk; a backup made by the
    run holds the executable as it was before the run. *)
Theorem patch_changes_exe_with_backup (env : Env) (o : PatcherOptions)
    (exe : string) (w0 : World) :
  let this := new_Patcher env o in
  let backup := exe +:+ ".backup" in
  let wA := (patch env this w0).2 in
  keepCache (options this) = true →
  ymExePath this = Some exe →
  (is_Some (fs w0 !! backup) → fs wA !! backup = fs w0 !! backup)
  ∧ (fs wA !! exe ≠ fs w0 !! exe →
     is_Some (fs wA !! backup)
     ∧ (fs w0 !! backup = None → fs wA !! backup = fs w0 !! exe)).
Proof.
  intros this backup wA Hkeep Hexe.
  destruct (patch_exe_cases env o exe w0 Hkeep Hexe)
    as [[HexeA HbackupA]
       |(found & oldHash & installed & newHash & w2 & _ & _ & _ & _
         & Hexe2 & Hbackup2 & HexeA & HbackupA)].
  { fold this backup wA in HexeA, HbackupA. split; [by intros _|].
    intros Hchanged. by destruct Hchanged. }
  fold this backup wA in HexeA, HbackupA. fold backup in Hbackup2.
  destruct (bypassIntegrityWin_guard this exe oldHash newHash w2 Hexe)
    as [Hkept Hguard].
  fold backup in Hkept, Hguard.
  rewrite HexeA, HbackupA, <- Hexe2, <- Hbackup2. split; [done|].
  exact Hguard.
Qed.

Lemma patch_changes_exe_with_backup_witness :
  let wA := (patch Demo.windows Demo.this Demo.installed_windows).2 in
  fs wA !! Demo.exe ≠ fs Demo.installed_windows !! Demo.exe
  ∧ fs wA !! (Demo.exe +:+ ".backup") = Some (Demo.bytes "MZ..OL....OL..").
Proof.
  intros wA.
  assert (Hchanged : fs wA !! Demo.exe ≠ fs Demo.installed_windows !! Demo.exe)
    by (vm_compute; discriminate).
  split; [exact Hchanged|].
  destruct (patch_changes_exe_with_backup Demo.windows
              (Demo.with_type default_type) Demo.exe Demo.installed_windows)
    as [_ Hguard]; [reflexivity..|].
  destruct (Hguard Hchanged) as [_ Hmade].
  etrans; [apply Hmade; vm_compute; reflexivity|].
  vm_compute. reflexivity.
Defined.

End ExeMore.
